(** * ohlcv-hub: the fetch client, the validator and the weekly resampler

    A shallow embedding of [ohlcv_hub/providers/alpaca.py],
    [ohlcv_hub/validate.py] and [ohlcv_hub/resample.py], and the properties
    of the specification that are settled on it.

    Conventions of the embedding.
    - Python floats that only go through comparison, [min], [max] and
      exactly representable sums are rationals ([Q]); a float read from a
      header can also be infinite or not-a-number ([float] below).
    - [int64] columns are [Z], with the wrap-around written where the code
      adds them up.
    - A timestamp ([pandas.Timestamp], UTC) is its number of nanoseconds
      since the epoch, a calendar date its day number.
    - Dictionaries are [gmap]s; a data frame is the list of its rows, the
      row at position [i] carrying the index label [i].
    - The HTTP server, the clock, the trading calendar and Python's
      built-in [float] and [int] readers are parameters; the clock gives
      finite readings.
    - The sorts of pandas leave rows with equal keys in the order they had
      ([Py.sort_by]).
    - Log lines are left out: the logger is silent unless configured and
      writes nothing that the code reads back. *)

From Stdlib Require Import ZArith QArith Qminmax Lia Lqa Ascii.
From Stdlib Require String.
From stdpp Require Import gmap strings list sorting pretty.

Local Open Scope Z_scope.

(** ** Python values shared by the three modules *)

Module Py.

(** A Python float: finite, or one of the three values [float("inf")],
    [float("-inf")] and [float("nan")]. *)
Inductive float :=
| Finite (q : Q)
| PosInf
| NegInf
| NaN.

Definition Qltb (a b : Q) : bool := negb (Qle_bool b a).

(** [a < b] on floats; every comparison with [NaN] is false. *)
Definition float_ltb (a b : float) : bool :=
  match a, b with
  | NaN, _ | _, NaN => false
  | Finite x, Finite y => Qltb x y
  | NegInf, NegInf => false
  | NegInf, _ => true
  | PosInf, _ => false
  | Finite _, PosInf => true
  | Finite _, NegInf => false
  end.

(** The built-ins [max(a, b)] and [min(a, b)]: the first argument is kept
    unless the second is strictly greater (smaller). *)
Definition max (a b : float) : float := if float_ltb a b then b else a.
Definition min (a b : float) : float := if float_ltb b a then b else a.

(** The same on finite floats. *)
Definition qmax (a b : Q) : Q := if Qltb a b then b else a.
Definition qmin (a b : Q) : Q := if Qltb b a then b else a.

(** [int(x)] on a finite float: truncation towards zero. *)
Definition int_of_Q (x : Q) : Z := Z.quot (Qnum x) (Z.pos (Qden x)).

(** Whitespace as [str.strip] sees it, on the ASCII range. *)
Definition is_whitespace (c : ascii) : bool :=
  let n := nat_of_ascii c in
  ((9 <=? n)%nat && (n <=? 13)%nat) || ((28 <=? n)%nat && (n <=? 32)%nat).

Fixpoint lstrip (s : string) : string :=
  match s with
  | String c s' => if is_whitespace c then lstrip s' else s
  | EmptyString => EmptyString
  end.

Fixpoint rstrip (s : string) : string :=
  match s with
  | String c s' =>
      match rstrip s' with
      | EmptyString => if is_whitespace c then EmptyString else String c EmptyString
      | t => String c t
      end
  | EmptyString => EmptyString
  end.

Definition strip (s : string) : string := rstrip (lstrip s).

(** [str.upper] on the ASCII range. *)
Definition upper_ascii (c : ascii) : ascii :=
  let n := nat_of_ascii c in
  if ((97 <=? n)%nat && (n <=? 122)%nat)%bool then ascii_of_nat (n - 32) else c.

Fixpoint upper (s : string) : string :=
  match s with
  | String c s' => String (upper_ascii c) (upper s')
  | EmptyString => EmptyString
  end.

(** [sep.join(parts)]. *)
Fixpoint join (sep : string) (parts : list string) : string :=
  match parts with
  | [] => EmptyString
  | [p] => p
  | p :: rest => (p +:+ sep +:+ join sep rest)%string
  end.

(** [s[:n]]. *)
Definition prefix (n : nat) (s : string) : string := String.substring 0 n s.

(** [s.rstrip("/")]. *)
Fixpoint rstrip_slash (s : string) : string :=
  match s with
  | String c s' =>
      match rstrip_slash s' with
      | EmptyString => if Ascii.eqb c "/"%char then EmptyString else String c EmptyString
      | t => String c t
      end
  | EmptyString => EmptyString
  end.

(** A stable sort by a key order: rows that compare equal keep the order
    they came in. It stands for [sort_values], [sort_index] and [sorted]. *)
Fixpoint insert_by {A} (le : A -> A -> bool) (x : A) (l : list A) : list A :=
  match l with
  | [] => [x]
  | y :: l' => if le x y then x :: l else y :: insert_by le x l'
  end.

Fixpoint sort_by {A} (le : A -> A -> bool) (l : list A) : list A :=
  match l with
  | [] => []
  | x :: l' => insert_by le x (sort_by le l')
  end.

(** [Series.unique()]: the distinct values in order of first appearance. *)
Fixpoint unique_from `{EqDecision A} (seen : list A) (l : list A) : list A :=
  match l with
  | [] => []
  | x :: l' =>
      if decide (x ∈ seen) then unique_from seen l'
      else x :: unique_from (x :: seen) l'
  end.

Definition unique `{EqDecision A} (l : list A) : list A := unique_from [] l.

(** [seq[i]] with Python's negative positions. *)
Definition item {A} (l : list A) (i : Z) : option A :=
  if i <? 0 then l !! Z.to_nat (Z.of_nat (length l) + i) else l !! Z.to_nat i.

(** Python's [float(str)] and [int(str)]. [None] stands for the
    [ValueError] they raise on text they cannot read. *)
Class Builtins := {
  py_float : string -> option float;
  py_int : string -> option Z
}.

End Py.

(** ** The bars client: [ohlcv_hub/providers/alpaca.py] *)

Module Alpaca.
Import Py.

(** Retry bounds for HTTP 429: additional attempts after the first. *)
Definition MAX_RETRIES_PER_REQUEST : nat := 5.
Definition MAX_SLEEP_SECONDS : Q := 5%Q.
Definition BACKOFF_BASE_SECONDS : list Q := [1 # 2; 1; 2; 4]%Q.

(** Proactive throttling. *)
Definition SAFETY_BUFFER_SECONDS : Q := (1 # 4)%Q.
Definition MAX_PROACTIVE_SLEEP_SECONDS : Q := 10%Q.

(** One raw bar of a page, as the JSON object holds it. *)
Record Bar := {
  bar_t : option string;
  bar_o : option Q;
  bar_h : option Q;
  bar_l : option Q;
  bar_c : option Q;
  bar_v : option Z
}.

(** The decoded body of a page. A key that is missing or [null] is [None];
    a missing ["bars"] key is the empty dictionary. *)
Record Payload := {
  bars : gmap string (list Bar);
  next_page_token : option string;
  currency : option string
}.

(** A response: header names are lower-cased, as the case-insensitive
    lookup of the HTTP library sees them; [json] is [inl msg] when decoding
    the body raises [JSONDecodeError]. *)
Record Response := {
  status_code : Z;
  headers : gmap string string;
  text : string;
  json : string + Payload
}.

Record Params := {
  p_symbols : string;
  p_timeframe : string;
  p_start : string;
  p_end : string;
  p_limit : Z;
  p_adjustment : string;
  p_sort : string;
  p_feed : option string;
  p_asof : option string;
  p_page_token : option string
}.

Record Request := {
  url : string;
  params : Params;
  auth : list (string * string)
}.

Record BarsResponse := {
  r_bars : gmap string (list Bar);
  r_currency : option string
}.

Inductive Exception :=
| ValueError (msg : string)
| ProviderError (msg : string) (code : option Z).

Inductive Result (A : Type) :=
| Return (a : A)
| Raise (e : Exception).
Arguments Return {A} a.
Arguments Raise {A} e.

Record AlpacaClient := {
  api_key : string;
  api_secret : string;
  base_url : string
}.

Definition init (key secret base : string) : AlpacaClient :=
  {| api_key := key; api_secret := secret; base_url := rstrip_slash base |}.

(** The world outside the client: the server answers the [n]-th request
    (counted from 0) with [handler n request]; the [n]-th reading of the
    injected clock returns [now n]. *)
Record Env := {
  handler : nat -> Request -> Response;
  now : nat -> Q
}.

(** What the client has done so far, in order. *)
Inductive Event :=
| EvSleep (seconds : float)
| EvGet (request : Request).

Record World := {
  trace : list Event;
  gets : nat;
  clock_reads : nat
}.

Definition world0 : World := {| trace := []; gets := 0; clock_reads := 0 |}.

Definition read_clock (env : Env) (w : World) : Q * World :=
  (now env (clock_reads w),
   {| trace := trace w; gets := gets w; clock_reads := S (clock_reads w) |}).

Definition sleep (seconds : float) (w : World) : World :=
  {| trace := trace w ++ [EvSleep seconds]; gets := gets w;
     clock_reads := clock_reads w |}.

Definition http_get (env : Env) (request : Request) (w : World) : Response * World :=
  (handler env (gets w) request,
   {| trace := trace w ++ [EvGet request]; gets := S (gets w);
      clock_reads := clock_reads w |}).

Definition _build_auth_headers (self : AlpacaClient) : list (string * string) :=
  [("APCA-API-KEY-ID", api_key self); ("APCA-API-SECRET-KEY", api_secret self)].

Section Client.
Context `{Builtins}.

(** [int(raw.strip())] under [try]/[except (ValueError, TypeError)]. *)
Definition parse_int_header (raw : option string) : option Z :=
  match raw with
  | Some v => py_int (strip v)
  | None => None
  end.

Definition _parse_rate_limit_headers (response : Response)
  : option Z * option Z * option Z :=
  (parse_int_header (headers response !! "x-ratelimit-limit"),
   parse_int_header (headers response !! "x-ratelimit-remaining"),
   parse_int_header (headers response !! "x-ratelimit-reset")).

Definition backoff (attempt_index : nat) : float * string :=
  match BACKOFF_BASE_SECONDS !! attempt_index with
  | Some base => (min (Finite base) (Finite MAX_SLEEP_SECONDS), "backoff")
  | None => (Finite MAX_SLEEP_SECONDS, "backoff")
  end.

Definition sleep_from_reset (env : Env) (response : Response)
    (attempt_index : nat) (w : World) : float * string * World :=
  match headers response !! "x-ratelimit-reset" with
  | Some reset_header =>
      match py_int (strip reset_header) with
      | Some reset_ts =>
          let '(t, w1) := read_clock env w in
          let now_ts := int_of_Q t in
          let wait := reset_ts - now_ts in
          (min (max (Finite 0%Q) (Finite (inject_Z wait))) (Finite MAX_SLEEP_SECONDS),
           "X-RateLimit-Reset", w1)
      | None => (backoff attempt_index, w)
      end
  | None => (backoff attempt_index, w)
  end.

Definition _compute_sleep_seconds_for_429 (env : Env) (response : Response)
    (attempt_index : nat) (w : World) : float * string * World :=
  match headers response !! "retry-after" with
  | Some retry_after =>
      match py_float (strip retry_after) with
      | Some secs =>
          (min (max (Finite 0%Q) secs) (Finite MAX_SLEEP_SECONDS), "Retry-After", w)
      | None => sleep_from_reset env response attempt_index w
      end
  | None => sleep_from_reset env response attempt_index w
  end.

(** The carried variables of the pagination loop. *)
Record Loop := {
  merged_bars : gmap string (list Bar);
  currency_seen : option string;
  page_token : option string;
  last_remaining : option Z;
  last_reset : option Z
}.

Definition loop0 : Loop :=
  {| merged_bars := ∅; currency_seen := None; page_token := None;
     last_remaining := None; last_reset := None |}.

(** Proactive gate: when the prior response said the quota is used up
    ([remaining <= 1]), wait until the reset. *)
Definition proactive_gate (env : Env) (st : Loop) (w : World) : World :=
  match last_remaining st, last_reset st with
  | Some remaining, Some reset =>
      if remaining <=? 1 then
        let '(t, w1) := read_clock env w in
        let wait_secs := (inject_Z reset - t + SAFETY_BUFFER_SECONDS)%Q in
        let wait_secs :=
          max (Finite 0%Q) (min (Finite wait_secs) (Finite MAX_PROACTIVE_SLEEP_SECONDS)) in
        if float_ltb (Finite 0%Q) wait_secs then sleep wait_secs w1 else w1
      else w
  | _, _ => w
  end.

(** [while response.status_code == 429 and retries_used < MAX_RETRIES_PER_REQUEST].
    The loop runs at most [MAX_RETRIES_PER_REQUEST] times, which is the
    [fuel] it is started with. *)
Fixpoint retry_while (fuel : nat) (env : Env) (request : Request)
    (response : Response) (retries_used : nat) (w : World)
  : Response * nat * World :=
  if (status_code response =? 429) && (retries_used <? MAX_RETRIES_PER_REQUEST)%nat then
    match fuel with
    | O => (response, retries_used, w)
    | S fuel' =>
        let '(sleep_secs, strategy, w1) :=
          _compute_sleep_seconds_for_429 env response retries_used w in
        let w2 := sleep sleep_secs w1 in
        let '(response', w3) := http_get env request w2 in
        retry_while fuel' env request response' (S retries_used) w3
    end
  else (response, retries_used, w).

(** Update of the rate state from the response that left the retry loop. *)
Definition update_rate_state (st : Loop) (response : Response) : Loop :=
  let '(_, rem, res) := _parse_rate_limit_headers response in
  {| merged_bars := merged_bars st;
     currency_seen := currency_seen st;
     page_token := page_token st;
     last_remaining := match rem with Some r => Some r | None => last_remaining st end;
     last_reset := match res with Some r => Some r | None => last_reset st end |}.

Definition error_text (response : Response) : string :=
  if decide (text response = "") then "(no response body)"
  else prefix 500 (text response).

(** [for symbol, bar_list in page_bars.items(): ...extend(bar_list)]. *)
Definition merge_page (merged page_bars : gmap string (list Bar))
  : gmap string (list Bar) :=
  map_fold
    (fun symbol bar_list acc => <[symbol := default [] (acc !! symbol) ++ bar_list]> acc)
    merged page_bars.

(** [not next_token or next_token == ""]. *)
Definition token_exhausted (next_token : option string) : bool :=
  match next_token with
  | None => true
  | Some t => bool_decide (t = "")
  end.

(** The request of a turn: the page token is attached when the loop is
    continuing a pagination. *)
Definition request_of (self : AlpacaClient) (base : Params) (st : Loop) : Request :=
  let current_params :=
    match page_token st with
    | Some tok =>
        {| p_symbols := p_symbols base; p_timeframe := p_timeframe base;
           p_start := p_start base; p_end := p_end base; p_limit := p_limit base;
           p_adjustment := p_adjustment base; p_sort := p_sort base;
           p_feed := p_feed base; p_asof := p_asof base; p_page_token := Some tok |}
    | None => base
    end in
  {| url := base_url self +:+ "/v2/stocks/bars"; params := current_params;
     auth := _build_auth_headers self |}.

(** First half of a turn of [while True]: the proactive gate, the
    request, and the retries on 429. *)
Definition send (env : Env) (request : Request) (st : Loop) (w : World)
  : Response * nat * World :=
  let w := proactive_gate env st w in
  let '(response, w) := http_get env request w in
  retry_while MAX_RETRIES_PER_REQUEST env request response 0 w.

(** Second half: what is done with the response that left the retry
    loop. [inl st'] goes round again, [inr r] leaves the loop by [break]
    or by an exception. *)
Definition receive (st : Loop) (response : Response) : Loop + Result BarsResponse :=
  let st := update_rate_state st response in
  if negb (status_code response =? 200) then
    if status_code response =? 429 then
      inr (Raise (ProviderError
             ("API rate limited (429) after " +:+ pretty MAX_RETRIES_PER_REQUEST
                +:+ " retries exhausted: " +:+ error_text response)
             (Some 429)))
    else
      inr (Raise (ProviderError
             ("API request failed with status " +:+ pretty (status_code response)
                +:+ ": " +:+ error_text response)
             (Some (status_code response))))
  else
    match json response with
    | inl e =>
        inr (Raise (ProviderError ("Failed to parse JSON response: " +:+ e)
                      (Some (status_code response))))
    | inr data =>
        let merged := merge_page (merged_bars st) (bars data) in
        let cur :=
          match currency_seen st with
          | None => currency data
          | Some c => Some c
          end in
        if token_exhausted (next_page_token data) then
          inr (Return {| r_bars := merged; r_currency := cur |})
        else
          inl {| merged_bars := merged; currency_seen := cur;
                 page_token := next_page_token data;
                 last_remaining := last_remaining st;
                 last_reset := last_reset st |}
    end.

Definition page_turn (env : Env) (self : AlpacaClient) (base : Params)
    (st : Loop) (w : World) : (Loop + Result BarsResponse) * World :=
  let '(response, _, w) := send env (request_of self base st) st w in
  (receive st response, w).

(** The pagination loop. The server decides how many pages there are, so
    the loop is run for at most [fuel] turns; [None] means that more turns
    were needed. *)
Fixpoint pagination (fuel : nat) (env : Env) (self : AlpacaClient)
    (base : Params) (st : Loop) (w : World)
  : option (Result BarsResponse * World) :=
  match fuel with
  | O => None
  | S fuel' =>
      match page_turn env self base st w with
      | (inl st', w') => pagination fuel' env self base st' w'
      | (inr r, w') => Some (r, w')
      end
  end.

(** [fetch_stock_bars]. [start] and [end] are the serialised dates
    ([_serialize_date] returns a string as it is). *)
Definition fetch_stock_bars (fuel : nat) (env : Env) (self : AlpacaClient)
    (symbols : list string) (timeframe start end_ : string) (limit : Z)
    (adjustment : string) (feed asof : option string) (sort : string)
    (w : World) : option (Result BarsResponse * World) :=
  if (limit <? 1) || (10000 <? limit) then
    Some (Raise (ValueError
            ("limit must be between 1 and 10000, got " +:+ pretty limit)), w)
  else
    let normalized_symbols :=
      (fun s => strip (upper s)) <$>
        filter (fun s => strip s <> "") symbols in
    match normalized_symbols with
    | [] => Some (Raise (ValueError "At least one symbol is required"), w)
    | _ =>
        let base :=
          {| p_symbols := join "," normalized_symbols; p_timeframe := timeframe;
             p_start := start; p_end := end_; p_limit := limit;
             p_adjustment := adjustment; p_sort := sort;
             p_feed := feed; p_asof := asof; p_page_token := None |} in
        pagination fuel env self base loop0 w
    end.

End Client.

End Alpaca.

(** ** The normalised table *)

Module Table.

(** A calendar date, as its day number. *)
Definition date := Z.

(** A row of the normalised table. *)
Record Row := {
  symbol : string;
  timeframe : string;
  ts : Z;
  open : Q;
  high : Q;
  low : Q;
  close : Q;
  volume : Z;
  source : string;
  currency : string;
  adjustment : string
}.

(** Order of the keys [(symbol, ts)]: of the group keys of
    [groupby(["symbol", "ts"])] and of [sort_values(["symbol", "ts"])]. *)
Definition key_leb (a b : string * Z) : bool :=
  match String.compare a.1 b.1 with
  | Lt => true
  | Eq => a.2 <=? b.2
  | Gt => false
  end.

Definition key (r : Row) : string * Z := (symbol r, ts r).

End Table.

(** ** The validator: [ohlcv_hub/validate.py] *)

Module Validate.
Import Py Table.

(** One line of a data frame: the index label, the row, and the cell of
    the column ["bar_date"] when that column has been added. A frame is
    the list of its lines. *)
Record Line := {
  label : nat;
  row : Row;
  bar_date : option date
}.

(** A frame as the normaliser and the resampler leave it: labels
    [0, 1, 2, ...] ([reset_index(drop=True)]). *)
Definition frame_of (l : list Row) : list Line :=
  zip_with (fun i r => {| label := i; row := r; bar_date := None |})
    (seq 0 (length l)) l.

Record Summary := {
  symbols_count : nat;
  bars_count : nat;
  date_range : date * date
}.

Record Duplicate := {
  dup_symbol : string;
  dup_ts : Z;
  dup_count : nat
}.

Record NonMonotonic := {
  nm_symbol : string;
  example_ts_prev : Z;
  example_ts_next : Z
}.

Record OhlcSample := {
  os_symbol : string;
  os_ts : Z;
  os_open : Q;
  os_high : Q;
  os_low : Q;
  os_close : Q;
  os_issue : string
}.

Record VolumeSample := {
  vs_symbol : string;
  vs_ts : Z;
  vs_volume : Z
}.

Record Violations (A : Type) := {
  count : nat;
  samples : list A
}.
Arguments count {A} _.
Arguments samples {A} _.

Record Issues := {
  duplicates : list Duplicate;
  non_monotonic : list NonMonotonic;
  ohlc_violations : Violations OhlcSample;
  volume_violations : Violations VolumeSample
}.

(** The values under the keys of [report["missing_days"]]: a symbol's list
    of missing dates, the ["totals"] entry, the ["error"] entry. *)
Inductive MissingValue :=
| Dates (missing : list date)
| Totals (missing_days_count_total : nat)
| Error (message : string).

(** The report; [missing_days] is [None] until the key is set. *)
Record Report := {
  summary : Summary;
  issues : Issues;
  missing_days : option (gmap string MissingValue)
}.

(** [df.duplicated(subset=["symbol", "ts"], keep=False)]: the rows whose
    key occurs more than once, and then one entry per group. *)
Definition find_duplicates (df : list Row) : list Duplicate :=
  let duplicated :=
    filter (fun r => (1 < length (filter (fun r' => key r' = key r) df))%nat) df in
  (fun k => {| dup_symbol := k.1; dup_ts := k.2;
               dup_count := length (filter (fun r => key r = k) duplicated) |})
    <$> sort_by key_leb (unique (key <$> duplicated)).

(** [Series.diff()]: the first entry has no predecessor ([NaT]). *)
Fixpoint diff_from (prev : Z) (l : list Z) : list (option Z) :=
  match l with
  | [] => []
  | x :: l' => Some (x - prev) :: diff_from x l'
  end.

Definition diff (l : list Z) : list (option Z) :=
  match l with
  | [] => []
  | x :: l' => None :: diff_from x l'
  end.

(** [ts_diff <= pd.Timedelta(0)]; a comparison with [NaT] is false. *)
Definition nonpositive (d : option Z) : bool :=
  match d with
  | Some v => v <=? 0
  | None => false
  end.

(** [index.get_loc(idx)]: the position of a label. *)
Fixpoint get_loc (index : list nat) (idx : nat) : option nat :=
  match index with
  | [] => None
  | i :: index' => if decide (i = idx) then Some 0%nat else S <$> get_loc index' idx
  end.

(** [symbol_df.loc[idx, "ts"]]. *)
Definition loc_ts (symbol_df : list Line) (idx : nat) : option Z :=
  (fun p => ts (row p)) <$> head (filter (fun p => label p = idx) symbol_df).

(** The body of the loop over [df["symbol"].unique()] in the monotonic
    check: the example of one symbol, when it has one. *)
Definition non_monotonic_of (df : list Line) (sym : string)
  : option NonMonotonic :=
  let symbol_df :=
    sort_by (fun a b => ts (row a) <=? ts (row b))
      (filter (fun p => symbol (row p) = sym) df) in
  if (1 <? length symbol_df)%nat then
    let ts_diff := diff ((fun p => ts (row p)) <$> symbol_df) in
    let violations :=
      (filter (fun pd => nonpositive pd.2 = true) (zip symbol_df ts_diff)).*1 in
    match violations with
    | [] => None
    | v :: _ =>
        let idx := label v in
        if (0 <? idx)%nat then
          pos ← get_loc (label <$> symbol_df) idx;
          prev_idx ← item (label <$> symbol_df) (Z.of_nat pos - 1);
          prev_ts ← loc_ts symbol_df prev_idx;
          curr_ts ← loc_ts symbol_df idx;
          Some {| nm_symbol := sym; example_ts_prev := prev_ts;
                  example_ts_next := curr_ts |}
        else None
    end
  else None.

(** The three OHLC tests, in the order of the [if]/[elif] chain. *)
Definition ohlc_issue (row : Row) : option string :=
  if Qltb (high row) (qmax (open row) (close row)) then Some "high < max(open, close)"
  else if Qltb (qmin (open row) (close row)) (low row) then Some "low > min(open, close)"
  else if Qltb (high row) (low row) then Some "high < low"
  else None.

Definition ohlc_sample (row : Row) : option OhlcSample :=
  (fun issue => {| os_symbol := symbol row; os_ts := ts row; os_open := open row;
                   os_high := high row; os_low := low row; os_close := close row;
                   os_issue := issue |}) <$> ohlc_issue row.

Definition volume_sample (row : Row) : VolumeSample :=
  {| vs_symbol := symbol row; vs_ts := ts row; vs_volume := volume row |}.

(** [_validate_bars_issues]: the report with summary and issues filled,
    and the [ok] flag. Every pandas call in it returns a new frame that is
    only read. *)
Definition _validate_bars_issues (df : list Line) (start end_ : date) : Report * bool :=
  let table := row <$> df in
  match table with
  | [] =>
      ({| summary := {| symbols_count := 0; bars_count := 0;
                        date_range := (start, end_) |};
          issues := {| duplicates := []; non_monotonic := [];
                       ohlc_violations := {| count := 0; samples := [] |};
                       volume_violations := {| count := 0; samples := [] |} |};
          missing_days := None |}, true)
  | _ =>
      let symbols := unique (symbol <$> table) in
      let dups := find_duplicates table in
      let non_mono := omap (non_monotonic_of df) symbols in
      let ohlc := omap ohlc_sample table in
      let vol := volume_sample <$> filter (fun r => volume r < 0) table in
      let report :=
        {| summary := {| symbols_count := length symbols; bars_count := length table;
                         date_range := (start, end_) |};
           issues := {| duplicates := dups; non_monotonic := non_mono;
                        ohlc_violations := {| count := length ohlc; samples := take 20 ohlc |};
                        volume_violations := {| count := length vol; samples := take 20 vol |} |};
           missing_days := None |} in
      let ok :=
        bool_decide (length dups = 0%nat) && bool_decide (length non_mono = 0%nat)
        && bool_decide (length ohlc = 0%nat) && bool_decide (length vol = 0%nat) in
      (report, ok)
  end.

Definition set_missing_days (report : Report) (m : gmap string MissingValue) : Report :=
  {| summary := summary report; issues := issues report; missing_days := Some m |}.

(** The trading calendar ([exchange_calendars]) and the time-zone data
    ([zoneinfo]): [sessions] gives the session dates of an exchange in a
    range, or [inl message] when the library raises; [local_date] is the
    date of an instant in New York. *)
Record Calendar := {
  sessions : string -> date -> date -> string + list date;
  local_date : Z -> date
}.

(** *** The object store

    The frames live in a store; a variable holds a location. Boolean
    indexing and [copy] allocate a new frame, assigning a column writes
    into the frame the variable points to. *)

Definition deref (h : gmap nat (list Line)) (l : nat) : list Line :=
  default [] (h !! l).

Definition alloc (f : list Line) (h : gmap nat (list Line))
  : nat * gmap nat (list Line) :=
  let l := fresh (dom h) in (l, <[l := f]> h).

(** [df[df["symbol"] == symbol]]. *)
Definition select_symbol (df : nat) (sym : string) (h : gmap nat (list Line))
  : nat * gmap nat (list Line) :=
  alloc (filter (fun p => symbol (row p) = sym) (deref h df)) h.

(** [frame.copy()]. *)
Definition copy (frame : nat) (h : gmap nat (list Line)) : nat * gmap nat (list Line) :=
  alloc (deref h frame) h.

(** [frame["bar_date"] = frame["ts"].dt.tz_convert(NY_TZ).dt.date]: the
    column is written into the frame at [frame]. *)
Definition set_bar_date (cal : Calendar) (frame : nat) (h : gmap nat (list Line))
  : gmap nat (list Line) :=
  <[frame := (fun p => {| label := label p; row := row p;
                          bar_date := Some (local_date cal (ts (row p))) |})
               <$> deref h frame]> h.

(** The body of the loop over the symbols in the calendar check. *)
Definition missing_of_symbol (cal : Calendar) (expected_dates : gset date)
    (df : nat) (sym : string)
    (acc : gmap string (list date) * gmap nat (list Line))
  : gmap string (list date) * gmap nat (list Line) :=
  let '(missing_days_per_symbol, h) := acc in
  let '(symbol_df, h) := select_symbol df sym h in
  let '(symbol_df_ny, h) := copy symbol_df h in
  let h := set_bar_date cal symbol_df_ny h in
  let present_dates : gset date :=
    list_to_set (omap bar_date (deref h symbol_df_ny)) in
  let missing_dates := sort_by Z.leb (elements (expected_dates ∖ present_dates)) in
  match missing_dates with
  | [] => (missing_days_per_symbol, h)
  | _ => (<[sym := missing_dates]> missing_days_per_symbol, h)
  end.

(** [validate_daily_bars]: the result and the store it leaves. *)
Definition validate_daily_bars (cal : Calendar) (df : nat) (start end_ : date)
    (h : gmap nat (list Line)) : (bool * Report) * gmap nat (list Line) :=
  let '(report, ok) := _validate_bars_issues (deref h df) start end_ in
  let report := set_missing_days report ∅ in
  match deref h df with
  | [] => ((true, set_missing_days report {[ "totals" := Totals 0 ]}), h)
  | _ =>
      match sessions cal "XNYS" start end_ with
      | inr sessions_in_range =>
          let expected_dates : gset date := list_to_set sessions_in_range in
          let '(missing_days_per_symbol, h') :=
            foldl (fun acc sym => missing_of_symbol cal expected_dates df sym acc)
              (∅, h) (unique ((fun p => symbol (row p)) <$> deref h df)) in
          let total :=
            map_fold (fun _ dates n => (length dates + n)%nat) 0%nat
              missing_days_per_symbol in
          ((ok, set_missing_days report
                  (<["totals" := Totals total]> (Dates <$> missing_days_per_symbol))), h')
      | inl e =>
          ((ok, set_missing_days report
                  (<["totals" := Totals 0]> (<["error" := Error e]> ∅))), h)
      end
  end.

(** [validate_weekly_bars]. *)
Definition validate_weekly_bars (df : nat) (start end_ : date)
    (h : gmap nat (list Line)) : (bool * Report) * gmap nat (list Line) :=
  let '(report, ok) := _validate_bars_issues (deref h df) start end_ in
  ((ok, set_missing_days report {[ "totals" := Totals 0 ]}), h).

(** *** Notions for the proofs *)

(** What was in the store is still there, unchanged. *)
Definition preserved (h h' : gmap nat (list Line)) : Prop :=
  forall l f, h !! l = Some f -> h' !! l = Some f.

(** The first line after [prev] whose time delta to the line before it is
    not positive, with that line before it. *)
Fixpoint first_violation (prev : Line) (l : list Line) : option (Line * Line) :=
  match l with
  | [] => None
  | b :: l' =>
      if ts (row b) - ts (row prev) <=? 0 then Some (prev, b) else first_violation b l'
  end.

(** The order a stable sort by [ts] puts the lines in: by time, and by
    label among equal times. *)
Definition before (a b : Line) : Prop :=
  ts (row a) < ts (row b) \/ (ts (row a) = ts (row b) /\ (label a < label b)%nat).

End Validate.

(** ** The resampler: [ohlcv_hub/resample.py] *)

Module Resample.
Import Py Table.

(** Nanoseconds in a day and in a week. *)
Definition DAY : Z := 86400 * 1000000000.
Definition WEEK : Z := 7 * DAY.

(** [Timestamp.normalize()]: midnight of the same UTC day. *)
Definition normalize (t : Z) : Z := t - t mod DAY.

(** [Timestamp.weekday()], Monday being 0; the epoch was a Thursday. *)
Definition weekday (t : Z) : Z := (t / DAY + 3) mod 7.

(** The offset [W-MON]: [rollback] leaves a Monday where it is and moves
    another day back to the Monday before; adding the offset moves to the
    first Monday strictly after. *)
Definition rollback (t : Z) : Z := t - weekday t * DAY.
Definition add_week (t : Z) : Z := t + (7 - weekday t) * DAY.

(** The left edges of the bins of
    [resample("W-MON", label="left", closed="left")] over the sorted
    index [index]: the Mondays from the one on or before the first day to
    the one after the last day, the last one excluded. *)
Definition bin_labels (index : list Z) : list Z :=
  match index, last index with
  | t0 :: _, Some t1 =>
      let first := rollback (normalize t0) in
      let last := add_week (normalize t1) in
      (fun i => first + Z.of_nat i * WEEK) <$> seq 0 (Z.to_nat ((last - first) / WEEK))
  | _, _ => []
  end.

(** An [int64] result. *)
Definition wrap64 (z : Z) : Z := (z + 2 ^ 63) mod 2 ^ 64 - 2 ^ 63.

(** One line of the resampled frame. *)
Record Week := {
  w_ts : Z;
  w_open : Q;
  w_high : Q;
  w_low : Q;
  w_close : Q;
  w_volume : Z
}.

(** The aggregation of the rows of one bin, in index order: first, max,
    min, last, sum. A bin without rows has no first [open] and is dropped
    by [dropna(subset=["open"])]. *)
Definition aggregate (edge : Z) (bin : list Row) : option Week :=
  match bin with
  | [] => None
  | r :: rest =>
      Some {| w_ts := edge;
              w_open := open r;
              w_high := foldl qmax (high r) (high <$> rest);
              w_low := foldl qmin (low r) (low <$> rest);
              w_close := close (List.last rest r);
              w_volume := wrap64 (foldl Z.add 0 (volume <$> r :: rest)) |}
  end.

(** The bin that begins at [edge], [closed="left"]. *)
Definition agg (sym_df : list Row) (edge : Z) : option Week :=
  aggregate edge (filter (fun r => edge <= ts r < edge + WEEK) sym_df).

(** A weekly row: the symbol and the metadata of the symbol's first daily
    row are put back. *)
Definition weekly_row (sym : string) (first_row : Row) (w : Week) : Row :=
  {| symbol := sym; timeframe := "1w"; ts := w_ts w;
     open := w_open w; high := w_high w; low := w_low w;
     close := w_close w; volume := w_volume w;
     source := source first_row; currency := currency first_row;
     adjustment := adjustment first_row |}.

(** The body of the loop over [df["symbol"].unique()]. *)
Definition weekly_part (df : list Row) (sym : string) : list Row :=
  let sym_df := sort_by (fun a b => ts a <=? ts b) (filter (fun r => symbol r = sym) df) in
  let resampled := omap (agg sym_df) (bin_labels (ts <$> sym_df)) in
  match resampled, sym_df with
  | _ :: _, first_row :: _ => weekly_row sym first_row <$> resampled
  | _, _ => []
  end.

(** [to_weekly]. *)
Definition to_weekly (df_daily : list Row) : list Row :=
  match df_daily with
  | [] => []
  | _ =>
      let weekly_parts := weekly_part df_daily <$> unique (symbol <$> df_daily) in
      sort_by (fun a b => key_leb (key a) (key b)) (concat weekly_parts)
  end.

End Resample.


(** ** Readers of decimal whole numbers

    An instance of the built-in readers for the examples: an optional sign
    followed by ASCII digits. *)

Module Decimal.
Import Py.

Definition digit (c : ascii) : option Z :=
  let n := nat_of_ascii c in
  if ((48 <=? n)%nat && (n <=? 57)%nat)%bool then Some (Z.of_nat (n - 48)) else None.

Fixpoint digits (acc : Z) (s : string) : option Z :=
  match s with
  | EmptyString => Some acc
  | String c s' =>
      match digit c with
      | Some d => digits (10 * acc + d) s'
      | None => None
      end
  end.

Definition unsigned (s : string) : option Z :=
  match s with
  | EmptyString => None
  | _ => digits 0 s
  end.

Definition read_int (s : string) : option Z :=
  match s with
  | String c s' =>
      if Ascii.eqb c "-"%char then Z.opp <$> unsigned s'
      else if Ascii.eqb c "+"%char then unsigned s'
      else unsigned s
  | EmptyString => None
  end.

Definition read_float (s : string) : option float :=
  (fun z => Finite (inject_Z z)) <$> read_int s.

#[export] Instance readers : Builtins :=
  {| py_float := read_float; py_int := read_int |}.

End Decimal.

(** ** Notions of the specification

    The words of the specification that the statements below use, written
    down independently of the code. *)

Module Spec.
Import Py Table Alpaca.

(** [x] clamped to [[lo, hi]]. *)
Definition clamp (lo hi x : Q) : Q :=
  if Qltb lo x then (if Qltb hi x then hi else x) else lo.

(** The same for a float that may be infinite; not-a-number counts as no
    wait. *)
Definition clamp_float (lo hi : Q) (x : float) : Q :=
  match x with
  | Finite q => clamp lo hi q
  | PosInf => hi
  | NegInf => lo
  | NaN => lo
  end.

(** The backoff table, clamped to 5 when it is exhausted. *)
Definition backoff_seconds (attempt_index : nat) : Q :=
  match attempt_index with
  | 0%nat => (1 # 2)%Q
  | 1%nat => 1%Q
  | 2%nat => 2%Q
  | 3%nat => 4%Q
  | _ => 5%Q
  end.

Definition header_int `{Builtins} (hs : gmap string string) (name : string)
  : option Z :=
  hs !! name ≫= fun v => py_int (strip v).

(** The proactive delay: [(reset - now) + 0.25] clamped to [[0, 10]] when
    the remaining quota is at most 1 and a reset time is known, zero
    otherwise. *)
Definition proactive_delay (last_remaining last_reset : option Z) (now : Q) : Q :=
  match last_remaining, last_reset with
  | Some remaining, Some reset =>
          if remaining <=? 1 then clamp 0 10 ((inject_Z reset - now) + (1 # 4))%Q else 0%Q
  | _, _ => 0%Q
  end.

(** The answers received during a turn of the pagination loop that took
    the world from [w] to [w']. *)
Definition turn_answers (env : Env) (request : Request) (w w' : World) : list Response :=
  (fun i => handler env i request) <$> seq (gets w) (gets w' - gets w).

(** The rate state as the words "every response overwrites the carried
    state" describe it. *)
Definition rate_after_every_answer `{Builtins} (st : Loop) (answers : list Response) : Loop :=
  foldl update_rate_state st answers.

(** The bars of a symbol in a page; none when the page does not name it. *)
Definition bars_of (symbol : string) (data : Payload) : list Bar :=
  default [] (bars data !! symbol).

(** Monday 00:00:00 UTC of the week of an instant (nanoseconds since the
    epoch, which was a Thursday). *)
Definition week_start (t : Z) : Z :=
  t - (t + 3 * (86400 * 1000000000)) mod (7 * (86400 * 1000000000)).

(** The first adjacent pair of a sequence whose time delta is not
    positive. *)
Fixpoint first_nonpositive_step (l : list Z) : option (Z * Z) :=
  match l with
  | a :: l' =>
      match l' with
      | b :: _ => if b - a <=? 0 then Some (a, b) else first_nonpositive_step l'
      | [] => None
      end
  | [] => None
  end.

(** The sum of a column of integers. *)
Definition total (l : list Z) : Z := foldr Z.add 0 l.

(** The largest and the smallest of a column of prices. *)
Definition is_max (x : Q) (l : list Q) : Prop :=
  x ∈ l /\ forall y, y ∈ l -> (y <= x)%Q.
Definition is_min (x : Q) (l : list Q) : Prop :=
  x ∈ l /\ forall y, y ∈ l -> (x <= y)%Q.

End Spec.


(** ** Sample servers, clocks and tables for the examples *)

Module Examples.
Import Py Alpaca.

Definition throttled (hs : gmap string string) : Response :=
  {| status_code := 429; headers := hs; text := "rate limited";
     json := inl "not an object" |}.

Definition page (hs : gmap string string) (data : Payload) : Response :=
  {| status_code := 200; headers := hs; text := "{...}"; json := inr data |}.


Definition client : AlpacaClient := init "key" "secret" "https://data.alpaca.markets/".

Definition base : Params :=
  {| p_symbols := "SPY"; p_timeframe := "1Day"; p_start := "2024-01-01";
     p_end := "2024-01-03"; p_limit := 10000; p_adjustment := "raw"; p_sort := "asc";
     p_feed := None; p_asof := None; p_page_token := None |}.

Definition bar (t : string) (o h l c : Q) (v : Z) : Bar :=
  {| bar_t := Some t; bar_o := Some o; bar_h := Some h; bar_l := Some l;
     bar_c := Some c; bar_v := Some v |}.

Definition spy1 : Bar := bar "2024-01-01T04:00:00Z" 100 101 99 (201 # 2) 1000.
Definition spy2 : Bar := bar "2024-01-02T04:00:00Z" 101 102 100 (203 # 2) 1100.

(** Every answer is 429 with [Retry-After: 0]. *)
Definition always_throttled : Env :=
  {| handler := fun _ _ => throttled {[ "retry-after" := "0" ]};
     now := fun _ => 1000%Q |}.

(** A first page that reports the quota used up and a reset one second
    ahead, then a last page. *)
Definition two_pages (hs : gmap string string) : Env :=
  {| handler := fun n _ =>
       match n with
       | O => page hs {| bars := {[ "SPY" := [spy1] ]}; next_page_token := Some "tok1";
                         currency := Some "USD" |}
       | _ => page ∅ {| bars := {[ "SPY" := [spy2] ]}; next_page_token := None;
                        currency := Some "USD" |}
       end;
     now := fun _ => 1000%Q |}.

Definition exhausted_quota : gmap string string :=
  <[ "x-ratelimit-remaining" := "0" ]> {[ "x-ratelimit-reset" := "1001" ]}.

(** A 429 that reports the quota used up, answered on retry by a first page
    without rate-limit headers, then a last page. *)
Definition throttled_then_pages : Env :=
  {| handler := fun n request =>
       match n with
       | O => throttled (<[ "retry-after" := "0" ]> exhausted_quota)
       | S n' => handler (two_pages ∅) n' request
       end;
     now := fun _ => 1000%Q |}.

(** Every answer is a page whose next-page token is the empty string. *)
Definition empty_token : Env :=
  {| handler := fun _ _ =>
       page ∅ {| bars := {[ "SPY" := [spy1] ]}; next_page_token := Some "";
                 currency := None |};
     now := fun _ => 1000%Q |}.

End Examples.


(** ** Sample tables and calendars for the examples *)

Module Samples.
Import Py Table Validate.

(** 04:00 UTC on the day number [d]; day 19723 is Monday 2024-01-01. *)
Definition at_day (d : Z) : Z := (d * 86400 + 4 * 3600) * 1000000000.

(** Midnight UTC of the day number [d]. *)
Definition midnight (d : Z) : Z := d * 86400 * 1000000000.

Definition daily (sym : string) (d : Z) (o h l c : Q) (v : Z) : Row :=
  {| symbol := sym; timeframe := "1d"; ts := at_day d;
     open := o; high := h; low := l; close := c; volume := v;
     source := "alpaca"; currency := "USD"; adjustment := "raw" |}.

(** Three days of one symbol, latest first. *)
Definition descending : list Row :=
  [daily "AAPL" 19725 102 104 101 103 1200;
   daily "AAPL" 19724 101 103 100 102 1100;
   daily "AAPL" 19723 100 102 99 101 1000].

(** The same with the middle day given twice. *)
Definition repeated : list Row :=
  [daily "AAPL" 19725 102 104 101 103 1200;
   daily "AAPL" 19724 101 103 100 102 1100;
   daily "AAPL" 19724 101 103 100 102 1100;
   daily "AAPL" 19723 100 102 99 101 1000].

(** Two symbols over two weeks that begin on the Mondays 19723 and
    19730. *)
Definition two_weeks : list Row :=
  [daily "AAPL" 19723 100 102 99 101 1000;
   daily "AAPL" 19724 101 105 100 104 1100;
   daily "AAPL" 19727 104 106 98 103 1200;
   daily "AAPL" 19730 103 107 102 106 1300;
   daily "AAPL" 19731 106 108 105 107 1400;
   daily "TSLA" 19723 200 205 198 203 2000;
   daily "TSLA" 19726 203 208 202 206 2100;
   daily "TSLA" 19732 206 209 201 202 2200].

(** A calendar library that does not know the exchange. *)
Definition no_calendar : Calendar :=
  {| sessions := fun _ _ _ => inl "unknown exchange";
     local_date := fun t => (t - 5 * 3600 * 1000000000) / (86400 * 1000000000) |}.

(** A calendar in which every day of the range is a session; New York is
    taken five hours behind UTC. *)
Definition every_day : Calendar :=
  {| sessions := fun _ start end_ => inr (seqZ start (end_ - start + 1));
     local_date := fun t => (t - 5 * 3600 * 1000000000) / (86400 * 1000000000) |}.

Definition store_of (df : list Row) : gmap nat (list Line) := {[ 0%nat := frame_of df ]}.

End Samples.


(** ** Notions for further properties of the client *)

Module Notions.
Import Py Alpaca.

(** The requests and the sleeps of a trace, in order. *)
Definition requests (tr : list Event) : list Request :=
  omap (fun ev => match ev with EvGet r => Some r | EvSleep _ => None end) tr.

Definition sleeps (tr : list Event) : list float :=
  omap (fun ev => match ev with EvSleep d => Some d | EvGet _ => None end) tr.

(** A sleep of finitely many seconds between [lo] and [hi]. *)
Definition within (lo hi : Q) (d : float) : Prop :=
  exists q, d = Finite q /\ (lo <= q)%Q /\ (q <= hi)%Q.

(** The seconds of a finite sleep, and the seconds slept in all. *)
Definition seconds (d : float) : Q :=
  match d with
  | Finite q => q
  | _ => 0%Q
  end.

Definition total_seconds (ds : list float) : Q := foldr (fun d acc => (seconds d + acc)%Q) 0%Q ds.

(** The parameters of a request without its page token. *)
Definition without_token (p : Params) : Params :=
  {| p_symbols := p_symbols p; p_timeframe := p_timeframe p;
     p_start := p_start p; p_end := p_end p; p_limit := p_limit p;
     p_adjustment := p_adjustment p; p_sort := p_sort p;
     p_feed := p_feed p; p_asof := p_asof p; p_page_token := None |}.

(** A string of [n] slashes. *)
Fixpoint slashes (n : nat) : string :=
  match n with
  | O => EmptyString
  | S n' => String "/"%char (slashes n')
  end.

(** The last character of a string. *)
Fixpoint last_char (s : string) : option ascii :=
  match s with
  | EmptyString => None
  | String c EmptyString => Some c
  | String _ s' => last_char s'
  end.

(** The first character of a string. *)
Definition first_char (s : string) : option ascii :=
  match s with
  | EmptyString => None
  | String c _ => Some c
  end.

(** The characters of a string. *)
Fixpoint chars (s : string) : list ascii :=
  match s with
  | EmptyString => []
  | String c s' => c :: chars s'
  end.

(** A lower-case ASCII letter. *)
Definition is_lower (c : ascii) : bool :=
  let n := nat_of_ascii c in ((97 <=? n)%nat && (n <=? 122)%nat)%bool.

End Notions.

(** ** Notions for the pages of a call *)

Module Pages.
Import Py Alpaca.

(** The currency of the first page that gives one, unless one was seen
    before. *)
Definition first_currency (seen : option string) (pages : list Payload) : option string :=
  match seen with
  | Some c => Some c
  | None => head (omap currency pages)
  end.

(** The page token a request carries. *)
Definition token_of (r : Request) : option string := p_page_token (params r).

(** The base parameters of a call, as [fetch_stock_bars] builds them. *)
Definition base_params (symbols : list string) (timeframe start end_ : string)
    (limit : Z) (adjustment : string) (feed asof : option string) (sort : string)
  : Params :=
  {| p_symbols := join "," ((fun s => strip (upper s))
                              <$> filter (fun s => strip s <> "") symbols);
     p_timeframe := timeframe; p_start := start; p_end := end_; p_limit := limit;
     p_adjustment := adjustment; p_sort := sort; p_feed := feed; p_asof := asof;
     p_page_token := None |}.

End Pages.


(** ** Further sample servers *)

Module Servers.
Import Py Alpaca Examples.

(** Every answer is 503 with a short body. *)
Definition unavailable : Env :=
  {| handler := fun _ _ =>
       {| status_code := 503; headers := ∅; text := "service unavailable";
          json := inl "not an object" |};
     now := fun _ => 1000%Q |}.

(** Every answer is 200 with a body that is not JSON. *)
Definition garbled : Env :=
  {| handler := fun _ _ =>
       {| status_code := 200; headers := ∅; text := "<html>";
          json := inl "Expecting value: line 1 column 1 (char 0)" |};
     now := fun _ => 1000%Q |}.

(** The two pages that [two_pages] serves. *)
Definition first_page : Payload :=
  {| bars := {[ "SPY" := [spy1] ]}; next_page_token := Some "tok1";
     currency := Some "USD" |}.

Definition last_page : Payload :=
  {| bars := {[ "SPY" := [spy2] ]}; next_page_token := None;
     currency := Some "USD" |}.

End Servers.


(** ** Notions for the checks of the validator *)

Module Checks.
Import Py Table Validate.

(** The key of an entry of the duplicates. *)
Definition dup_key (d : Duplicate) : string * Z := (dup_symbol d, dup_ts d).

(** The number of rows of a table that have the key [k]. *)
Definition rows_with (k : string * Z) (table : list Row) : nat :=
  length (filter (fun r => key r = k) table).

(** The prices of a row are in order: the low is not above the open and
    the close, the high is not below them. *)
Definition prices_in_order (r : Row) : Prop :=
  (low r <= open r)%Q /\ (open r <= high r)%Q
  /\ (low r <= close r)%Q /\ (close r <= high r)%Q.

(** A row that passes the checks of its own cells. *)
Definition sane (r : Row) : Prop := prices_in_order r /\ 0 <= volume r.

(** The same test of the prices as a boolean, for counting. *)
Definition out_of_order (r : Row) : bool :=
  negb (Qle_bool (low r) (open r) && Qle_bool (open r) (high r)
        && Qle_bool (low r) (close r) && Qle_bool (close r) (high r)).

(** The New York dates of the rows of a symbol. *)
Definition dates_of (cal : Calendar) (sym : string) (table : list Row) : list date :=
  (fun r => local_date cal (ts r)) <$> filter (fun r => symbol r = sym) table.

(** The sessions on which a symbol has no row, in ascending order. *)
Definition missing_dates (cal : Calendar) (sessions_in_range : list date)
    (sym : string) (table : list Row) : list date :=
  sort_by Z.leb
    (elements ((list_to_set sessions_in_range : gset date)
                 ∖ list_to_set (dates_of cal sym table))).

(** The number of missing dates of the symbols [symbols] together. *)
Definition missing_total (cal : Calendar) (sessions_in_range : list date)
    (symbols : list string) (table : list Row) : nat :=
  foldr (fun sym n => (length (missing_dates cal sessions_in_range sym table) + n)%nat)
    0%nat symbols.

End Checks.

(** * Properties *)

(** ** Comparison and clamping of seconds *)

Section Seconds.
Import Py Spec.

Lemma Qltb_lt (a b : Q) : Qltb a b = true <-> (a < b)%Q.
Proof.
  unfold Qltb. rewrite negb_true_iff, <- not_true_iff_false, Qle_bool_iff.
  split; [apply Qnot_le_lt | apply Qlt_not_le].
Qed.

Lemma Qltb_ge (a b : Q) : Qltb a b = false <-> (b <= a)%Q.
Proof.
  unfold Qltb. rewrite negb_false_iff. apply Qle_bool_iff.
Qed.

Lemma clamp_bounds (lo hi x : Q) : (lo <= hi)%Q -> (lo <= clamp lo hi x)%Q /\ (clamp lo hi x <= hi)%Q.
Proof.
  intros Hle. unfold clamp.
  destruct (Qltb lo x) eqn:E1; [destruct (Qltb hi x) eqn:E2|].
  - split; [done | apply Qle_refl].
  - apply Qltb_lt in E1. apply Qltb_ge in E2. split; [by apply Qlt_le_weak | done].
  - split; [apply Qle_refl | done].
Qed.

Lemma clamp_inside (lo hi x : Q) : (lo <= x)%Q -> (x <= hi)%Q -> (clamp lo hi x == x)%Q.
Proof.
  intros H1 H2. unfold clamp.
  destruct (Qltb lo x) eqn:E1; [destruct (Qltb hi x) eqn:E2|].
  - apply Qltb_lt in E2. by apply Qle_not_lt in H2.
  - reflexivity.
  - apply Qltb_ge in E1. by apply Qle_antisym.
Qed.

Lemma clamp_float_bounds (lo hi : Q) (x : float) :
  (lo <= hi)%Q -> (lo <= clamp_float lo hi x)%Q /\ (clamp_float lo hi x <= hi)%Q.
Proof.
  intros Hle. destruct x; simpl; auto using clamp_bounds, Qle_refl.
  all: split; auto using Qle_refl.
Qed.

Lemma min_max_clamp (lo hi : Q) (x : float) :
  (lo <= hi)%Q ->
  min (max (Finite lo) x) (Finite hi) = Finite (clamp_float lo hi x).
Proof.
  intros Hle. destruct x as [q| | |]; simpl; unfold min, max, clamp; simpl.
  - destruct (Qltb lo q) eqn:E1; simpl; [by destruct (Qltb hi q)|].
    destruct (Qltb hi lo) eqn:E2; [|done].
    apply Qltb_lt in E2. by apply Qle_not_lt in Hle.
  - done.
  - destruct (Qltb hi lo) eqn:E2; [|done].
    apply Qltb_lt in E2. by apply Qle_not_lt in Hle.
  - destruct (Qltb hi lo) eqn:E2; [|done].
    apply Qltb_lt in E2. by apply Qle_not_lt in Hle.
Qed.

Lemma max_min_clamp (lo hi x : Q) :
  (lo < hi)%Q ->
  max (Finite lo) (min (Finite x) (Finite hi)) = Finite (clamp lo hi x).
Proof.
  intros Hlt. unfold min, max, clamp; simpl.
  destruct (Qltb hi x) eqn:E1; simpl.
  - apply Qltb_lt in Hlt as E. rewrite E.
    apply Qltb_lt in E1.
    assert (Qltb lo x = true) as ->; [|done].
    apply Qltb_lt. by eapply Qlt_trans.
  - by destruct (Qltb lo x).
Qed.

End Seconds.

(** ** The retry delay *)

Section RetryDelay.
Import Py Alpaca Spec.
Context `{Builtins}.

Lemma backoff_table (attempt_index : nat) :
  backoff attempt_index = (Finite (backoff_seconds attempt_index), "backoff").
Proof.
  unfold backoff.
  do 4 (destruct attempt_index as [|attempt_index]; [reflexivity|]).
  reflexivity.
Qed.

Lemma backoff_seconds_bounds (attempt_index : nat) :
  (0 <= backoff_seconds attempt_index)%Q /\ (backoff_seconds attempt_index <= 5)%Q.
Proof.
  do 4 (destruct attempt_index as [|attempt_index]; [by compute|]).
  by compute.
Qed.


End RetryDelay.

Section RetryDelayExamples.
Import Py Alpaca Spec Decimal Examples.



End RetryDelayExamples.

(** ** One turn of the pagination loop *)

Section Turn.
Import Py Alpaca Spec.
Context `{Builtins}.

Lemma compute_sleep_world (env : Env) (response : Response) (i : nat) (w : World) :
  let w' := (_compute_sleep_seconds_for_429 env response i w).2 in
  trace w' = trace w /\ gets w' = gets w.
Proof.
  unfold _compute_sleep_seconds_for_429, sleep_from_reset, backoff, read_clock.
  repeat case_match; simplify_eq/=; done.
Qed.

Lemma proactive_gate_world (env : Env) (st : Loop) (w : World) :
  let delay := proactive_delay (last_remaining st) (last_reset st) (now env (clock_reads w)) in
  let w' := proactive_gate env st w in
  trace w' = trace w ++ (if Qltb 0 delay then [EvSleep (Finite delay)] else [])
  /\ gets w' = gets w.
Proof.
  unfold proactive_gate, proactive_delay.
  destruct (last_remaining st) as [rem|], (last_reset st) as [res|]; simpl;
    try (by rewrite app_nil_r).
  destruct (rem <=? 1); simpl; [|by rewrite app_nil_r].
  unfold MAX_PROACTIVE_SLEEP_SECONDS, SAFETY_BUFFER_SECONDS.
  rewrite (max_min_clamp 0 10) by by compute.
  simpl. destruct (Qltb 0 _); simpl; [done|by rewrite app_nil_r].
Qed.

(** The retry loop, started after the request number [n] was answered by
    [response]: it sleeps and asks again while the answer is 429, at most
    until five retries are used. *)
Lemma retry_while_run (env : Env) (request : Request) (fuel : nat) :
  forall (k n : nat) (w : World),
    gets w = S n ->
    (k + fuel = MAX_RETRIES_PER_REQUEST)%nat ->
    let run := retry_while fuel env request (handler env n request) k w in
    exists ds : list float,
      (k + length ds <= MAX_RETRIES_PER_REQUEST)%nat
      /\ run.1.2 = (k + length ds)%nat
      /\ run.1.1 = handler env (n + length ds) request
      /\ gets run.2 = S (n + length ds)
      /\ trace run.2 = trace w ++ flat_map (fun d => [EvSleep d; EvGet request]) ds
      /\ (forall i d, ds !! i = Some d ->
            status_code (handler env (n + i) request) = 429
            /\ exists wi,
                 d = (_compute_sleep_seconds_for_429 env (handler env (n + i) request)
                        (k + i) wi).1.1)
      /\ ((k + length ds < MAX_RETRIES_PER_REQUEST)%nat ->
          status_code (handler env (n + length ds) request) <> 429).
Proof.
  induction fuel as [|fuel IH]; intros k n w Hg Hk run; subst run.
  - exists []. simpl. rewrite !Nat.add_0_r, app_nil_r.
    assert ((k <? MAX_RETRIES_PER_REQUEST)%nat = false) as ->
      by (apply Nat.ltb_ge; lia).
    rewrite andb_false_r. simpl. repeat split; try done; try lia.
  - cbn [retry_while].
    destruct (status_code (handler env n request) =? 429) eqn:E429; simpl.
    2: { exists []. simpl. rewrite !Nat.add_0_r, app_nil_r.
         repeat split; try done; try lia. }
    assert ((k <? MAX_RETRIES_PER_REQUEST)%nat = true) as ->
      by (apply Nat.ltb_lt; lia).
    destruct (_compute_sleep_seconds_for_429 env (handler env n request) k w)
      as [[d strategy] w1] eqn:Ec.
    pose proof (compute_sleep_world env (handler env n request) k w) as [Ht1 Hg1].
    rewrite Ec in Ht1, Hg1. simpl in Ht1, Hg1.
    unfold http_get, sleep. cbn [gets trace clock_reads].
    rewrite Hg1, Hg.
    set (w3 := {| trace := _; gets := _; clock_reads := _ |}).
    destruct (IH (S k) (S n) w3) as (ds & Hle & Hk' & Hr & Hg' & Ht' & Hd & Hstop);
      [done | lia |].
    exists (d :: ds). cbn [length].
    replace (n + S (length ds))%nat with (S n + length ds)%nat by lia.
    replace (k + S (length ds))%nat with (S k + length ds)%nat by lia.
    repeat split; try done.
    + rewrite Ht'. subst w3. cbn [trace]. rewrite Ht1.
      rewrite <- !app_assoc. done.
    + destruct i as [|i].
      * rewrite Nat.add_0_r. by apply Z.eqb_eq.
      * replace (n + S i)%nat with (S n + i)%nat by lia. by eapply Hd.
    + destruct i as [|i].
      * simplify_eq/=. rewrite !Nat.add_0_r. exists w. by rewrite Ec.
      * replace (n + S i)%nat with (S n + i)%nat by lia.
        replace (k + S i)%nat with (S k + i)%nat by lia. by eapply Hd.
Qed.

Lemma send_run (env : Env) (request : Request) (st : Loop) (w : World) :
  let w0 := proactive_gate env st w in
  let run := send env request st w in
  exists ds : list float,
    (length ds <= MAX_RETRIES_PER_REQUEST)%nat
    /\ run.1.2 = length ds
    /\ run.1.1 = handler env (gets w + length ds) request
    /\ gets run.2 = S (gets w + length ds)
    /\ trace run.2
       = trace w0 ++ EvGet request :: flat_map (fun d => [EvSleep d; EvGet request]) ds
    /\ (forall i d, ds !! i = Some d ->
          status_code (handler env (gets w + i) request) = 429
          /\ exists wi,
               d = (_compute_sleep_seconds_for_429 env (handler env (gets w + i) request)
                      i wi).1.1)
    /\ ((length ds < MAX_RETRIES_PER_REQUEST)%nat ->
        status_code (handler env (gets w + length ds) request) <> 429).
Proof.
  intros w0 run. subst run. unfold send. fold w0.
  pose proof (proactive_gate_world env st w) as [_ Hg0]. fold w0 in Hg0.
  unfold http_get. rewrite Hg0.
  set (w1 := {| trace := _; gets := _; clock_reads := _ |}).
  destruct (retry_while_run env request MAX_RETRIES_PER_REQUEST 0 (gets w) w1)
    as (ds & Hle & Hk & Hr & Hg & Ht & Hd & Hstop); [done | done |].
  exists ds. simpl in Hle, Hk, Hstop.
  repeat split; try done.
  - rewrite Ht. subst w1. cbn [trace]. by rewrite <- app_assoc.
  - by eapply Hd.
  - by eapply (Hd i d).
Qed.

(** The cases of the proactive delay. *)
Lemma proactive_delay_cases (remaining reset : Z) (t : Q) :
  (remaining <= 1 ->
   proactive_delay (Some remaining) (Some reset) t
   = clamp 0 10 ((inject_Z reset - t) + (1 # 4))%Q)
  /\ (1 < remaining -> proactive_delay (Some remaining) (Some reset) t = 0%Q)
  /\ proactive_delay None (Some reset) t = 0%Q
  /\ proactive_delay (Some remaining) None t = 0%Q
  /\ proactive_delay None None t = 0%Q.
Proof.
  unfold proactive_delay. repeat split; try done.
  - intros Hle. by rewrite (proj2 (Z.leb_le remaining 1) Hle).
  - intros Hgt. by rewrite (proj2 (Z.leb_gt remaining 1) Hgt).
Qed.


Lemma pretty_max_retries : pretty MAX_RETRIES_PER_REQUEST = "5".
Proof. reflexivity. Qed.

(** C2. A page request whose answer is 429 is sent again, the same request,
    at most 5 more times; every retry comes after exactly one sleep, whose
    length is computed from the number of retries made so far (counted from
    0) and from the headers of the 429 answer just received; retries go on
    as long as the answer is 429 and fewer than 5 were made. When all six
    answers are 429 the call raises a provider error with status 429 whose
    message says that the retries are exhausted, after exactly 5 such
    sleeps. *)
Theorem C2_retry_on_429 (env : Env) (self : AlpacaClient) (base : Params)
    (st : Loop) (w : World) :
  let request := request_of self base st in
  let answer (i : nat) := handler env (gets w + i) request in
  let turn := page_turn env self base st w in
  exists ds : list float,
    (length ds <= 5)%nat
    /\ trace turn.2
       = trace (proactive_gate env st w)
           ++ EvGet request :: flat_map (fun d => [EvSleep d; EvGet request]) ds
    /\ (forall i d, ds !! i = Some d ->
          status_code (answer i) = 429
          /\ exists wi, d = (_compute_sleep_seconds_for_429 env (answer i) i wi).1.1)
    /\ ((length ds < 5)%nat -> status_code (answer (length ds)) <> 429)
    /\ ((forall i, (i <= 5)%nat -> status_code (answer i) = 429) ->
        length ds = 5%nat
        /\ turn.1 = inr (Raise (ProviderError
                              ("API rate limited (429) after 5 retries exhausted: "
                                 +:+ error_text (answer 5%nat))
                              (Some 429)))).
Proof.
  intros request answer turn. subst turn. unfold page_turn. fold request.
  destruct (send_run env request st w)
    as (ds & Hle & Hk & Hr & Hg & Ht & Hd & Hstop).
  destruct (send env request st w) as [[response k] w'].
  simpl in *. exists ds.
  split; [done|]. split; [done|]. split; [done|]. split; [done|].
  intros Hall.
  assert (length ds = 5%nat) as Hlen.
  { destruct (decide (length ds < 5)%nat) as [Hlt|]; [|unfold MAX_RETRIES_PER_REQUEST in *; lia].
    destruct (Hstop Hlt). apply Hall. lia. }
  split; [done|].
  rewrite Hlen in Hr. subst response. fold (answer 5%nat).
  unfold receive. rewrite (Hall 5%nat) by lia. simpl.
  by rewrite pretty_max_retries.
Qed.

Lemma parse_int_header_readable (hs : gmap string string) (name : string) :
  parse_int_header (hs !! name) = header_int hs name.
Proof. unfold parse_int_header, header_int. by destruct (hs !! name). Qed.

(** What [receive] does with a page. *)
Lemma receive_page (st : Loop) (response : Response) (data : Payload) :
  status_code response = 200 ->
  json response = inr data ->
  let st1 := update_rate_state st response in
  let merged := merge_page (merged_bars st) (bars data) in
  let cur := match currency_seen st with None => currency data | Some c => Some c end in
  receive st response
  = if token_exhausted (next_page_token data)
    then inr (Return {| r_bars := merged; r_currency := cur |})
    else inl {| merged_bars := merged; currency_seen := cur;
                page_token := next_page_token data;
                last_remaining := last_remaining st1; last_reset := last_reset st1 |}.
Proof.
  intros Hs Hj. unfold receive. rewrite Hs, Hj. simpl.
  unfold update_rate_state.
  destruct (_parse_rate_limit_headers response) as [[? ?] ?]. done.
Qed.

(** C5 (as amended). The rate state carried into the next turn is the one
    carried into this turn, overwritten by the headers of the answer that
    left the retry loop (the last answer of the turn): each of the two
    fields is replaced when its header is present and readable and kept
    otherwise. The 429 answers that a retry followed do not take part. *)
Theorem C5_rate_state_from_final_answer (env : Env) (self : AlpacaClient)
    (base : Params) (st st' : Loop) (w : World) :
  (page_turn env self base st w).1 = inl st' ->
  let final :=
    handler env (gets (page_turn env self base st w).2 - 1) (request_of self base st) in
  last (turn_answers env (request_of self base st) w (page_turn env self base st w).2)
    = Some final
  /\ last_remaining st'
     = match header_int (headers final) "x-ratelimit-remaining" with
       | Some remaining => Some remaining
       | None => last_remaining st
       end
  /\ last_reset st'
     = match header_int (headers final) "x-ratelimit-reset" with
       | Some reset => Some reset
       | None => last_reset st
       end.
Proof.
  unfold page_turn.
  destruct (send_run env (request_of self base st) st w)
    as (ds & _ & _ & Hr & Hg & _).
  destruct (send env (request_of self base st) st w) as [[response k] w'].
  simpl in *. intros Hrec.
  replace (gets w' - 1)%nat with (gets w + length ds)%nat by lia.
  rewrite <- Hr. split.
  { unfold turn_answers. rewrite Hg.
    replace (S (gets w + length ds) - gets w)%nat with (S (length ds)) by lia.
    rewrite seq_S, fmap_app. simpl. rewrite last_snoc. by rewrite Hr. }
  unfold receive in Hrec.
  rewrite <- !parse_int_header_readable.
  unfold update_rate_state, _parse_rate_limit_headers in Hrec.
  repeat case_match; simplify_eq/=; done.
Qed.

(** A request that is answered by something else than 429 is not sent
    again. *)
Lemma send_not_throttled (env : Env) (request : Request) (st : Loop) (w : World) :
  status_code (handler env (gets w) request) <> 429 ->
  (send env request st w).1.1 = handler env (gets w) request
  /\ gets (send env request st w).2 = S (gets w).
Proof.
  intros Hne.
  destruct (send_run env request st w) as (ds & _ & _ & Hr & Hg & _ & Hd & _).
  destruct ds as [|d ds].
  - simpl in *. by rewrite Nat.add_0_r in Hr, Hg.
  - destruct (Hd 0%nat d eq_refl) as [H429 _]. rewrite Nat.add_0_r in H429. done.
Qed.

Lemma send_ends_with_request (env : Env) (request : Request) (st : Loop) (w : World) :
  last (trace (send env request st w).2) = Some (EvGet request).
Proof.
  destruct (send_run env request st w) as (ds & _ & _ & _ & _ & Ht & _).
  rewrite Ht. clear Ht. generalize (trace (proactive_gate env st w)).
  induction ds as [|d ds IH]; intros pre.
  - simpl. by rewrite last_snoc.
  - specialize (IH (pre ++ [EvGet request; EvSleep d])).
    rewrite <- app_assoc in IH. done.
Qed.

(** C6 (as amended). When the page that ends a turn carries no next-page
    token, or the empty string as token, pagination ends there, with the
    same result in both cases and without a further request: the last thing
    the client did is the request that this page answered. When the page
    carries a token that is not empty, the loop goes round again with that
    token attached to the next request. *)
Theorem C6_token_ends_pagination (env : Env) (self : AlpacaClient) (base : Params)
    (st : Loop) (w : World) (data : Payload) (fuel : nat) :
  let request := request_of self base st in
  let sent := send env request st w in
  status_code sent.1.1 = 200 ->
  json sent.1.1 = inr data ->
  let result :=
    {| r_bars := merge_page (merged_bars st) (bars data);
       r_currency := match currency_seen st with
                     | None => currency data
                     | Some c => Some c
                     end |} in
  last (trace sent.2) = Some (EvGet request)
  /\ (next_page_token data = None \/ next_page_token data = Some "" ->
      pagination (S fuel) env self base st w = Some (Return result, sent.2))
  /\ (forall tok, next_page_token data = Some tok -> tok <> "" ->
      exists st',
        page_token st' = Some tok
        /\ p_page_token (params (request_of self base st')) = Some tok
        /\ merged_bars st' = r_bars result
        /\ pagination (S fuel) env self base st w = pagination fuel env self base st' sent.2).
Proof.
  intros request sent Hs Hj result.
  split; [apply send_ends_with_request|].
  cbn [pagination]. unfold page_turn. fold request. fold sent.
  destruct sent as [[response k] w'] eqn:Hsent. simpl in Hs, Hj. simpl.
  rewrite (receive_page st response data Hs Hj). split.
  - intros [Htok|Htok]; rewrite Htok; done.
  - intros tok Htok Hne. rewrite Htok. simpl.
    rewrite bool_decide_eq_false_2 by done.
    eexists. split; [|split; [|split]]; [| | |reflexivity]; done.
Qed.

End Turn.

(** ** Merging the pages *)

Section Merge.
Import Py Alpaca Spec.
Context `{Builtins}.

Lemma merge_page_lookup (merged page_bars : gmap string (list Bar)) (symbol : string) :
  merge_page merged page_bars !! symbol
  = match page_bars !! symbol with
    | Some bar_list => Some (default [] (merged !! symbol) ++ bar_list)
    | None => merged !! symbol
    end.
Proof.
  unfold merge_page.
  apply (map_fold_weak_ind
           (fun acc (m : gmap string (list Bar)) =>
              acc !! symbol
              = match m !! symbol with
                | Some bar_list => Some (default [] (merged !! symbol) ++ bar_list)
                | None => merged !! symbol
                end)).
  - by rewrite lookup_empty.
  - intros s bl m acc Hs IH.
    destruct (decide (s = symbol)) as [->|Hne].
    + rewrite !lookup_insert_eq. rewrite IH, Hs. done.
    + rewrite !lookup_insert_ne by done. done.
Qed.

Lemma merge_pages_lookup (pages : list Payload) (merged : gmap string (list Bar))
    (symbol : string) :
  default [] (foldl merge_page merged (bars <$> pages) !! symbol)
  = default [] (merged !! symbol) ++ concat (bars_of symbol <$> pages).
Proof.
  revert merged. induction pages as [|p pages IH]; intros merged; simpl.
  - by rewrite app_nil_r.
  - rewrite IH, merge_page_lookup. unfold bars_of at 2.
    destruct (bars p !! symbol); simpl; [by rewrite app_assoc | done].
Qed.

Lemma merge_pages_is_Some (pages : list Payload) (merged : gmap string (list Bar))
    (symbol : string) :
  is_Some (foldl merge_page merged (bars <$> pages) !! symbol)
  <-> is_Some (merged !! symbol)
      \/ exists p, p ∈ pages /\ is_Some (bars p !! symbol).
Proof.
  revert merged. induction pages as [|p pages IH]; intros merged; simpl.
  - split; [auto|]. intros [?|(p & Hp & _)]; [done|]. by apply elem_of_nil in Hp.
  - rewrite IH, merge_page_lookup. split.
    + intros [Hm|(q & Hq & Hs)].
      * destruct (bars p !! symbol) eqn:E; [|by left].
        right. exists p. split; [left|by rewrite E].
      * right. exists q. split; [by right|done].
    + intros [Hm|(q & Hq & Hs)].
      * left. destruct (bars p !! symbol); [done|done].
      * apply elem_of_cons in Hq as [->|Hq].
        -- left. destruct Hs as [bl ->]. done.
        -- right. eauto.
Qed.

(** The loop over a run of pages that are all served at the first
    attempt. *)
Lemma pagination_pages (env : Env) (self : AlpacaClient) (base : Params)
    (pages : list Payload) (final : Payload) :
  Forall (fun p => token_exhausted (next_page_token p) = false) pages ->
  token_exhausted (next_page_token final) = true ->
  forall (fuel : nat) (st : Loop) (w : World),
    (length pages < fuel)%nat ->
    (forall i p request, (pages ++ [final]) !! i = Some p ->
       status_code (handler env (gets w + i) request) = 200
       /\ json (handler env (gets w + i) request) = inr p) ->
    exists cur w',
      pagination fuel env self base st w
      = Some (Return {| r_bars := foldl merge_page (merged_bars st)
                                    (bars <$> pages ++ [final]);
                        r_currency := cur |}, w')
      /\ gets w' = (gets w + length pages + 1)%nat.
Proof.
  intros Hpages Hfinal. induction Hpages as [|p pages Hp Hpages IH];
    intros fuel st w Hfuel Hserve.
  - destruct fuel as [|fuel]; [simpl in Hfuel; lia|].
    destruct (Hserve 0%nat final (request_of self base st) eq_refl) as [Hs Hj].
    rewrite Nat.add_0_r in Hs, Hj.
    destruct (send_not_throttled env (request_of self base st) st w) as [Hr Hg];
      [by rewrite Hs|].
    cbn [pagination]. unfold page_turn.
    destruct (send env (request_of self base st) st w) as [[response k] w'].
    simpl in Hr, Hg. subst response.
    rewrite (receive_page st _ final Hs Hj), Hfinal.
    eexists _, w'. split; [reflexivity|]. simpl. lia.
  - destruct fuel as [|fuel]; [simpl in Hfuel; lia|].
    destruct (Hserve 0%nat p (request_of self base st) eq_refl) as [Hs Hj].
    rewrite Nat.add_0_r in Hs, Hj.
    destruct (send_not_throttled env (request_of self base st) st w) as [Hr Hg];
      [by rewrite Hs|].
    cbn [pagination]. unfold page_turn.
    destruct (send env (request_of self base st) st w) as [[response k] w'].
    simpl in Hr, Hg. subst response.
    rewrite (receive_page st _ p Hs Hj), Hp.
    set (st' := {| merged_bars := _ |}).
    destruct (IH fuel st' w') as (cur & w'' & Hrun & Hg'').
    + simpl in Hfuel. lia.
    + intros i q request Hq. rewrite Hg.
      replace (S (gets w) + i)%nat with (gets w + S i)%nat by lia.
      by apply Hserve.
    + exists cur, w''. split; [by rewrite Hrun|]. rewrite Hg'', Hg. simpl. lia.
Qed.

(** C8. For a list of symbols that is not empty once blanks are dropped,
    and a run of pages that are all served, the merged result holds for
    every symbol the bar lists of the pages joined in the order of the
    pages: its length is the sum of the lengths of the symbol's lists over
    the pages, and the symbol has an entry exactly when some page names
    it. *)
Theorem C8_pages_concatenated_per_symbol (env : Env) (self : AlpacaClient)
    (symbols : list string) (timeframe start end_ : string) (limit : Z)
    (adjustment : string) (feed asof : option string) (sort : string)
    (pages : list Payload) (final : Payload) (fuel : nat) :
  1 <= limit <= 10000 ->
  (exists s, s ∈ symbols /\ strip s <> "") ->
  (forall i p request, (pages ++ [final]) !! i = Some p ->
     status_code (handler env i request) = 200
     /\ json (handler env i request) = inr p) ->
  Forall (fun p => exists tok, next_page_token p = Some tok /\ tok <> "") pages ->
  next_page_token final = None \/ next_page_token final = Some "" ->
  (length pages < fuel)%nat ->
  exists result w',
    fetch_stock_bars fuel env self symbols timeframe start end_ limit adjustment
      feed asof sort world0
    = Some (Return result, w')
    /\ gets w' = S (length pages)
    /\ forall symbol,
         let per_page := bars_of symbol <$> (pages ++ [final]) in
         default [] (r_bars result !! symbol) = concat per_page
         /\ length (default [] (r_bars result !! symbol)) = sum_list (length <$> per_page)
         /\ (is_Some (r_bars result !! symbol)
             <-> exists p, p ∈ pages ++ [final] /\ is_Some (bars p !! symbol)).
Proof.
  intros Hlimit (s & Hs & Hstrip) Hserve Hpages Hfinal Hfuel.
  unfold fetch_stock_bars.
  assert ((limit <? 1) || (10000 <? limit) = false) as ->.
  { apply orb_false_iff. split; apply Z.ltb_ge; lia. }
  destruct ((fun s0 => strip (upper s0)) <$> filter (fun s0 => strip s0 <> "") symbols)
    as [|s1 rest] eqn:Hnorm.
  { apply fmap_nil_inv in Hnorm.
    assert (s ∈ filter (fun s0 => strip s0 <> "") symbols) as Hin
      by by apply list_elem_of_filter.
    rewrite Hnorm in Hin. by apply elem_of_nil in Hin. }
  set (base := {| p_symbols := _ |}).
  destruct (pagination_pages env self base pages final) with (fuel := fuel)
    (st := loop0) (w := world0) as (cur & w' & Hrun & Hg); try done.
  { eapply Forall_impl; [exact Hpages|]. intros p (tok & -> & Hne). simpl.
    by apply bool_decide_eq_false_2. }
  { by destruct Hfinal as [->| ->]. }
  eexists _, w'. split; [exact Hrun|]. split; [simpl in Hg; lia|].
  intros symbol. simpl.
  pose proof (merge_pages_lookup (pages ++ [final]) ∅ symbol) as Hl.
  rewrite lookup_empty in Hl. simpl in Hl.
  split; [exact Hl|]. split.
  - rewrite Hl. generalize (bars_of symbol <$> pages ++ [final]).
    intros l. induction l as [|x l IHl]; simpl; [done|].
    rewrite length_app. by rewrite IHl.
  - rewrite merge_pages_is_Some, lookup_empty. split.
    + intros [[? ?]|?]; done.
    + auto.
Qed.

End Merge.

(** ** The client on sample servers *)

Section ClientExamples.
Import Py Alpaca Spec Decimal Examples.

Lemma C2_retry_on_429_witness :
  (forall i, (i <= 5)%nat ->
     status_code (handler always_throttled (gets world0 + i) (request_of client base loop0))
     = 429)
  /\ (page_turn always_throttled client base loop0 world0).1
     = inr (Raise (ProviderError
                     "API rate limited (429) after 5 retries exhausted: rate limited"
                     (Some 429))).
Proof.
  assert (forall i, (i <= 5)%nat ->
            status_code (handler always_throttled (gets world0 + i)
                           (request_of client base loop0)) = 429) as Hall
    by (intros; reflexivity).
  split; [exact Hall|].
  destruct (C2_retry_on_429 always_throttled client base loop0 world0)
    as (ds & _ & _ & _ & _ & Hex).
  exact (proj2 (Hex Hall)).
Defined.

(** The run of the test of exhausted retries: six requests, five sleeps of
    zero seconds between them. *)
Example exhausted_retries_trace :
  let request := request_of client base loop0 in
  trace (page_turn always_throttled client base loop0 world0).2
  = [EvGet request; EvSleep (Finite 0); EvGet request; EvSleep (Finite 0);
     EvGet request; EvSleep (Finite 0); EvGet request; EvSleep (Finite 0);
     EvGet request; EvSleep (Finite 0); EvGet request].
Proof. vm_compute. reflexivity. Qed.

(** The same at the level of the call: it ends in the provider error, after
    six requests. *)
Example exhausted_retries_call :
  exists w',
    fetch_stock_bars 1 always_throttled client ["SPY"] "1Day" "2024-01-01"
      "2024-01-03" 10000 "raw" None None "asc" world0
    = Some (Raise (ProviderError
                     "API rate limited (429) after 5 retries exhausted: rate limited"
                     (Some 429)), w')
    /\ gets w' = 6%nat.
Proof. eexists. split; [vm_compute; reflexivity | reflexivity]. Qed.

(** The run of the test of the proactive wait: the first page reports no
    quota left and a reset one second ahead, and the second request comes
    after a sleep of 1.25 seconds. *)
Example proactive_wait_before_second_page :
  exists result w',
    fetch_stock_bars 2 (two_pages exhausted_quota) client ["SPY"] "1Day" "2024-01-01"
      "2024-01-03" 10000 "raw" None None "asc" world0
    = Some (Return result, w')
    /\ exists r0 r1, trace w' = [EvGet r0; EvSleep (Finite (5 # 4)); EvGet r1].
Proof.
  eexists _, _. split; [vm_compute; reflexivity|].
  eexists _, _. reflexivity.
Qed.

(** Without rate-limit headers nothing is slept. *)
Example no_wait_without_headers :
  exists result w',
    fetch_stock_bars 2 (two_pages ∅) client ["SPY"] "1Day" "2024-01-01"
      "2024-01-03" 10000 "raw" None None "asc" world0
    = Some (Return result, w')
    /\ exists r0 r1, trace w' = [EvGet r0; EvGet r1].
Proof.
  eexists _, _. split; [vm_compute; reflexivity|].
  eexists _, _. reflexivity.
Qed.

Lemma C5_rate_state_from_final_answer_witness :
  exists st',
    (page_turn (two_pages exhausted_quota) client base loop0 world0).1 = inl st'
    /\ last_remaining st' = Some 0
    /\ last_reset st' = Some 1001.
Proof.
  eexists. split; [vm_compute; reflexivity|].
  split.
  - refine (eq_trans
              (proj1 (proj2 (C5_rate_state_from_final_answer
                               (two_pages exhausted_quota) client base loop0 _ world0 _)))
              _);
      vm_compute; reflexivity.
  - refine (eq_trans
              (proj2 (proj2 (C5_rate_state_from_final_answer
                               (two_pages exhausted_quota) client base loop0 _ world0 _)))
              _);
      vm_compute; reflexivity.
Defined.

(** C5 as stated has every answer overwrite the carried rate state. Here a 429
    reports no quota left and a reset at 1001, and the retry is answered by
    a page without rate-limit headers: the state carried into the next turn
    is still empty, where C5 as stated has it hold the values of the 429. *)
Lemma C5_counterexample :
  let env := throttled_then_pages in
  let request := request_of client base loop0 in
  let turn := page_turn env client base loop0 world0 in
  let claimed := rate_after_every_answer loop0 (turn_answers env request world0 turn.2) in
  length (turn_answers env request world0 turn.2) = 2%nat
  /\ (last_remaining claimed, last_reset claimed) = (Some 0, Some 1001)
  /\ exists st',
       turn.1 = inl st'
       /\ (last_remaining st', last_reset st') = (None, None)
       /\ (last_remaining st', last_reset st') <> (last_remaining claimed, last_reset claimed).
Proof.
  split; [vm_compute; reflexivity|].
  split; [vm_compute; reflexivity|].
  eexists. split; [vm_compute; reflexivity|].
  split; [vm_compute; reflexivity|].
  vm_compute. discriminate.
Qed.

Lemma C6_token_ends_pagination_witness :
  let data := {| bars := {[ "SPY" := [spy1] ]}; next_page_token := Some "";
                 currency := None |} in
  pagination 1 empty_token client base loop0 world0
  = Some (Return {| r_bars := merge_page ∅ (bars data); r_currency := None |},
          (send empty_token (request_of client base loop0) loop0 world0).2)
  /\ exists st',
       page_token st' = Some "tok1"
       /\ pagination 2 (two_pages ∅) client base loop0 world0
          = pagination 1 (two_pages ∅) client base st'
              (send (two_pages ∅) (request_of client base loop0) loop0 world0).2.
Proof.
  intros data. split.
  - apply (proj1 (proj2 (C6_token_ends_pagination empty_token client base loop0 world0
                           data 0 eq_refl eq_refl))).
    by right.
  - destruct (proj2 (proj2 (C6_token_ends_pagination (two_pages ∅) client base loop0
                              world0
                              {| bars := {[ "SPY" := [spy1] ]};
                                 next_page_token := Some "tok1";
                                 currency := Some "USD" |}
                              1 eq_refl eq_refl)) "tok1" eq_refl)
      as (st' & Htok & _ & _ & Hrun); [discriminate|].
    exists st'. split; [exact Htok | exact Hrun].
Defined.

(** C6 as stated has pagination end one request after the answer that carried
    the empty token. Here the first answer carries it, and the first request
    is the only one. *)
Lemma C6_counterexample :
  exists data result w',
    json (handler empty_token 0 (request_of client base loop0)) = inr data
    /\ next_page_token data = Some ""
    /\ fetch_stock_bars 3 empty_token client ["SPY"] "1Day" "2024-01-01" "2024-01-03"
         10000 "raw" None None "asc" world0
       = Some (Return result, w')
    /\ gets w' = 1%nat
    /\ gets w' <> (1 + 1)%nat.
Proof.
  eexists _, _, _. split; [reflexivity|]. split; [reflexivity|].
  split; [vm_compute; reflexivity|]. split; [reflexivity|]. discriminate.
Qed.

Lemma C8_pages_concatenated_per_symbol_witness :
  exists result w',
    fetch_stock_bars 2 (two_pages ∅) client [" spy "; ""] "1Day" "2024-01-01"
      "2024-01-03" 10000 "raw" None None "asc" world0
    = Some (Return result, w')
    /\ default [] (r_bars result !! "SPY") = [spy1; spy2]
    /\ length (default [] (r_bars result !! "SPY")) = 2%nat.
Proof.
  destruct (C8_pages_concatenated_per_symbol (two_pages ∅) client [" spy "; ""]
              "1Day" "2024-01-01" "2024-01-03" 10000 "raw" None None "asc"
              [ {| bars := {[ "SPY" := [spy1] ]}; next_page_token := Some "tok1";
                   currency := Some "USD" |} ]
              {| bars := {[ "SPY" := [spy2] ]}; next_page_token := None;
                 currency := Some "USD" |}
              2)
    as (result & w' & Hrun & _ & Hsym).
  - lia.
  - exists " spy ". split; [left | vm_compute; discriminate].
  - intros [|[|i]] p request Hp; simplify_eq/=; done.
  - constructor; [|constructor]. exists "tok1". split; [done | discriminate].
  - by left.
  - simpl. lia.
  - exists result, w'. split; [exact Hrun|].
    destruct (Hsym "SPY") as (Hcat & Hlen & _). split; [exact Hcat | exact Hlen].
Defined.

End ClientExamples.

(** ** The stable sort and [unique] *)

Section SortBy.
Import Py.
Context {A : Type} (le : A -> A -> bool).

Lemma insert_by_Permutation (x : A) (l : list A) : insert_by le x l ≡ₚ x :: l.
Proof.
  induction l as [|y l IH]; simpl; [done|].
  destruct (le x y); [done|]. rewrite IH. apply Permutation_swap.
Qed.

Lemma sort_by_Permutation (l : list A) : sort_by le l ≡ₚ l.
Proof.
  induction l as [|x l IH]; simpl; [done|].
  by rewrite insert_by_Permutation, IH.
Qed.

Lemma insert_by_least (x : A) (l : list A) :
  Forall (fun y => le x y = true) l -> insert_by le x l = x :: l.
Proof. destruct 1 as [|y l Hy _]; simpl; [done|]. by rewrite Hy. Qed.

Hypothesis le_trans : forall a b c, le a b = true -> le b c = true -> le a c = true.
Hypothesis le_total : forall a b, le a b = true \/ le b a = true.

Lemma insert_by_sorted (x : A) (l : list A) :
  StronglySorted (fun a b => le a b = true) l ->
  StronglySorted (fun a b => le a b = true) (insert_by le x l).
Proof.
  induction 1 as [|y l Hl IH Hy]; simpl; [repeat constructor|].
  destruct (le x y) eqn:E.
  - constructor; [by constructor|].
    constructor; [done|]. eapply Forall_impl; [exact Hy|]. eauto.
  - constructor; [done|].
    rewrite insert_by_Permutation. constructor; [|done].
    destruct (le_total x y); congruence.
Qed.

Lemma sort_by_sorted (l : list A) :
  StronglySorted (fun a b => le a b = true) (sort_by le l).
Proof.
  induction l as [|x l IH]; simpl; [constructor|]. by apply insert_by_sorted.
Qed.

Lemma filter_insert_by (P : A -> Prop) `{!forall a, Decision (P a)} (x : A) (l : list A) :
  StronglySorted (fun a b => le a b = true) l ->
  filter P (insert_by le x l)
  = if decide (P x) then insert_by le x (filter P l) else filter P l.
Proof.
  induction 1 as [|y l Hl IH Hy]; simpl.
  - rewrite filter_cons, filter_nil. by destruct (decide (P x)).
  - destruct (le x y) eqn:E.
    + rewrite filter_cons. destruct (decide (P x)) as [Hx|Hx]; [|done].
      rewrite (filter_cons _ y). destruct (decide (P y)); simpl; [by rewrite E|].
      rewrite insert_by_least; [done|].
      apply Forall_forall. intros z Hz. apply list_elem_of_filter in Hz as [_ Hz].
      rewrite Forall_forall in Hy. eauto.
    + rewrite !(filter_cons _ y), IH.
      destruct (decide (P y)), (decide (P x)); simpl; try done. by rewrite E.
Qed.

Lemma filter_sort_by (P : A -> Prop) `{!forall a, Decision (P a)} (l : list A) :
  filter P (sort_by le l) = sort_by le (filter P l).
Proof.
  induction l as [|x l IH]; simpl; [done|].
  rewrite filter_insert_by by apply sort_by_sorted.
  rewrite filter_cons. destruct (decide (P x)); simpl; by rewrite IH.
Qed.

End SortBy.

Lemma insert_by_fmap {A B : Type} (f : A -> B) (le : B -> B -> bool) (x : A)
    (l : list A) :
  f <$> Py.insert_by (fun a b => le (f a) (f b)) x l = Py.insert_by le (f x) (f <$> l).
Proof.
  induction l as [|y l IH]; [done|].
  rewrite fmap_cons. cbn [Py.insert_by].
  destruct (le (f x) (f y)); [done|]. by rewrite fmap_cons, IH.
Qed.

Lemma sort_by_fmap {A B : Type} (f : A -> B) (le : B -> B -> bool) (l : list A) :
  f <$> Py.sort_by (fun a b => le (f a) (f b)) l = Py.sort_by le (f <$> l).
Proof.
  induction l as [|x l IH]; [done|].
  rewrite fmap_cons. cbn [Py.sort_by]. by rewrite insert_by_fmap, IH.
Qed.

Section Unique.
Import Py.
Context `{EqDecision A}.

Lemma unique_from_spec (l seen : list A) :
  NoDup (unique_from seen l)
  /\ forall x, x ∈ unique_from seen l <-> x ∈ l /\ x ∉ seen.
Proof.
  revert seen. induction l as [|y l IH]; intros seen; simpl.
  - split; [constructor|]. intros x. rewrite elem_of_nil. tauto.
  - destruct (decide (y ∈ seen)) as [Hy|Hy].
    + destruct (IH seen) as [Hnd Hin]. split; [done|].
      intros x. rewrite Hin, elem_of_cons. split; [tauto|].
      intros [[->|?] ?]; tauto.
    + destruct (IH (y :: seen)) as [Hnd Hin]. split.
      * constructor; [|done]. rewrite Hin, elem_of_cons. tauto.
      * intros x. rewrite !elem_of_cons, Hin, elem_of_cons.
        destruct (decide (x = y)) as [->|]; tauto.
Qed.

Lemma NoDup_unique (l : list A) : NoDup (unique l).
Proof. apply unique_from_spec. Qed.

Lemma elem_of_unique (l : list A) (x : A) : x ∈ unique l <-> x ∈ l.
Proof.
  unfold unique. rewrite (proj2 (unique_from_spec l [])), elem_of_nil. tauto.
Qed.

End Unique.

(** The entries of one key among the results of a loop over distinct
    keys. *)
Lemma filter_omap_key {K B : Type} `{EqDecision K} (f : K -> option B) (g : B -> K)
    (keys : list K) (k : K) :
  NoDup keys ->
  (forall k' b, f k' = Some b -> g b = k') ->
  filter (fun b => g b = k) (omap f keys)
  = if decide (k ∈ keys) then option_list (f k) else [].
Proof.
  intros Hnd Hg. induction Hnd as [|k0 keys Hk0 Hnd IH].
  - destruct (decide (k ∈ [])) as [H0|]; [by apply elem_of_nil in H0 | done].
  - cbn [omap list_omap].
    destruct (f k0) as [b|] eqn:Ef.
    + rewrite filter_cons, IH. apply Hg in Ef as Hb.
      destruct (decide (g b = k)) as [Hbk|Hbk],
        (decide (k ∈ keys)) as [Hin|Hin],
        (decide (k ∈ k0 :: keys)) as [Hc|Hc];
        rewrite ?elem_of_cons in Hc; simplify_eq; try done; try tauto.
      all: try by rewrite Ef.
      destruct Hc as [->|]; done.
    + rewrite IH.
      destruct (decide (k ∈ keys)) as [Hin|Hin],
        (decide (k ∈ k0 :: keys)) as [Hc|Hc];
        rewrite ?elem_of_cons in Hc; try done; try tauto.
      destruct Hc as [->|]; [|done]. by rewrite Ef.
Qed.

(** ** The validator and the store *)

Section Store.
Import Py Table Validate.

Lemma preserved_refl (h : gmap nat (list Line)) : preserved h h.
Proof. by intros l f. Qed.

Lemma preserved_trans (h1 h2 h3 : gmap nat (list Line)) :
  preserved h1 h2 -> preserved h2 h3 -> preserved h1 h3.
Proof. intros H12 H23 l f Hl. by apply H23, H12. Qed.

Lemma alloc_fresh (f : list Line) (h : gmap nat (list Line)) :
  h !! (alloc f h).1 = None /\ (alloc f h).2 = <[(alloc f h).1 := f]> h.
Proof.
  unfold alloc. simpl. split; [|done].
  apply not_elem_of_dom. apply is_fresh.
Qed.

Lemma alloc_preserved (f : list Line) (h : gmap nat (list Line)) :
  preserved h (alloc f h).2.
Proof.
  destruct (alloc_fresh f h) as [Hnew ->]. intros l g Hl.
  rewrite lookup_insert_ne; [done|]. intros <-. congruence.
Qed.

Lemma alloc_deref (f : list Line) (h : gmap nat (list Line)) :
  deref (alloc f h).2 (alloc f h).1 = f.
Proof.
  destruct (alloc_fresh f h) as [_ ->]. unfold deref. by rewrite lookup_insert_eq.
Qed.

(** Writing the column into a frame that was allocated after [h0] leaves
    the frames of [h0] alone. *)
Lemma set_bar_date_preserved (cal : Calendar) (frame : nat)
    (h0 h : gmap nat (list Line)) :
  h0 !! frame = None -> preserved h0 h -> preserved h0 (set_bar_date cal frame h).
Proof.
  intros Hnew Hp l f Hl. unfold set_bar_date.
  rewrite lookup_insert_ne; [by apply Hp|]. intros <-. congruence.
Qed.

Lemma missing_of_symbol_preserved (cal : Calendar) (expected : gset date)
    (df : nat) (sym : string) (m : gmap string (list date))
    (h : gmap nat (list Line)) :
  preserved h (missing_of_symbol cal expected df sym (m, h)).2.
Proof.
  unfold missing_of_symbol, select_symbol, copy.
  set (a1 := alloc (filter _ _) h).
  destruct a1 as [symbol_df h1] eqn:E1.
  set (a2 := alloc (deref h1 symbol_df) h1).
  destruct a2 as [symbol_df_ny h2] eqn:E2.
  pose proof (alloc_preserved (filter (fun p => symbol (row p) = sym) (deref h df)) h) as P1.
  fold a1 in P1. rewrite E1 in P1. simpl in P1.
  pose proof (alloc_preserved (deref h1 symbol_df) h1) as P2.
  pose proof (alloc_fresh (deref h1 symbol_df) h1) as [N2 _].
  fold a2 in P2, N2. rewrite E2 in P2, N2. simpl in P2, N2.
  assert (preserved h (set_bar_date cal symbol_df_ny h2)) as P3.
  { apply set_bar_date_preserved; [|by eapply preserved_trans].
    destruct (h !! symbol_df_ny) eqn:E; [|done].
    apply P1 in E. congruence. }
  by case_match.
Qed.

Lemma missing_loop_preserved (cal : Calendar) (expected : gset date) (df : nat)
    (symbols : list string) :
  forall (m : gmap string (list date)) (h : gmap nat (list Line)),
    preserved h
      (foldl (fun acc sym => missing_of_symbol cal expected df sym acc) (m, h) symbols).2.
Proof.
  induction symbols as [|sym symbols IH]; intros m h; cbn [foldl].
  - apply preserved_refl.
  - destruct (missing_of_symbol cal expected df sym (m, h)) as [m1 h1] eqn:E.
    eapply preserved_trans; [|apply IH].
    pose proof (missing_of_symbol_preserved cal expected df sym m h) as P.
    by rewrite E in P.
Qed.

(** C10. [validate_daily_bars] and [validate_weekly_bars] leave the table
    they are given as it was: the frame at the location of the input holds
    the same lines (rows, values and order) after the call, and so does
    every other frame that existed before. The daily check writes its date
    column into a copy. *)
Theorem C10_validators_leave_table_unchanged (cal : Calendar) (df : nat)
    (start end_ : date) (h : gmap nat (list Line)) (table : list Line) :
  h !! df = Some table ->
  (validate_daily_bars cal df start end_ h).2 !! df = Some table
  /\ (validate_weekly_bars df start end_ h).2 !! df = Some table
  /\ preserved h (validate_daily_bars cal df start end_ h).2
  /\ (validate_weekly_bars df start end_ h).2 = h.
Proof.
  intros Hdf.
  assert (preserved h (validate_daily_bars cal df start end_ h).2) as P.
  { unfold validate_daily_bars.
    destruct (_validate_bars_issues (deref h df) start end_) as [report ok].
    destruct (deref h df) as [|line lines] eqn:Ed; [apply preserved_refl|].
    destruct (sessions cal "XNYS" start end_) as [e|sessions_in_range];
      [apply preserved_refl|].
    pose proof (missing_loop_preserved cal (list_to_set sessions_in_range) df
                  (unique ((fun p => symbol (row p)) <$> line :: lines)) ∅ h) as P.
    destruct (foldl _ _ _) as [m h']. exact P. }
  assert ((validate_weekly_bars df start end_ h).2 = h) as W.
  { unfold validate_weekly_bars. by destruct (_validate_bars_issues _ _ _). }
  split; [by apply P|]. split; [by rewrite W|]. done.
Qed.

(** C9. On a table that is not empty, when the calendar fails the daily
    validation still returns: the report carries the reason of the failure
    under "error" and a total of zero missing days, and nothing else about
    missing days; the summary, the issues and the [ok] flag are those of
    the structural checks, the same as with any other calendar; the store
    is untouched. *)
Theorem C9_calendar_failure_is_recorded (cal : Calendar) (df : nat)
    (start end_ : date) (h : gmap nat (list Line)) (e : string) :
  deref h df <> [] ->
  sessions cal "XNYS" start end_ = inl e ->
  let checks := _validate_bars_issues (deref h df) start end_ in
  let result := validate_daily_bars cal df start end_ h in
  result.1.1 = checks.2
  /\ summary result.1.2 = summary checks.1
  /\ issues result.1.2 = issues checks.1
  /\ missing_days result.1.2
     = Some (<["totals" := Totals 0]> (<["error" := Error e]> ∅))
  /\ (exists m, missing_days result.1.2 = Some m
               /\ m !! "error" = Some (Error e)
               /\ m !! "totals" = Some (Totals 0)
               /\ forall k, k <> "error" -> k <> "totals" -> m !! k = None)
  /\ result.2 = h
  /\ forall cal',
       (validate_daily_bars cal' df start end_ h).1.1 = checks.2
       /\ issues (validate_daily_bars cal' df start end_ h).1.2 = issues checks.1.
Proof.
  intros Hne Hfail checks result. subst checks result.
  assert (forall cal',
            (validate_daily_bars cal' df start end_ h).1.1
            = (_validate_bars_issues (deref h df) start end_).2
            /\ issues (validate_daily_bars cal' df start end_ h).1.2
               = issues (_validate_bars_issues (deref h df) start end_).1) as Hany.
  { intros cal'. unfold validate_daily_bars.
    destruct (_validate_bars_issues (deref h df) start end_) as [report ok] eqn:Ev.
    destruct (deref h df) as [|line lines] eqn:Ed; [done|].
    destruct (sessions cal' "XNYS" start end_) as [e'|ss]; [done|].
    destruct (foldl _ _ _) as [m h']. done. }
  split; [apply Hany|]. split; [|split; [apply Hany|]].
  all: try (split; [|split; [|split; [|exact Hany]]]).
  all: unfold validate_daily_bars; rewrite Hfail.
  all: destruct (_validate_bars_issues (deref h df) start end_) as [report ok].
  all: destruct (deref h df) as [|line lines]; [done|]; simpl; try done.
  eexists. split; [done|]. split; [done|]. split; [done|].
  intros k Hk1 Hk2. by rewrite !lookup_insert_ne, lookup_empty.
Qed.

End Store.

(** ** The monotonic check *)

Section Monotonic.
Import Py Table Validate Spec.

Local Abbreviation ts_le := (fun a b : Line => ts (row a) <=? ts (row b)).

Lemma StronglySorted_filter {A : Type} (R : relation A) (P : A -> Prop)
    `{!forall a, Decision (P a)} (l : list A) :
  StronglySorted R l -> StronglySorted R (filter P l).
Proof.
  induction 1 as [|x l Hl IH Hx]; [constructor|].
  rewrite filter_cons. destruct (decide (P x)); [|done].
  constructor; [done|]. apply Forall_forall. intros y Hy.
  apply list_elem_of_filter in Hy as [_ Hy]. rewrite Forall_forall in Hx. auto.
Qed.

Lemma frame_from (n : nat) (l : list Row) :
  row <$> zip_with (fun i r => {| label := i; row := r; bar_date := None |})
            (seq n (length l)) l = l
  /\ label <$> zip_with (fun i r => {| label := i; row := r; bar_date := None |})
                 (seq n (length l)) l = seq n (length l).
Proof.
  revert n. induction l as [|r l IH]; intros n; [done|].
  cbn [length seq zip_with]. rewrite !fmap_cons. cbn [row label].
  destruct (IH (S n)) as [-> ->]. done.
Qed.

Lemma row_frame_of (l : list Row) : row <$> frame_of l = l.
Proof. apply frame_from. Qed.

Lemma label_frame_of (l : list Row) : label <$> frame_of l = seq 0 (length l).
Proof. apply frame_from. Qed.

Lemma StronglySorted_seq (n m : nat) : StronglySorted lt (seq n m).
Proof.
  revert n. induction m as [|m IH]; intros n; simpl; constructor; [done|].
  apply Forall_forall. intros i Hi. apply elem_of_seq in Hi. lia.
Qed.

Lemma labels_increasing_frame_of (l : list Row) :
  StronglySorted (fun a b => (label a < label b)%nat) (frame_of l).
Proof.
  pose proof (StronglySorted_seq 0 (length l)) as Hs.
  rewrite <- label_frame_of in Hs. revert Hs. generalize (frame_of l). intros L.
  induction L as [|x L IH]; [constructor|].
  rewrite fmap_cons. inversion_clear 1 as [|? ? HL Hx].
  constructor; [by apply IH|]. by rewrite Forall_fmap in Hx.
Qed.

(** Stability: lines with increasing labels come out of the sort in the
    order [before]. *)
Lemma insert_by_before (x : Line) (s : list Line) :
  StronglySorted before s ->
  Forall (fun y => (label x < label y)%nat) s ->
  StronglySorted before (insert_by ts_le x s).
Proof.
  induction 1 as [|y s Hs IH Hy]; intros Hx; simpl; [repeat constructor|].
  apply Forall_cons in Hx as [Hxy Hx].
  destruct (ts (row x) <=? ts (row y)) eqn:E.
  - apply Z.leb_le in E.
    constructor; [by constructor|]. constructor.
    + unfold before. lia.
    + rewrite Forall_forall in Hy, Hx. apply Forall_forall. intros z Hz.
      specialize (Hy z Hz). specialize (Hx z Hz). unfold before in *. lia.
  - apply Z.leb_gt in E. constructor; [by apply IH|].
    rewrite insert_by_Permutation. constructor; [|done]. unfold before. lia.
Qed.

Lemma sort_by_before (l : list Line) :
  StronglySorted (fun a b => (label a < label b)%nat) l ->
  StronglySorted before (sort_by ts_le l).
Proof.
  induction 1 as [|x l Hl IH Hx]; simpl; [constructor|].
  apply insert_by_before; [done|]. by rewrite sort_by_Permutation.
Qed.

Lemma get_loc_middle (l1 l2 : list nat) (x : nat) :
  x ∉ l1 -> get_loc (l1 ++ x :: l2) x = Some (length l1).
Proof.
  induction l1 as [|y l1 IH]; intros Hx; simpl.
  - by rewrite decide_True.
  - apply not_elem_of_cons in Hx as [Hne Hx].
    rewrite decide_False by done. by rewrite IH.
Qed.

Lemma loc_ts_middle (l1 l2 : list Line) (x : Line) :
  label x ∉ label <$> l1 -> loc_ts (l1 ++ x :: l2) (label x) = Some (ts (row x)).
Proof.
  intros Hx. unfold loc_ts. rewrite filter_app, filter_cons, decide_True by done.
  assert (filter (fun p => label p = label x) l1 = []) as ->; [|done].
  induction l1 as [|y l1 IH]; [done|].
  rewrite fmap_cons in Hx. apply not_elem_of_cons in Hx as [Hne Hx].
  rewrite filter_cons, decide_False by done. by apply IH.
Qed.

Lemma first_violation_split (a : Line) (l : list Line) (p v : Line) :
  first_violation a l = Some (p, v) ->
  ts (row v) - ts (row p) <= 0
  /\ exists l1 l2, a :: l = l1 ++ p :: v :: l2.
Proof.
  revert a. induction l as [|b l IH]; intros a; simpl; [done|].
  destruct (ts (row b) - ts (row a) <=? 0) eqn:E.
  - intros [= <- <-]. apply Z.leb_le in E. split; [done|]. by exists [], l.
  - intros Hv. destruct (IH b Hv) as (Hle & l1 & l2 & Heq).
    split; [done|]. exists (a :: l1), l2. by rewrite Heq.
Qed.

Lemma violations_head (a : Line) (l : list Line) :
  head (filter (fun pd : Line * option Z => nonpositive pd.2 = true)
          (zip l (diff_from (ts (row a)) ((fun p => ts (row p)) <$> l))))
  = (fun pv => (pv.2, Some (ts (row pv.2) - ts (row pv.1)))) <$> first_violation a l.
Proof.
  revert a. induction l as [|b l IH]; intros a; [done|].
  rewrite fmap_cons. cbn [diff_from zip zip_with first_violation].
  rewrite filter_cons. cbn [nonpositive snd].
  destruct (ts (row b) - ts (row a) <=? 0) eqn:E.
  - rewrite decide_True by done. done.
  - rewrite decide_False by done. apply IH.
Qed.

Lemma first_step_fmap (a : Line) (l : list Line) :
  first_nonpositive_step ((fun p => ts (row p)) <$> a :: l)
  = (fun pv => (ts (row pv.1), ts (row pv.2))) <$> first_violation a l.
Proof.
  revert a. induction l as [|b l IH]; intros a; [done|].
  rewrite !fmap_cons. cbn [first_nonpositive_step first_violation].
  destruct (ts (row b) - ts (row a) <=? 0); [done|].
  rewrite <- IH. by rewrite fmap_cons.
Qed.

Lemma NoDup_increasing (l : list nat) : StronglySorted lt l -> NoDup l.
Proof.
  induction 1 as [|x l Hl IH Hx]; constructor; [|done].
  intros Hin. rewrite Forall_forall in Hx. specialize (Hx x Hin). lia.
Qed.

Lemma StronglySorted_middle {A : Type} (R : relation A) (l1 l2 : list A) (p v : A) :
  StronglySorted R (l1 ++ p :: v :: l2) -> R p v.
Proof.
  intros Hs. apply StronglySorted_app_1_r in Hs.
  inversion_clear Hs as [|? ? _ Hp]. by apply Forall_cons in Hp as [? _].
Qed.

(** The example the loop body reports for a symbol is the first step of the
    symbol's sorted times that is not positive. *)
Lemma non_monotonic_of_first_step (df : list Line) (sym : string) :
  StronglySorted (fun a b => (label a < label b)%nat) df ->
  non_monotonic_of df sym
  = (fun ab => {| nm_symbol := sym; example_ts_prev := ab.1; example_ts_next := ab.2 |})
      <$> first_nonpositive_step
            ((fun p => ts (row p))
               <$> sort_by ts_le (filter (fun p => symbol (row p) = sym) df)).
Proof.
  intros Hdf. unfold non_monotonic_of.
  pose proof (sort_by_before _ (StronglySorted_filter _
                (fun p => symbol (row p) = sym) _ Hdf)) as HL.
  assert (NoDup (label <$> sort_by ts_le (filter (fun p => symbol (row p) = sym) df)))
    as Hnd.
  { rewrite sort_by_Permutation. apply NoDup_increasing.
    apply (StronglySorted_fmap label (fun a b => (label a < label b)%nat) lt); [done|].
    by apply StronglySorted_filter. }
  revert HL Hnd.
  generalize (sort_by ts_le (filter (fun p => symbol (row p) = sym) df)).
  intros [|a [|b l]] HL Hnd; [done | done |].
  set (L := a :: b :: l) in *.
  assert ((1 <? length L)%nat = true) as -> by done.
  assert (diff ((fun p => ts (row p)) <$> L)
          = None :: diff_from (ts (row a)) ((fun p => ts (row p)) <$> b :: l)) as -> by done.
  subst L.
  change (zip (a :: b :: l) (None :: ?d)) with ((a, @None Z) :: zip (b :: l) d).
  rewrite (filter_cons_False _ (a, None)) by (intros [=]).
  pose proof (violations_head a (b :: l)) as Hh.
  rewrite (first_step_fmap a (b :: l)).
  destruct (filter _ (zip (b :: l) _)) as [|[v d] X].
  - destruct (first_violation a (b :: l)); [done|done].
  - destruct (first_violation a (b :: l)) as [[p v']|] eqn:Ev; [|done].
    simpl in Hh. injection Hh as <- _.
    destruct (first_violation_split _ _ _ _ Ev) as (Hle & l1 & l2 & Heq).
    rewrite Heq in HL, Hnd |- *.
    pose proof (StronglySorted_middle _ _ _ _ _ HL) as Hpv.
    assert ((label p < label v)%nat) as Hlab by (unfold before in Hpv; lia).
    cbn [fmap list_fmap fst label]. fold (fmap (M:=list) label).
    assert ((0 <? label v)%nat = true) as -> by (apply Nat.ltb_lt; lia).
    rewrite fmap_app, !fmap_cons in Hnd.
    apply NoDup_app in Hnd as (Hnd1 & Hdisj & Hnd2).
    apply NoDup_cons in Hnd2 as [Hp2 Hnd2]. apply NoDup_cons in Hnd2 as [Hv2 _].
    assert (label p ∉ label <$> l1) as Hp1.
    { intros Hin. apply (Hdisj _ Hin). left. }
    assert (label v ∉ label <$> (l1 ++ [p])) as Hv1.
    { rewrite fmap_app. intros Hin. apply elem_of_app in Hin as [Hin|Hin].
      - apply (Hdisj _ Hin). right. left.
      - apply list_elem_of_singleton in Hin. apply Hp2. rewrite <- Hin. left. }
    assert (l1 ++ p :: v :: l2 = (l1 ++ [p]) ++ v :: l2) as Hsplit
      by by rewrite <- app_assoc.
    assert (get_loc (label <$> l1 ++ p :: v :: l2) (label v) = Some (length l1 + 1)%nat)
      as Hloc.
    { rewrite Hsplit, fmap_app, fmap_cons, get_loc_middle by done.
      by rewrite length_fmap, length_app. }
    assert (item (label <$> l1 ++ p :: v :: l2) (Z.of_nat (length l1 + 1) - 1)
            = Some (label p)) as Hitem.
    { unfold item.
      replace (Z.of_nat (length l1 + 1) - 1 <? 0) with false
        by (symmetry; apply Z.ltb_ge; lia).
      replace (Z.to_nat (Z.of_nat (length l1 + 1) - 1)) with (length l1) by lia.
      rewrite fmap_app, fmap_cons. apply list_lookup_middle. by rewrite length_fmap. }
    assert (loc_ts (l1 ++ p :: v :: l2) (label v) = Some (ts (row v))) as Hcur.
    { rewrite Hsplit. by apply loc_ts_middle. }
    rewrite Hloc. cbn [mbind option_bind]. rewrite Hitem. cbn [mbind option_bind].
    rewrite (loc_ts_middle l1 (v :: l2) p Hp1). cbn [mbind option_bind].
    rewrite Hcur. done.
Qed.

Lemma rows_of_symbol (L : list Line) (sym : string) :
  row <$> filter (fun p => symbol (row p) = sym) L
  = filter (fun r => symbol r = sym) (row <$> L).
Proof.
  induction L as [|x L IH]; [done|].
  rewrite fmap_cons, !filter_cons.
  destruct (decide (symbol (row x) = sym)); [|done]. by rewrite fmap_cons, IH.
Qed.

Lemma times_of_symbol (df : list Row) (sym : string) :
  (fun p => ts (row p))
    <$> sort_by ts_le (filter (fun p => symbol (row p) = sym) (frame_of df))
  = sort_by Z.leb (ts <$> filter (fun r => symbol r = sym) df).
Proof.
  rewrite (sort_by_fmap (fun p => ts (row p)) Z.leb).
  change (fun p : Line => ts (row p)) with (ts ∘ row).
  rewrite (list_fmap_compose row ts).
  rewrite rows_of_symbol.
  by rewrite row_frame_of.
Qed.


Lemma first_step_equal (l : list Z) (a b : Z) :
  StronglySorted (fun a b => (a <=? b) = true) l ->
  first_nonpositive_step l = Some (a, b) -> a = b.
Proof.
  induction 1 as [|x l Hl IH Hx]; [done|].
  destruct l as [|y l]; [done|].
  cbn [first_nonpositive_step].
  apply Forall_cons in Hx as [Hxy _]. apply Z.leb_le in Hxy.
  destruct (y - x <=? 0) eqn:E; [|by apply IH].
  apply Z.leb_le in E. intros [= <- <-]. lia.
Qed.

Lemma Zleb_sorted (l : list Z) :
  StronglySorted (fun a b => (a <=? b) = true) (sort_by Z.leb l).
Proof.
  apply sort_by_sorted.
  - intros a b c ?%Z.leb_le ?%Z.leb_le. apply Z.leb_le. lia.
  - intros a b. rewrite !Z.leb_le. lia.
Qed.


End Monotonic.

(** ** Weeks *)

Section Weeks.
Import Py Table Resample Spec.

Lemma DAY_pos : 0 < DAY.
Proof. reflexivity. Qed.

Lemma WEEK_pos : 0 < WEEK.
Proof. reflexivity. Qed.

(** The number of the week of an instant, weeks beginning on Monday. *)
Lemma week_start_index (t : Z) : week_start t = WEEK * ((t + 3 * DAY) / WEEK) - 3 * DAY.
Proof.
  unfold week_start. fold DAY. change (7 * DAY) with WEEK.
  pose proof (Z.div_mod (t + 3 * DAY) WEEK). pose proof WEEK_pos. lia.
Qed.

(** The bin edges of pandas are the Mondays of the specification. *)
Lemma rollback_normalize (t : Z) : rollback (normalize t) = week_start t.
Proof.
  unfold rollback, weekday, normalize, week_start. fold DAY.
  pose proof DAY_pos as HD.
  assert ((t - t mod DAY) / DAY = t / DAY) as ->.
  { rewrite (Z.div_mod t DAY) at 1 by lia.
    replace (DAY * (t / DAY) + t mod DAY - t mod DAY) with ((t / DAY) * DAY) by lia.
    apply Z.div_mul. lia. }
  replace (7 * DAY) with (DAY * 7) by lia.
  rewrite (Z.rem_mul_r (t + 3 * DAY) DAY 7) by lia.
  rewrite Z.mod_add by lia. rewrite Z.div_add by lia. lia.
Qed.

Lemma add_week_normalize (t : Z) : add_week (normalize t) = week_start t + WEEK.
Proof.
  rewrite <- rollback_normalize. unfold add_week, rollback, WEEK. lia.
Qed.


Lemma week_start_mono (t t' : Z) : t <= t' -> week_start t <= week_start t'.
Proof.
  intros Hle. rewrite !week_start_index.
  pose proof (Z.div_le_mono (t + 3 * DAY) (t' + 3 * DAY) WEEK WEEK_pos).
  pose proof WEEK_pos. nia.
Qed.

(** An instant lies in the week that begins at the Monday [first + i * WEEK]
    exactly when that Monday is its week start. *)
Lemma in_week_iff (t0 t : Z) (i : Z) :
  week_start t0 + i * WEEK <= t < week_start t0 + i * WEEK + WEEK
  <-> week_start t = week_start t0 + i * WEEK.
Proof.
  rewrite !week_start_index. pose proof WEEK_pos as HW.
  set (j := (t0 + 3 * DAY) / WEEK). set (k := (t + 3 * DAY) / WEEK).
  pose proof (Z.div_mod (t + 3 * DAY) WEEK) as Hdm.
  pose proof (Z.mod_pos_bound (t + 3 * DAY) WEEK HW) as Hb.
  fold k in Hdm. split.
  - intros Hin. assert (k = j + i) by nia. subst k. nia.
  - intros Heq. assert (k = j + i) by nia. nia.
Qed.

Lemma week_start_steps (t0 t : Z) :
  t0 <= t -> exists i, 0 <= i /\ week_start t = week_start t0 + i * WEEK.
Proof.
  intros Hle. pose proof (week_start_mono _ _ Hle) as Hm.
  rewrite !week_start_index in *. pose proof WEEK_pos.
  exists ((t + 3 * DAY) / WEEK - (t0 + 3 * DAY) / WEEK). nia.
Qed.


End Weeks.

(** ** The weekly bins *)

Section Bins.
Import Py Table Resample Spec.

Lemma sorted_head_least (t0 : Z) (l : list Z) :
  StronglySorted (fun a b => (a <=? b) = true) (t0 :: l) ->
  forall t, t ∈ t0 :: l -> t0 <= t.
Proof.
  intros Hs t Ht. apply StronglySorted_cons in Hs as [Hall _].
  apply elem_of_cons in Ht as [->|Ht]; [lia|].
  rewrite Forall_forall in Hall. apply Z.leb_le. auto.
Qed.

Lemma sorted_last_greatest (l : list Z) (t1 : Z) :
  StronglySorted (fun a b => (a <=? b) = true) l ->
  last l = Some t1 ->
  forall t, t ∈ l -> t <= t1.
Proof.
  induction 1 as [|x l Hl IH Hx]; intros Hlast t Ht; [done|].
  destruct l as [|y l].
  - simpl in Hlast. apply list_elem_of_singleton in Ht. by simplify_eq.
  - rewrite last_cons_cons in Hlast.
    apply elem_of_cons in Ht as [->|Ht]; [|by apply IH].
    rewrite Forall_forall in Hx. apply Z.leb_le, Hx.
    apply last_Some_elem_of. exact Hlast.
Qed.

(** The labels of the bins: the Mondays from the week of the first instant
    to the week of the last, each once, and the week of every instant among
    them. *)
Lemma bin_labels_weeks (t0 : Z) (l : list Z) :
  StronglySorted (fun a b => (a <=? b) = true) (t0 :: l) ->
  NoDup (bin_labels (t0 :: l))
  /\ (forall m, m ∈ bin_labels (t0 :: l) ->
        exists i, 0 <= i /\ m = week_start t0 + i * WEEK)
  /\ (forall t, t ∈ t0 :: l -> week_start t ∈ bin_labels (t0 :: l)).
Proof.
  intros Hs. unfold bin_labels.
  destruct (last (t0 :: l)) as [t1|] eqn:Hlast;
    [|by apply last_None in Hlast].
  rewrite rollback_normalize, add_week_normalize.
  pose proof WEEK_pos as HW.
  assert (t0 <= t1) as H01.
  { apply (sorted_head_least t0 l Hs). by apply last_Some_elem_of. }
  destruct (week_start_steps t0 t1 H01) as (k1 & Hk1 & Hws1).
  assert ((week_start t1 + WEEK - week_start t0) / WEEK = k1 + 1) as ->.
  { rewrite Hws1. replace (week_start t0 + k1 * WEEK + WEEK - week_start t0)
      with ((k1 + 1) * WEEK) by lia. apply Z.div_mul. lia. }
  split; [|split].
  - apply NoDup_fmap_2; [|apply NoDup_seq]. intros i j Hij. nia.
  - intros m Hm. apply list_elem_of_fmap in Hm as (i & -> & _).
    exists (Z.of_nat i). lia.
  - intros t Ht.
    pose proof (sorted_head_least t0 l Hs t Ht) as Hlo.
    pose proof (sorted_last_greatest _ t1 Hs Hlast t Ht) as Hhi.
    destruct (week_start_steps t0 t Hlo) as (i & Hi & Hwst).
    pose proof (week_start_mono t t1 Hhi) as Hmono.
    apply list_elem_of_fmap. exists (Z.to_nat i). split; [lia|].
    apply elem_of_seq. nia.
Qed.

Lemma bin_labels_nil : bin_labels [] = [].
Proof. done. Qed.

(** The bin of a label holds the rows of that week. *)
Lemma agg_week (sym_df : list Row) (t0 i : Z) :
  agg sym_df (week_start t0 + i * WEEK)
  = aggregate (week_start t0 + i * WEEK)
      (filter (fun r => week_start (ts r) = week_start t0 + i * WEEK) sym_df).
Proof.
  unfold agg. f_equal. apply list_filter_iff. intros r. apply in_week_iff.
Qed.

Lemma aggregate_ts (edge : Z) (bin : list Row) (w : Week) :
  aggregate edge bin = Some w -> w_ts w = edge.
Proof. destruct bin; [done|]. by intros [= <-]. Qed.

Lemma foldl_qmax (x : Q) (l : list Q) : is_max (foldl qmax x l) (x :: l).
Proof.
  revert x. induction l as [|y l IH]; intros x; simpl.
  - split; [left|]. intros z ->%list_elem_of_singleton. apply Qle_refl.
  - destruct (IH (qmax x y)) as [Hin Hmax]. unfold qmax in *.
    destruct (Qltb x y) eqn:E.
    + split.
      * apply elem_of_cons in Hin as [->|Hin]; [right; left|by do 2 right].
      * intros z Hz. apply elem_of_cons in Hz as [->|Hz].
        -- apply Qltb_lt in E. eapply Qle_trans; [by apply Qlt_le_weak|].
           apply Hmax. left.
        -- by apply Hmax.
    + split.
      * apply elem_of_cons in Hin as [->|Hin]; [left|by do 2 right].
      * intros z Hz. apply elem_of_cons in Hz as [->|Hz]; [apply Hmax; left|].
        apply elem_of_cons in Hz as [->|Hz]; [|apply Hmax; by right].
        apply Qltb_ge in E. eapply Qle_trans; [exact E|]. apply Hmax. left.
Qed.

Lemma foldl_qmin (x : Q) (l : list Q) : is_min (foldl qmin x l) (x :: l).
Proof.
  revert x. induction l as [|y l IH]; intros x; simpl.
  - split; [left|]. intros z ->%list_elem_of_singleton. apply Qle_refl.
  - destruct (IH (qmin x y)) as [Hin Hmin]. unfold qmin in *.
    destruct (Qltb y x) eqn:E.
    + split.
      * apply elem_of_cons in Hin as [->|Hin]; [right; left|by do 2 right].
      * intros z Hz. apply elem_of_cons in Hz as [->|Hz].
        -- apply Qltb_lt in E. eapply Qle_trans; [apply Hmin; left|].
           by apply Qlt_le_weak.
        -- by apply Hmin.
    + split.
      * apply elem_of_cons in Hin as [->|Hin]; [left|by do 2 right].
      * intros z Hz. apply elem_of_cons in Hz as [->|Hz]; [apply Hmin; left|].
        apply elem_of_cons in Hz as [->|Hz]; [|apply Hmin; by right].
        apply Qltb_ge in E. eapply Qle_trans; [|exact E]. apply Hmin. left.
Qed.

Lemma foldl_add_total (l : list Z) (acc : Z) : foldl Z.add acc l = acc + total l.
Proof.
  revert acc. induction l as [|x l IH]; intros acc; simpl; [lia|].
  rewrite IH. unfold total. simpl. lia.
Qed.

Lemma total_Permutation (l k : list Z) : l ≡ₚ k -> total l = total k.
Proof.
  unfold total. induction 1; simpl; lia.
Qed.

Lemma wrap64_id (z : Z) : - 2 ^ 63 <= z < 2 ^ 63 -> wrap64 z = z.
Proof.
  intros Hz. unfold wrap64. rewrite Z.mod_small; lia.
Qed.

End Bins.

(** ** The resampler *)

Section Weekly.
Import Py Table Resample Spec.

Local Abbreviation chronological := (fun a b : Row => ts a <=? ts b).

Lemma filter_weekly_rows (sym : string) (first_row : Row) (m : Z) (ws : list Week) :
  filter (fun r => symbol r = sym /\ ts r = m) (weekly_row sym first_row <$> ws)
  = weekly_row sym first_row <$> filter (fun w => w_ts w = m) ws.
Proof.
  induction ws as [|w ws IH]; [done|].
  rewrite fmap_cons, !filter_cons. cbn [weekly_row symbol ts].
  destruct (decide (w_ts w = m)) as [Hw|Hw].
  - rewrite decide_True by done. by rewrite fmap_cons, IH.
  - rewrite decide_False by tauto. done.
Qed.

(** The rows of one week in the part of a symbol. *)
Lemma weekly_part_week (df : list Row) (sym : string) (m : Z) :
  filter (fun r => symbol r = sym /\ ts r = m) (weekly_part df sym)
  = match sort_by chronological (filter (fun r => symbol r = sym) df) with
    | [] => []
    | first_row :: _ =>
        option_list
          (weekly_row sym first_row
             <$> aggregate m
                   (filter (fun r => week_start (ts r) = m)
                      (sort_by chronological (filter (fun r => symbol r = sym) df))))
    end.
Proof.
  unfold weekly_part.
  pose proof (Zleb_sorted (ts <$> filter (fun r => symbol r = sym) df)) as Hs.
  rewrite <- (sort_by_fmap ts Z.leb) in Hs.
  revert Hs. generalize (sort_by chronological (filter (fun r => symbol r = sym) df)).
  intros [|first_row rest] Hs; [done|].
  set (sym_df := first_row :: rest) in *.
  assert (match omap (agg sym_df) (bin_labels (ts <$> sym_df)) with
          | [] => []
          | _ :: _ => weekly_row sym first_row <$> omap (agg sym_df) (bin_labels (ts <$> sym_df))
          end
          = weekly_row sym first_row <$> omap (agg sym_df) (bin_labels (ts <$> sym_df)))
    as -> by by destruct (omap _ _).
  rewrite filter_weekly_rows.
  destruct (bin_labels_weeks (ts first_row) (fmap (M:=list) ts rest) Hs)
    as (Hnd & Hal & Hcov).
  change (ts first_row :: fmap (M:=list) ts rest) with (ts <$> sym_df) in Hnd, Hal, Hcov.
  rewrite (filter_omap_key (agg sym_df) w_ts _ m Hnd).
  2: { intros k w. apply aggregate_ts. }
  destruct (decide (m ∈ bin_labels (ts <$> sym_df))) as [Hm|Hm].
  - destruct (Hal m Hm) as (i & _ & ->). rewrite agg_week.
    by destruct (aggregate _ _).
  - assert (filter (fun r => week_start (ts r) = m) sym_df = []) as ->; [|done].
    destruct (filter (fun r => week_start (ts r) = m) sym_df) as [|r0 l0] eqn:Ef; [done|].
    assert (r0 ∈ filter (fun r => week_start (ts r) = m) sym_df) as Hr0
      by (rewrite Ef; left).
    apply list_elem_of_filter in Hr0 as [Hw Hr0]. destruct Hm. rewrite <- Hw.
    apply Hcov. by apply list_elem_of_fmap_2.
Qed.

Lemma chronological_trans (a b c : Row) :
  chronological a b = true -> chronological b c = true -> chronological a c = true.
Proof. rewrite !Z.leb_le. lia. Qed.

Lemma chronological_total (a b : Row) :
  chronological a b = true \/ chronological b a = true.
Proof. rewrite !Z.leb_le. lia. Qed.

(** The rows of a week of a symbol, in chronological order. *)
Lemma week_of_sorted (df : list Row) (sym : string) (m : Z) :
  filter (fun r => week_start (ts r) = m)
    (sort_by chronological (filter (fun r => symbol r = sym) df))
  = sort_by chronological
      (filter (fun r => symbol r = sym /\ week_start (ts r) = m) df).
Proof.
  rewrite (filter_sort_by chronological chronological_trans chronological_total).
  f_equal. rewrite list_filter_filter. apply list_filter_iff. tauto.
Qed.

Lemma weekly_part_symbol (df : list Row) (sym : string) (r : Row) :
  r ∈ weekly_part df sym -> symbol r = sym.
Proof.
  unfold weekly_part.
  destruct (omap _ _) as [|w ws]; [by rewrite elem_of_nil|].
  destruct (sort_by _ _) as [|first_row rest]; [by rewrite elem_of_nil|].
  intros (w' & -> & _)%list_elem_of_fmap. done.
Qed.

(** The rows of one symbol in the concatenation of the parts. *)
Lemma filter_parts (df : list Row) (sym : string) (m : Z) (syms : list string) :
  NoDup syms ->
  filter (fun r => symbol r = sym /\ ts r = m) (concat (weekly_part df <$> syms))
  = if decide (sym ∈ syms)
    then filter (fun r => symbol r = sym /\ ts r = m) (weekly_part df sym)
    else [].
Proof.
  assert (forall s, s <> sym ->
            filter (fun r => symbol r = sym /\ ts r = m) (weekly_part df s) = []) as Hother.
  { intros s Hs.
    destruct (filter _ (weekly_part df s)) as [|r0 l0] eqn:Ef; [done|].
    assert (r0 ∈ filter (fun r => symbol r = sym /\ ts r = m) (weekly_part df s)) as Hr0
      by (rewrite Ef; left).
    apply list_elem_of_filter in Hr0 as [[Hsym _] Hr0].
    apply weekly_part_symbol in Hr0. congruence. }
  induction 1 as [|s syms Hs Hnd IH].
  - destruct (decide (sym ∈ [])) as [H0|]; [by apply elem_of_nil in H0 | done].
  - rewrite fmap_cons. cbn [concat]. rewrite filter_app, IH.
    destruct (decide (s = sym)) as [->|Hne].
    + rewrite decide_False by done. rewrite decide_True by left. by rewrite app_nil_r.
    + rewrite (Hother s Hne). cbn [app].
      destruct (decide (sym ∈ syms)) as [Hin|Hin].
      * rewrite decide_True by by right. done.
      * rewrite decide_False; [done|]. rewrite elem_of_cons. intros [?|?]; congruence.
Qed.



End Weekly.

(** ** The validator and the resampler on sample tables *)

Section TableExamples.
Import Py Table Validate Resample Spec Samples.



(** A repeated day is reported once, whatever the order of the rows. *)
Example repeated_day_reported :
  non_monotonic (issues (_validate_bars_issues (frame_of repeated) 19723 19725).1)
  = [{| nm_symbol := "AAPL"; example_ts_prev := at_day 19724;
        example_ts_next := at_day 19724 |}].
Proof. vm_compute. reflexivity. Qed.

Lemma C9_calendar_failure_is_recorded_witness :
  let result := validate_daily_bars no_calendar 0 19723 19725 (store_of repeated) in
  result.1.1 = false
  /\ missing_days result.1.2
     = Some (<["totals" := Totals 0]> (<["error" := Error "unknown exchange"]> ∅))
  /\ issues result.1.2
     = issues (_validate_bars_issues (frame_of repeated) 19723 19725).1.
Proof.
  destruct (C9_calendar_failure_is_recorded no_calendar 0 19723 19725
              (store_of repeated) "unknown exchange")
    as (Hok & _ & Hissues & Hmissing & _).
  - vm_compute. discriminate.
  - reflexivity.
  - split; [|split].
    + rewrite Hok. vm_compute. reflexivity.
    + exact Hmissing.
    + exact Hissues.
Defined.

Lemma C10_validators_leave_table_unchanged_witness :
  (validate_daily_bars every_day 0 19723 19725 (store_of repeated)).2 !! 0%nat
  = Some (frame_of repeated)
  /\ (validate_weekly_bars 0 19723 19725 (store_of repeated)).2 !! 0%nat
     = Some (frame_of repeated).
Proof.
  destruct (C10_validators_leave_table_unchanged every_day 0 19723 19725
              (store_of repeated) (frame_of repeated))
    as (Hdaily & Hweekly & _).
  - reflexivity.
  - split; [exact Hdaily | exact Hweekly].
Defined.

(** The daily check does write the date column, into the copy it made. *)
Example daily_check_writes_into_copy :
  exists copy_loc frame,
    (validate_daily_bars every_day 0 19723 19725 (store_of repeated)).2 !! copy_loc
    = Some frame
    /\ copy_loc <> 0%nat
    /\ Forall (fun line => is_Some (bar_date line)) frame
    /\ frame <> [].
Proof.
  exists 2%nat. eexists. split; [vm_compute; reflexivity|].
  split; [discriminate|]. split; [|discriminate].
  repeat constructor; eexists; reflexivity.
Qed.


(** The test of the weekly resampling: one row per symbol and week, at the
    Mondays. *)
Example two_weeks_resampled :
  (fun r => (symbol r, ts r, open r, high r, low r, close r, volume r))
    <$> to_weekly two_weeks
  = [("AAPL", midnight 19723, 100%Q, 106%Q, 98%Q, 103%Q, 3300);
     ("AAPL", midnight 19730, 103%Q, 108%Q, 102%Q, 107%Q, 2700);
     ("TSLA", midnight 19723, 200%Q, 208%Q, 198%Q, 206%Q, 4100);
     ("TSLA", midnight 19730, 206%Q, 209%Q, 201%Q, 202%Q, 2200)].
Proof. vm_compute. reflexivity. Qed.

End TableExamples.

(** * Further properties *)

(** ** The client: errors and retries *)

Section ClientErrors.
Import Py Alpaca Spec Notions.
Context `{Builtins}.

Lemma requests_app (a b : list Event) : requests (a ++ b) = requests a ++ requests b.
Proof. apply omap_app. Qed.

Lemma sleeps_app (a b : list Event) : sleeps (a ++ b) = sleeps a ++ sleeps b.
Proof. apply omap_app. Qed.

Lemma events_of_retries (request : Request) (ds : list float) :
  requests (flat_map (fun d => [EvSleep d; EvGet request]) ds)
  = replicate (length ds) request
  /\ sleeps (flat_map (fun d => [EvSleep d; EvGet request]) ds) = ds.
Proof.
  induction ds as [|d ds [IH1 IH2]]; [done|].
  cbn [flat_map app length replicate]. unfold requests, sleeps in *.
  cbn [omap list_omap]. by rewrite IH1, IH2.
Qed.

Lemma requests_gate (env : Env) (st : Loop) (w : World) :
  requests (trace (proactive_gate env st w)) = requests (trace w).
Proof.
  pose proof (proactive_gate_world env st w) as [-> _].
  rewrite requests_app. destruct (Qltb _ _); simpl; by rewrite app_nil_r.
Qed.

(** The requests and the sleeps of the first half of a turn. *)
Lemma send_events (env : Env) (request : Request) (st : Loop) (w : World) :
  exists ds : list float,
    (length ds <= MAX_RETRIES_PER_REQUEST)%nat
    /\ (send env request st w).1.1 = handler env (gets w + length ds) request
    /\ gets (send env request st w).2 = S (gets w + length ds)
    /\ requests (trace (send env request st w).2)
       = requests (trace w) ++ replicate (S (length ds)) request
    /\ sleeps (trace (send env request st w).2)
       = sleeps (trace (proactive_gate env st w)) ++ ds
    /\ (forall i d, ds !! i = Some d ->
          status_code (handler env (gets w + i) request) = 429
          /\ exists wi,
               d = (_compute_sleep_seconds_for_429 env (handler env (gets w + i) request)
                      i wi).1.1)
    /\ ((length ds < MAX_RETRIES_PER_REQUEST)%nat ->
        status_code (handler env (gets w + length ds) request) <> 429).
Proof.
  destruct (send_run env request st w)
    as (ds & Hle & _ & Hr & Hg & Ht & Hd & Hstop).
  exists ds. destruct (events_of_retries request ds) as [Hreq Hsl].
  split; [done|]. split; [done|]. split; [done|]. split; [|split; [|done]].
  - rewrite Ht, requests_app, requests_gate.
    change (EvGet request :: ?l) with ([EvGet request] ++ l).
    rewrite requests_app, Hreq. done.
  - rewrite Ht, sleeps_app.
    change (EvGet request :: ?l) with ([EvGet request] ++ l).
    rewrite sleeps_app, Hsl. done.
Qed.

(** X1. A limit outside [1, 10000], or a list of symbols that are all
    blank, makes the call raise [ValueError] before anything is sent or
    slept; the limit is looked at first. *)
Theorem fetch_rejects_bad_input (fuel : nat) (env : Env) (self : AlpacaClient)
    (symbols : list string) (timeframe start end_ : string) (limit : Z)
    (adjustment : string) (feed asof : option string) (sort : string) (w : World) :
  (limit < 1 \/ 10000 < limit ->
   fetch_stock_bars fuel env self symbols timeframe start end_ limit adjustment
     feed asof sort w
   = Some (Raise (ValueError ("limit must be between 1 and 10000, got " +:+ pretty limit)),
           w))
  /\ (1 <= limit <= 10000 ->
      Forall (fun s => strip s = "") symbols ->
      fetch_stock_bars fuel env self symbols timeframe start end_ limit adjustment
        feed asof sort w
      = Some (Raise (ValueError "At least one symbol is required"), w)).
Proof.
  unfold fetch_stock_bars. split.
  - intros Hbad.
    assert ((limit <? 1) || (10000 <? limit) = true) as ->; [|done].
    apply orb_true_iff. rewrite !Z.ltb_lt. done.
  - intros Hok Hblank.
    assert ((limit <? 1) || (10000 <? limit) = false) as ->.
    { apply orb_false_iff. split; apply Z.ltb_ge; lia. }
    assert (filter (fun s => strip s <> "") symbols = []) as ->; [|done].
    induction Hblank as [|s symbols Hs Hblank IH]; [done|].
    rewrite filter_cons, decide_False by (intros Hne; by apply Hne). done.
Qed.

(** An answer that is not 429 ends the turn with the one request. *)
Lemma page_turn_not_throttled (env : Env) (self : AlpacaClient) (base : Params)
    (st : Loop) (w : World) :
  let request := request_of self base st in
  status_code (handler env (gets w) request) <> 429 ->
  page_turn env self base st w
  = (receive st (handler env (gets w) request), (send env request st w).2)
  /\ gets (send env request st w).2 = S (gets w)
  /\ requests (trace (send env request st w).2) = requests (trace w) ++ [request]
  /\ sleeps (trace (send env request st w).2)
     = sleeps (trace (proactive_gate env st w)).
Proof.
  intros request Hne. unfold page_turn. fold request.
  destruct (send_events env request st w) as (ds & _ & Hr & Hg & Hreq & Hsl & Hd & _).
  assert (ds = []) as ->.
  { destruct ds as [|d ds]; [done|].
    destruct (Hd 0%nat d eq_refl) as [H429 _]. rewrite Nat.add_0_r in H429. done. }
  simpl in *. rewrite Nat.add_0_r in Hr, Hg. rewrite app_nil_r in Hsl.
  destruct (send env request st w) as [[response k] w']. simpl in *.
  by subst response.
Qed.

(** X2. An answer whose status is neither 200 nor 429 is not retried: the
    turn makes one request and the call raises a provider error that
    carries that status and names it in its message, with the excerpt of
    the body. *)
Theorem failed_request_raises_status (env : Env) (self : AlpacaClient)
    (base : Params) (st : Loop) (w : World) (fuel : nat) :
  let request := request_of self base st in
  let answer := handler env (gets w) request in
  status_code answer <> 200 ->
  status_code answer <> 429 ->
  exists w',
    pagination (S fuel) env self base st w
    = Some (Raise (ProviderError
                     ("API request failed with status " +:+ pretty (status_code answer)
                        +:+ ": " +:+ error_text answer)
                     (Some (status_code answer))), w')
    /\ gets w' = S (gets w)
    /\ requests (trace w') = requests (trace w) ++ [request].
Proof.
  intros request answer H200 H429.
  destruct (page_turn_not_throttled env self base st w H429) as (Hturn & Hg & Hreq & _).
  fold request in Hturn, Hg, Hreq.
  exists (send env request st w).2. cbn [pagination]. rewrite Hturn.
  fold answer. unfold receive.
  rewrite (proj2 (Z.eqb_neq _ _) H200), (proj2 (Z.eqb_neq _ _) H429). simpl.
  done.
Qed.

(** X3. A 200 answer whose body is not JSON makes the call raise a provider
    error with status 200 and the message of the decoder; nothing of the
    answer is merged. *)
Theorem undecodable_page_raises (env : Env) (self : AlpacaClient)
    (base : Params) (st : Loop) (w : World) (fuel : nat) (e : string) :
  let request := request_of self base st in
  let answer := handler env (gets w) request in
  status_code answer = 200 ->
  json answer = inl e ->
  exists w',
    pagination (S fuel) env self base st w
    = Some (Raise (ProviderError ("Failed to parse JSON response: " +:+ e) (Some 200)), w')
    /\ gets w' = S (gets w).
Proof.
  intros request answer H200 Hjson.
  assert (status_code answer <> 429) as H429 by (rewrite H200; done).
  destruct (page_turn_not_throttled env self base st w H429) as (Hturn & Hg & _).
  fold request in Hturn, Hg.
  exists (send env request st w).2. cbn [pagination]. rewrite Hturn.
  fold answer. unfold receive. rewrite H200, Hjson. simpl. done.
Qed.

(** X4. A request that is throttled [k <= 5] times and then answered is
    sent [k + 1] times with [k] sleeps between, and the turn goes on with
    that answer as if it had come first. *)
Theorem throttled_request_recovers (env : Env) (self : AlpacaClient)
    (base : Params) (st : Loop) (w : World) (k : nat) :
  let request := request_of self base st in
  let answer (i : nat) := handler env (gets w + i) request in
  (k <= 5)%nat ->
  (forall i, (i < k)%nat -> status_code (answer i) = 429) ->
  status_code (answer k) <> 429 ->
  let turn := page_turn env self base st w in
  turn.1 = receive st (answer k)
  /\ gets turn.2 = (gets w + k + 1)%nat
  /\ requests (trace turn.2) = requests (trace w) ++ replicate (S k) request
  /\ length (sleeps (trace turn.2))
     = (length (sleeps (trace (proactive_gate env st w))) + k)%nat.
Proof.
  intros request answer Hk Hthrottled Hanswer turn. subst turn.
  unfold page_turn. fold request.
  destruct (send_events env request st w)
    as (ds & Hle & Hr & Hg & Hreq & Hsl & Hd & Hstop).
  assert (length ds = k) as Hlen.
  { destruct (decide (length ds < k)%nat) as [Hlt|Hge].
    - destruct Hstop; [unfold MAX_RETRIES_PER_REQUEST; lia|].
      apply Hthrottled. done.
    - destruct (decide (k < length ds)%nat) as [Hgt|]; [|lia].
      destruct (lookup_lt_is_Some_2 ds k Hgt) as [d Hdk].
      destruct (Hd k d Hdk) as [H429 _]. by destruct Hanswer. }
  destruct (send env request st w) as [[response n] w']. simpl in *.
  rewrite Hlen in Hr, Hg, Hreq. subst response.
  split; [done|]. split; [lia|]. split; [done|].
  rewrite Hsl, length_app. lia.
Qed.

(** The delay of a retry is finite and lies in [0, 5]. *)
Lemma retry_delay_within (env : Env) (response : Response) (i : nat) (w : World) :
  within 0 5 (_compute_sleep_seconds_for_429 env response i w).1.1.
Proof.
  assert (0 <= 5)%Q as H05 by by compute.
  unfold _compute_sleep_seconds_for_429, sleep_from_reset, read_clock,
    MAX_SLEEP_SECONDS, within.
  destruct (headers response !! "retry-after") as [ra|];
    [destruct (py_float (strip ra)) as [secs|]|].
  1: { rewrite (min_max_clamp 0 5 secs H05). simpl. eexists. split; [done|].
       by apply clamp_float_bounds. }
  all: destruct (headers response !! "x-ratelimit-reset") as [rs|];
    [destruct (py_int (strip rs)) as [reset|]|].
  all: rewrite ?backoff_table, ?(min_max_clamp 0 5 (Finite _) H05); simpl.
  all: eexists; split; [done|].
  all: auto using clamp_bounds, backoff_seconds_bounds.
Qed.

Lemma total_seconds_app (a b : list float) :
  (total_seconds (a ++ b) == total_seconds a + total_seconds b)%Q.
Proof.
  induction a as [|d a IH]; simpl; [lra|]. rewrite IH. lra.
Qed.

Lemma total_seconds_retries (ds : list float) :
  Forall (within 0 5) ds -> (length ds <= 5)%nat ->
  (0 <= total_seconds ds)%Q /\ (total_seconds ds <= 25)%Q.
Proof.
  intros Hall Hlen.
  do 6 (destruct ds as [|? ds];
        [repeat match goal with
                | Hf : Forall _ (_ :: _) |- _ => apply Forall_cons in Hf as [[? (-> & ? & ?)] Hf]
                end; simpl; lra|]).
  simpl in Hlen. lia.
Qed.

(** X5. A turn of the loop sleeps at most once before its request, for at
    most 10 seconds, and at most 5 times between the retries, for at most 5
    seconds each; every sleep is a finite number of seconds that is not
    negative, and a turn sleeps no more than 35 seconds in all. *)
Theorem turn_sleeps_bounded (env : Env) (self : AlpacaClient) (base : Params)
    (st : Loop) (w : World) :
  exists gate retries : list float,
    sleeps (trace (page_turn env self base st w).2) = sleeps (trace w) ++ gate ++ retries
    /\ (length gate <= 1)%nat /\ Forall (within 0 10) gate
    /\ (length retries <= 5)%nat /\ Forall (within 0 5) retries
    /\ (0 <= total_seconds (gate ++ retries))%Q
    /\ (total_seconds (gate ++ retries) <= 35)%Q.
Proof.
  unfold page_turn.
  destruct (send_events env (request_of self base st) st w)
    as (ds & Hle & _ & _ & _ & Hsl & Hd & _).
  destruct (send env (request_of self base st) st w) as [[response k] w'].
  simpl in *.
  set (delay := proactive_delay (last_remaining st) (last_reset st)
                  (now env (clock_reads w))).
  assert ((0 <= delay)%Q /\ (delay <= 10)%Q) as [Hlo Hhi].
  { subst delay. unfold proactive_delay.
    repeat case_match; try (by compute); by apply clamp_bounds. }
  exists (if Qltb 0 delay then [Finite delay] else []), ds.
  assert (Forall (within 0 5) ds) as Hds.
  { apply Forall_forall. intros d Hin. apply list_elem_of_lookup in Hin as [i Hi].
    destruct (Hd i d Hi) as [_ [wi ->]]. apply retry_delay_within. }
  pose proof (total_seconds_retries ds Hds Hle) as [Hr0 Hr25].
  split.
  { rewrite Hsl. pose proof (proactive_gate_world env st w) as [-> _].
    fold delay. rewrite sleeps_app, <- app_assoc.
    by destruct (Qltb 0 delay). }
  split; [destruct (Qltb 0 delay); simpl; lia|].
  split.
  { destruct (Qltb 0 delay); constructor; [|constructor]. by exists delay. }
  split; [done|]. split; [done|].
  rewrite total_seconds_app.
  destruct (Qltb 0 delay); simpl; lra.
Qed.

End ClientErrors.

(** ** The client: what is sent and what comes back *)

Section ClientRuns.
Import Py Alpaca Spec Notions Pages.
Context `{Builtins}.

Lemma request_of_fixed (self : AlpacaClient) (base : Params) (st : Loop) :
  url (request_of self base st) = base_url self +:+ "/v2/stocks/bars"
  /\ auth (request_of self base st)
     = [("APCA-API-KEY-ID", api_key self); ("APCA-API-SECRET-KEY", api_secret self)]
  /\ without_token (params (request_of self base st)) = without_token base
  /\ token_of (request_of self base st)
     = match page_token st with
       | Some tok => Some tok
       | None => p_page_token base
       end.
Proof. unfold request_of, token_of. by destruct (page_token st). Qed.

(** Every request of the loop is the request of the call, up to the page
    token. *)
Lemma pagination_requests (env : Env) (self : AlpacaClient) (base : Params)
    (fuel : nat) :
  forall (st : Loop) (w : World) (result : Result BarsResponse) (w' : World),
    pagination fuel env self base st w = Some (result, w') ->
    exists reqs,
      requests (trace w') = requests (trace w) ++ reqs
      /\ reqs <> []
      /\ length reqs = (gets w' - gets w)%nat
      /\ Forall (fun r =>
                   url r = base_url self +:+ "/v2/stocks/bars"
                   /\ auth r = [("APCA-API-KEY-ID", api_key self);
                                ("APCA-API-SECRET-KEY", api_secret self)]
                   /\ without_token (params r) = without_token base) reqs.
Proof.
  induction fuel as [|fuel IH]; intros st w result w' Hrun; [done|].
  cbn [pagination] in Hrun. unfold page_turn in Hrun.
  destruct (send_events env (request_of self base st) st w)
    as (ds & _ & _ & Hg & Hreq & _).
  destruct (send env (request_of self base st) st w) as [[response k] w1].
  simpl in Hg, Hreq.
  destruct (request_of_fixed self base st) as (Hurl & Hauth & Hpar & _).
  assert (Forall (fun r =>
                    url r = base_url self +:+ "/v2/stocks/bars"
                    /\ auth r = [("APCA-API-KEY-ID", api_key self);
                                 ("APCA-API-SECRET-KEY", api_secret self)]
                    /\ without_token (params r) = without_token base)
            (replicate (S (length ds)) (request_of self base st))) as Hall.
  { apply Forall_replicate. done. }
  destruct (receive st response) as [st'|r].
  - destruct (IH st' w1 result w' Hrun) as (reqs & Hreqs & Hne & Hlen & Hrest).
    exists (replicate (S (length ds)) (request_of self base st) ++ reqs).
    split; [by rewrite Hreqs, Hreq, <- app_assoc|].
    split; [done|]. split; [|by apply Forall_app].
    rewrite length_app, length_replicate.
    destruct reqs as [|r0 reqs]; [done|]. simpl in Hlen |- *. lia.
  - injection Hrun as <- <-.
    exists (replicate (S (length ds)) (request_of self base st)).
    split; [done|]. split; [done|]. split; [|done].
    rewrite length_replicate. lia.
Qed.

(** X6. Whatever the server answers, every request of a call, retries
    included, goes to the bars endpoint of the client's base address with
    the two authentication headers and the parameters of the call; only the
    page token differs between requests. A call that passes the checks of
    its arguments sends at least one request. *)
Theorem every_request_is_authenticated (fuel : nat) (env : Env) (self : AlpacaClient)
    (symbols : list string) (timeframe start end_ : string) (limit : Z)
    (adjustment : string) (feed asof : option string) (sort : string)
    (w w' : World) (result : Result BarsResponse) :
  fetch_stock_bars fuel env self symbols timeframe start end_ limit adjustment
    feed asof sort w
  = Some (result, w') ->
  exists reqs,
    requests (trace w') = requests (trace w) ++ reqs
    /\ length reqs = (gets w' - gets w)%nat
    /\ Forall (fun r =>
                 url r = base_url self +:+ "/v2/stocks/bars"
                 /\ auth r = [("APCA-API-KEY-ID", api_key self);
                              ("APCA-API-SECRET-KEY", api_secret self)]
                 /\ without_token (params r)
                    = base_params symbols timeframe start end_ limit adjustment
                        feed asof sort) reqs
    /\ ((forall msg, result <> Raise (ValueError msg)) -> reqs <> []).
Proof.
  unfold fetch_stock_bars. intros Hrun.
  destruct ((limit <? 1) || (10000 <? limit)).
  { injection Hrun as <- <-. exists []. rewrite app_nil_r, Nat.sub_diag.
    split; [done|]. split; [done|]. split; [constructor|].
    intros Hne. exfalso. by eapply Hne. }
  destruct ((fun s => strip (upper s)) <$> filter (fun s => strip s <> "") symbols)
    as [|s1 rest] eqn:Hnorm.
  { injection Hrun as <- <-. exists []. rewrite app_nil_r, Nat.sub_diag.
    split; [done|]. split; [done|]. split; [constructor|].
    intros Hne. exfalso. by eapply Hne. }
  destruct (pagination_requests _ _ _ _ _ _ _ _ Hrun) as (reqs & Hreqs & Hne & Hlen & Hall).
  exists reqs. split; [done|]. split; [done|]. split; [|done].
  eapply Forall_impl; [exact Hall|]. intros r (Hurl & Hauth & Hpar).
  split; [done|]. split; [done|]. rewrite Hpar.
  unfold without_token, base_params. simpl. by rewrite Hnorm.
Qed.

Lemma first_currency_step (seen : option string) (p : Payload) (pages : list Payload) :
  first_currency (match seen with None => currency p | Some c => Some c end) pages
  = first_currency seen (p :: pages).
Proof.
  unfold first_currency. destruct seen as [c|]; [done|]. simpl.
  by destruct (currency p).
Qed.

(** The loop over a run of pages that are all served at the first attempt:
    the currency it returns and the tokens it sends. *)
Lemma pagination_served (env : Env) (self : AlpacaClient) (base : Params)
    (pages : list Payload) (final : Payload) :
  Forall (fun p => token_exhausted (next_page_token p) = false) pages ->
  token_exhausted (next_page_token final) = true ->
  forall (fuel : nat) (st : Loop) (w : World),
    (length pages < fuel)%nat ->
    (forall i p request, (pages ++ [final]) !! i = Some p ->
       status_code (handler env (gets w + i) request) = 200
       /\ json (handler env (gets w + i) request) = inr p) ->
    exists result w',
      pagination fuel env self base st w = Some (Return result, w')
      /\ r_currency result = first_currency (currency_seen st) (pages ++ [final])
      /\ token_of <$> requests (trace w')
         = (token_of <$> requests (trace w))
             ++ token_of (request_of self base st) :: (next_page_token <$> pages).
Proof.
  intros Hpages Hfinal. induction Hpages as [|p pages Hp Hpages IH];
    intros fuel st w Hfuel Hserve.
  - destruct fuel as [|fuel]; [simpl in Hfuel; lia|].
    destruct (Hserve 0%nat final (request_of self base st) eq_refl) as [Hs Hj].
    rewrite Nat.add_0_r in Hs, Hj.
    destruct (page_turn_not_throttled env self base st w) as (Hturn & _ & Hreq & _);
      [by rewrite Hs|].
    cbn [pagination]. rewrite Hturn.
    rewrite (receive_page st _ final Hs Hj), Hfinal.
    eexists _, _. split; [reflexivity|]. split.
    + simpl. unfold first_currency. destruct (currency_seen st); [done|].
      simpl. by destruct (currency final).
    + rewrite Hreq, fmap_app. done.
  - destruct fuel as [|fuel]; [simpl in Hfuel; lia|].
    destruct (Hserve 0%nat p (request_of self base st) eq_refl) as [Hs Hj].
    rewrite Nat.add_0_r in Hs, Hj.
    destruct (page_turn_not_throttled env self base st w) as (Hturn & Hg & Hreq & _);
      [by rewrite Hs|].
    cbn [pagination]. rewrite Hturn.
    rewrite (receive_page st _ p Hs Hj), Hp.
    set (st' := {| merged_bars := _ |}).
    destruct (IH fuel st' (send env (request_of self base st) st w).2)
      as (result & w'' & Hrun & Hcur & Htok).
    + simpl in Hfuel. lia.
    + intros i q request Hq. rewrite Hg.
      replace (S (gets w) + i)%nat with (gets w + S i)%nat by lia.
      by apply Hserve.
    + exists result, w''. split; [exact Hrun|]. split.
      * rewrite Hcur. subst st'. cbn [currency_seen].
        change ((p :: pages) ++ [final]) with (p :: (pages ++ [final])).
        apply first_currency_step.
      * rewrite Htok, Hreq, fmap_app, <- app_assoc. f_equal. simpl. f_equal.
        destruct (request_of_fixed self base st') as (_ & _ & _ & ->).
        subst st'. cbn [page_token].
        destruct (next_page_token p) as [tok|] eqn:Etok; [done|].
        simpl in Hp. done.
Qed.

(** X7. Over a run of served pages the currency of the result is that of
    the first page, in page order, that gives one; pages after it do not
    overwrite it, and the result has no currency when no page gives one. *)
Theorem currency_of_first_page (env : Env) (self : AlpacaClient)
    (symbols : list string) (timeframe start end_ : string) (limit : Z)
    (adjustment : string) (feed asof : option string) (sort : string)
    (pages : list Payload) (final : Payload) (fuel : nat) :
  1 <= limit <= 10000 ->
  (exists s, s ∈ symbols /\ strip s <> "") ->
  (forall i p request, (pages ++ [final]) !! i = Some p ->
     status_code (handler env i request) = 200
     /\ json (handler env i request) = inr p) ->
  Forall (fun p => exists tok, next_page_token p = Some tok /\ tok <> "") pages ->
  next_page_token final = None \/ next_page_token final = Some "" ->
  (length pages < fuel)%nat ->
  exists result w',
    fetch_stock_bars fuel env self symbols timeframe start end_ limit adjustment
      feed asof sort world0
    = Some (Return result, w')
    /\ r_currency result = head (omap currency (pages ++ [final]))
    /\ (forall c before after,
          pages ++ [final] = before ++ after ->
          Forall (fun p => currency p = None) before ->
          head (omap currency after) = Some c ->
          r_currency result = Some c).
Proof.
  intros Hlimit (s & Hs & Hstrip) Hserve Hpages Hfinal Hfuel.
  unfold fetch_stock_bars.
  assert ((limit <? 1) || (10000 <? limit) = false) as ->.
  { apply orb_false_iff. split; apply Z.ltb_ge; lia. }
  destruct ((fun s => strip (upper s)) <$> filter (fun s => strip s <> "") symbols)
    as [|s1 rest] eqn:Hnorm.
  { apply fmap_nil_inv in Hnorm.
    assert (s ∈ filter (fun s0 => strip s0 <> "") symbols) as Hin
      by by apply list_elem_of_filter.
    rewrite Hnorm in Hin. by apply elem_of_nil in Hin. }
  set (base := {| p_symbols := _ |}).
  destruct (pagination_served env self base pages final) with (fuel := fuel)
    (st := loop0) (w := world0) as (result & w' & Hrun & Hcur & _); try done.
  { eapply Forall_impl; [exact Hpages|]. intros p (tok & -> & Hne). simpl.
    by apply bool_decide_eq_false_2. }
  { by destruct Hfinal as [->| ->]. }
  exists result, w'. split; [exact Hrun|]. split; [exact Hcur|].
  intros c before after Heq Hnone Hc. rewrite Hcur. simpl. rewrite Heq, omap_app.
  assert (omap currency before = []) as ->; [|done].
  clear -Hnone. induction Hnone as [|p before Hp Hnone IH]; [done|].
  simpl. by rewrite Hp.
Qed.

(** X8. Over a run of served pages the first request carries no page
    token, and each later request carries the token that the page before it
    gave; one request is sent per page. *)
Theorem tokens_follow_pages (env : Env) (self : AlpacaClient)
    (symbols : list string) (timeframe start end_ : string) (limit : Z)
    (adjustment : string) (feed asof : option string) (sort : string)
    (pages : list Payload) (final : Payload) (fuel : nat) :
  1 <= limit <= 10000 ->
  (exists s, s ∈ symbols /\ strip s <> "") ->
  (forall i p request, (pages ++ [final]) !! i = Some p ->
     status_code (handler env i request) = 200
     /\ json (handler env i request) = inr p) ->
  Forall (fun p => exists tok, next_page_token p = Some tok /\ tok <> "") pages ->
  next_page_token final = None \/ next_page_token final = Some "" ->
  (length pages < fuel)%nat ->
  exists result w',
    fetch_stock_bars fuel env self symbols timeframe start end_ limit adjustment
      feed asof sort world0
    = Some (Return result, w')
    /\ token_of <$> requests (trace w') = None :: (next_page_token <$> pages)
    /\ length (requests (trace w')) = S (length pages).
Proof.
  intros Hlimit (s & Hs & Hstrip) Hserve Hpages Hfinal Hfuel.
  unfold fetch_stock_bars.
  assert ((limit <? 1) || (10000 <? limit) = false) as ->.
  { apply orb_false_iff. split; apply Z.ltb_ge; lia. }
  destruct ((fun s => strip (upper s)) <$> filter (fun s => strip s <> "") symbols)
    as [|s1 rest] eqn:Hnorm.
  { apply fmap_nil_inv in Hnorm.
    assert (s ∈ filter (fun s0 => strip s0 <> "") symbols) as Hin
      by by apply list_elem_of_filter.
    rewrite Hnorm in Hin. by apply elem_of_nil in Hin. }
  set (base := {| p_symbols := _ |}).
  destruct (pagination_served env self base pages final) with (fuel := fuel)
    (st := loop0) (w := world0) as (result & w' & Hrun & _ & Htok); try done.
  { eapply Forall_impl; [exact Hpages|]. intros p (tok & -> & Hne). simpl.
    by apply bool_decide_eq_false_2. }
  { by destruct Hfinal as [->| ->]. }
  exists result, w'. split; [exact Hrun|].
  assert (token_of <$> requests (trace w') = None :: (next_page_token <$> pages)) as Ht
    by exact Htok.
  split; [exact Ht|].
  apply (f_equal length) in Ht. rewrite length_fmap in Ht. rewrite Ht. simpl.
  by rewrite length_fmap.
Qed.

End ClientRuns.

(** ** Strings: symbols, addresses and excerpts *)

Section Strings.
Import Py Alpaca Spec Notions Pages.

Lemma upper_ascii_facts (c : ascii) :
  is_whitespace (upper_ascii c) = is_whitespace c
  /\ is_lower (upper_ascii c) = false.
Proof.
  destruct c as [b0 b1 b2 b3 b4 b5 b6 b7].
  destruct b0, b1, b2, b3, b4, b5, b6, b7; split; vm_compute; reflexivity.
Qed.

Lemma lstrip_upper (s : string) : lstrip (upper s) = upper (lstrip s).
Proof.
  induction s as [|c s IH]; [done|]. cbn [upper lstrip].
  rewrite (proj1 (upper_ascii_facts c)). by destruct (is_whitespace c).
Qed.

Lemma upper_empty (s : string) : upper s = "" <-> s = "".
Proof. by destruct s. Qed.

Lemma rstrip_upper (s : string) : rstrip (upper s) = upper (rstrip s).
Proof.
  induction s as [|c s IH]; [done|]. cbn [upper rstrip]. rewrite IH.
  destruct (rstrip s) as [|c' s'] eqn:E; cbn [upper]; [|done].
  rewrite (proj1 (upper_ascii_facts c)). by destruct (is_whitespace c).
Qed.

Lemma strip_upper (s : string) : strip (upper s) = upper (strip s).
Proof. unfold strip. by rewrite lstrip_upper, rstrip_upper. Qed.

Lemma chars_upper (s : string) : Forall (fun c => is_lower c = false) (chars (upper s)).
Proof.
  induction s as [|c s IH]; constructor; [|done]. apply upper_ascii_facts.
Qed.

Lemma first_char_lstrip (s : string) (c : ascii) :
  first_char (lstrip s) = Some c -> is_whitespace c = false.
Proof.
  induction s as [|c0 s IH]; [done|]. cbn [lstrip].
  destruct (is_whitespace c0) eqn:E; [done|]. by intros [= <-].
Qed.

Lemma last_char_rstrip (s : string) (c : ascii) :
  last_char (rstrip s) = Some c -> is_whitespace c = false.
Proof.
  induction s as [|c0 s IH]; [done|]. cbn [rstrip].
  destruct (rstrip s) as [|c1 s1] eqn:E.
  - destruct (is_whitespace c0) eqn:Ew; [done|]. by intros [= <-].
  - intros Hl. apply IH. exact Hl.
Qed.

Lemma first_char_rstrip (s : string) (c : ascii) :
  first_char s = Some c -> is_whitespace c = false ->
  first_char (rstrip s) = Some c.
Proof.
  destruct s as [|c0 s]; [done|]. intros [= ->] Hc. cbn [rstrip].
  destruct (rstrip s); [by rewrite Hc | done].
Qed.

Lemma first_char_strip (s : string) (c : ascii) :
  first_char (strip s) = Some c -> is_whitespace c = false.
Proof.
  unfold strip. destruct (first_char (lstrip s)) as [c0|] eqn:E.
  - pose proof (first_char_lstrip s c0 E) as Hc0.
    rewrite (first_char_rstrip _ c0 E Hc0). by intros [= <-].
  - destruct (lstrip s); [done | done].
Qed.

Lemma normalized_symbols_clean (symbols : list string) :
  (fun s => strip (upper s)) <$> filter (fun s => strip s <> "") symbols
  = upper <$> (strip <$> filter (fun s => strip s <> "") symbols)
  /\ Forall (fun name =>
               name <> ""
               /\ (forall c, first_char name = Some c -> is_whitespace c = false)
               /\ (forall c, last_char name = Some c -> is_whitespace c = false)
               /\ Forall (fun c => is_lower c = false) (chars name))
       ((fun s => strip (upper s)) <$> filter (fun s => strip s <> "") symbols).
Proof.
  split.
  - rewrite <- list_fmap_compose. apply list_fmap_ext. intros _ s _. simpl.
    apply strip_upper.
  - apply Forall_fmap, Forall_forall. intros s Hs.
    apply list_elem_of_filter in Hs as [Hs _]. simpl. rewrite strip_upper.
    split; [by rewrite upper_empty|]. rewrite <- strip_upper.
    split; [apply first_char_strip|]. split; [apply last_char_rstrip|].
    rewrite strip_upper. apply chars_upper.
Qed.

(** X9. The symbols that a call sends are the symbols of the input that are
    not blank, trimmed and in upper case, in their order and joined by
    commas: none is empty, none begins or ends with white space, and none
    has a lower-case ASCII letter. Every request of the call carries this
    same list. *)
Theorem symbols_sent_trimmed_upper `{Builtins} (fuel : nat) (env : Env)
    (self : AlpacaClient) (symbols : list string) (timeframe start end_ : string)
    (limit : Z) (adjustment : string) (feed asof : option string) (sort : string)
    (w w' : World) (result : Result BarsResponse) :
  fetch_stock_bars fuel env self symbols timeframe start end_ limit adjustment
    feed asof sort w
  = Some (result, w') ->
  exists (names : list string) (reqs : list Request),
    names = upper <$> (strip <$> filter (fun s => strip s <> "") symbols)
    /\ Forall (fun name =>
                 name <> ""
                 /\ (forall c, first_char name = Some c -> is_whitespace c = false)
                 /\ (forall c, last_char name = Some c -> is_whitespace c = false)
                 /\ Forall (fun c => is_lower c = false) (chars name)) names
    /\ requests (trace w') = requests (trace w) ++ reqs
    /\ Forall (fun r => p_symbols (params r) = join "," names) reqs.
Proof.
  intros Hrun. destruct (normalized_symbols_clean symbols) as [Hnames Hclean].
  exists ((fun s => strip (upper s)) <$> filter (fun s => strip s <> "") symbols).
  unfold fetch_stock_bars in Hrun.
  destruct ((limit <? 1) || (10000 <? limit)).
  { injection Hrun as <- <-. exists []. by rewrite app_nil_r. }
  destruct ((fun s => strip (upper s)) <$> filter (fun s => strip s <> "") symbols)
    as [|s1 rest] eqn:Hnorm.
  { injection Hrun as <- <-. exists []. by rewrite app_nil_r. }
  destruct (pagination_requests _ _ _ _ _ _ _ _ Hrun) as (reqs & Hreqs & _ & _ & Hall).
  exists reqs. split; [done|]. split; [done|]. split; [done|].
  eapply Forall_impl; [exact Hall|]. intros r (_ & _ & Hpar).
  apply (f_equal p_symbols) in Hpar. exact Hpar.
Qed.

Lemma rstrip_slash_split (s : string) :
  (exists n, s = rstrip_slash s +:+ slashes n)
  /\ last_char (rstrip_slash s) <> Some "/"%char.
Proof.
  induction s as [|c s [[n IHn] IHl]]; [split; [by exists 0%nat | done]|].
  cbn [rstrip_slash].
  destruct (rstrip_slash s) as [|c1 s1] eqn:E.
  - destruct (Ascii.eqb c "/") eqn:Ec.
    + apply Ascii.eqb_eq in Ec as ->. split; [|done].
      exists (S n). simpl. by rewrite IHn.
    + apply Ascii.eqb_neq in Ec. split; [|simpl; congruence].
      exists n. simpl. by rewrite IHn at 1.
  - split; [exists n; simpl; by rewrite IHn at 1|]. exact IHl.
Qed.

(** X10. The client drops all the slashes at the end of its base address:
    what it keeps does not end in a slash and is the address given up to
    those slashes, so the address of a request is that stem followed by
    ["/v2/stocks/bars"]. *)
Theorem base_address_without_trailing_slash (key secret base : string)
    (params : Params) (st : Loop) :
  let self := init key secret base in
  last_char (base_url self) <> Some "/"%char
  /\ (exists n, base = base_url self +:+ slashes n)
  /\ url (request_of self params st) = base_url self +:+ "/v2/stocks/bars"
  /\ base_url (init key secret (base_url self)) = base_url self.
Proof.
  intros self. destruct (rstrip_slash_split base) as [Hsplit Hlast].
  split; [exact Hlast|]. split; [exact Hsplit|]. split; [done|].
  simpl. clear Hsplit. revert Hlast. generalize (rstrip_slash base). intros s.
  induction s as [|c s IH]; [done|]. intros Hlast. cbn [rstrip_slash].
  destruct s as [|c1 s1].
  - simpl. destruct (Ascii.eqb c "/") eqn:Ec; [|done].
    apply Ascii.eqb_eq in Ec as ->. done.
  - rewrite IH by exact Hlast. done.
Qed.

Lemma substring_prefix (n : nat) (s : string) :
  (String.length (String.substring 0 n s) <= n)%nat
  /\ exists rest, s = String.substring 0 n s +:+ rest.
Proof.
  revert s. induction n as [|n IH]; intros s.
  - destruct s; simpl; split; try lia; by eexists.
  - destruct s as [|c s]; simpl; [split; [lia | by exists ""]|].
    destruct (IH s) as [Hlen [rest Hrest]]. split; [lia|].
    exists rest. by rewrite Hrest at 1.
Qed.

(** X11. The excerpt of the body that goes into the message of a provider
    error is the beginning of the body, 500 characters at most, and the
    words ["(no response body)"] when the body is empty. *)
Theorem error_excerpt_bounded (response : Response) :
  (text response = "" -> error_text response = "(no response body)")
  /\ (text response <> "" ->
      (String.length (error_text response) <= 500)%nat
      /\ (exists rest, text response = error_text response +:+ rest)
      /\ ((String.length (text response) <= 500)%nat ->
          error_text response = text response)).
Proof.
  unfold error_text, prefix. split.
  - intros ->. done.
  - intros Hne. rewrite decide_False by done.
    destruct (substring_prefix 500 (text response)) as [Hlen [rest Hrest]].
    split; [done|]. split; [by exists rest|].
    clear. generalize (text response). generalize 500%nat.
    induction n as [|n IH]; intros s Hs.
    + destruct s; [done | simpl in Hs; lia].
    + destruct s as [|c s]; [done|]. simpl in *. rewrite IH; [done|lia].
Qed.

End Strings.

(** ** The further properties on sample servers *)

Section FurtherClientExamples.
Import Py Alpaca Spec Decimal Examples Notions Pages Servers.

Lemma fetch_rejects_bad_input_witness :
  fetch_stock_bars 1 always_throttled client ["SPY"] "1Day" "2024-01-01" "2024-01-03"
    10001 "raw" None None "asc" world0
  = Some (Raise (ValueError ("limit must be between 1 and 10000, got " +:+ pretty 10001)),
          world0)
  /\ fetch_stock_bars 1 always_throttled client ["  "; ""] "1Day" "2024-01-01"
       "2024-01-03" 10000 "raw" None None "asc" world0
     = Some (Raise (ValueError "At least one symbol is required"), world0).
Proof.
  split.
  - apply (proj1 (fetch_rejects_bad_input 1 always_throttled client ["SPY"] "1Day"
                    "2024-01-01" "2024-01-03" 10001 "raw" None None "asc" world0)).
    right. lia.
  - apply (proj2 (fetch_rejects_bad_input 1 always_throttled client ["  "; ""] "1Day"
                    "2024-01-01" "2024-01-03" 10000 "raw" None None "asc" world0)).
    + lia.
    + repeat constructor.
Defined.

Lemma failed_request_raises_status_witness :
  exists w',
    pagination 1 unavailable client base loop0 world0
    = Some (Raise (ProviderError
                     ("API request failed with status " +:+ pretty 503
                        +:+ ": " +:+ "service unavailable")
                     (Some 503)), w')
    /\ gets w' = 1%nat
    /\ requests (trace w') = [request_of client base loop0].
Proof.
  destruct (failed_request_raises_status unavailable client base loop0 world0 0)
    as (w' & Hrun & Hgets & Hreqs).
  - simpl. discriminate.
  - simpl. discriminate.
  - exists w'. split; [exact Hrun|]. split; [exact Hgets | exact Hreqs].
Defined.

Lemma undecodable_page_raises_witness :
  exists w',
    pagination 1 garbled client base loop0 world0
    = Some (Raise (ProviderError
                     "Failed to parse JSON response: Expecting value: line 1 column 1 (char 0)"
                     (Some 200)), w')
    /\ gets w' = 1%nat.
Proof.
  destruct (undecodable_page_raises garbled client base loop0 world0 0
              "Expecting value: line 1 column 1 (char 0)" eq_refl eq_refl)
    as (w' & Hrun & Hgets).
  exists w'. split; [exact Hrun | exact Hgets].
Defined.

Lemma throttled_request_recovers_witness :
  let turn := page_turn throttled_then_pages client base loop0 world0 in
  turn.1 = receive loop0 (handler throttled_then_pages 1 (request_of client base loop0))
  /\ gets turn.2 = 2%nat
  /\ requests (trace turn.2) = replicate 2 (request_of client base loop0).
Proof.
  destruct (throttled_request_recovers throttled_then_pages client base loop0 world0 1)
    as (Hturn & Hgets & Hreqs & _).
  - lia.
  - intros [|i] Hi; [reflexivity | lia].
  - simpl. discriminate.
  - split; [exact Hturn|]. split; [exact Hgets | exact Hreqs].
Defined.

Lemma every_request_is_authenticated_witness :
  exists result w',
    fetch_stock_bars 2 (two_pages ∅) client ["spy"] "1Day" "2024-01-01"
      "2024-01-03" 10000 "raw" None None "asc" world0
    = Some (result, w')
    /\ Forall (fun r =>
                 url r = "https://data.alpaca.markets/v2/stocks/bars"
                 /\ auth r = [("APCA-API-KEY-ID", "key");
                              ("APCA-API-SECRET-KEY", "secret")])
         (requests (trace w')).
Proof.
  destruct (fetch_stock_bars 2 (two_pages ∅) client ["spy"] "1Day" "2024-01-01"
              "2024-01-03" 10000 "raw" None None "asc" world0)
    as [[result w']|] eqn:Hrun; [|vm_compute in Hrun; discriminate].
  exists result, w'. split; [reflexivity|].
  destruct (every_request_is_authenticated _ _ _ _ _ _ _ _ _ _ _ _ _ _ _ Hrun)
    as (reqs & Hreqs & _ & Hall & _).
  rewrite Hreqs. simpl. eapply Forall_impl; [exact Hall|].
  intros r (Hurl & Hauth & _). split; [exact Hurl | exact Hauth].
Defined.

Lemma served_by_two_pages (i : nat) (p : Payload) (request : Request) :
  ([first_page] ++ [last_page]) !! i = Some p ->
  status_code (handler (two_pages ∅) i request) = 200
  /\ json (handler (two_pages ∅) i request) = inr p.
Proof. destruct i as [|[|i]]; intros Hp; simplify_eq/=; done. Qed.

Lemma currency_of_first_page_witness :
  exists result w',
    fetch_stock_bars 2 (two_pages ∅) client ["spy"] "1Day" "2024-01-01" "2024-01-03"
      10000 "raw" None None "asc" world0
    = Some (Return result, w')
    /\ r_currency result = Some "USD".
Proof.
  destruct (currency_of_first_page (two_pages ∅) client ["spy"] "1Day" "2024-01-01"
              "2024-01-03" 10000 "raw" None None "asc" [first_page] last_page 2)
    as (result & w' & Hrun & Hcur & _).
  - lia.
  - exists "spy". split; [left | vm_compute; discriminate].
  - apply served_by_two_pages.
  - constructor; [|constructor]. exists "tok1". split; [done | discriminate].
  - by left.
  - simpl. lia.
  - exists result, w'. split; [exact Hrun | exact Hcur].
Defined.

Lemma tokens_follow_pages_witness :
  exists result w',
    fetch_stock_bars 2 (two_pages ∅) client ["spy"] "1Day" "2024-01-01" "2024-01-03"
      10000 "raw" None None "asc" world0
    = Some (Return result, w')
    /\ token_of <$> requests (trace w') = [None; Some "tok1"].
Proof.
  destruct (tokens_follow_pages (two_pages ∅) client ["spy"] "1Day" "2024-01-01"
              "2024-01-03" 10000 "raw" None None "asc" [first_page] last_page 2)
    as (result & w' & Hrun & Htok & _).
  - lia.
  - exists "spy". split; [left | vm_compute; discriminate].
  - apply served_by_two_pages.
  - constructor; [|constructor]. exists "tok1". split; [done | discriminate].
  - by left.
  - simpl. lia.
  - exists result, w'. split; [exact Hrun | exact Htok].
Defined.

Lemma symbols_sent_trimmed_upper_witness :
  exists result w',
    fetch_stock_bars 2 (two_pages ∅) client [" spy "; ""; "aapl"] "1Day" "2024-01-01"
      "2024-01-03" 10000 "raw" None None "asc" world0
    = Some (result, w')
    /\ Forall (fun r => p_symbols (params r) = "SPY,AAPL") (requests (trace w')).
Proof.
  destruct (fetch_stock_bars 2 (two_pages ∅) client [" spy "; ""; "aapl"] "1Day"
              "2024-01-01" "2024-01-03" 10000 "raw" None None "asc" world0)
    as [[result w']|] eqn:Hrun; [|vm_compute in Hrun; discriminate].
  exists result, w'. split; [reflexivity|].
  destruct (symbols_sent_trimmed_upper _ _ _ _ _ _ _ _ _ _ _ _ _ _ _ Hrun)
    as (names & reqs & Hnames & _ & Hreqs & Hall).
  rewrite Hreqs. simpl. eapply Forall_impl; [exact Hall|].
  intros r Hr. rewrite Hr, Hnames. vm_compute. reflexivity.
Defined.

Lemma error_excerpt_bounded_witness :
  error_text (throttled ∅) = "rate limited"
  /\ error_text {| status_code := 500; headers := ∅; text := "";
                   json := inl "not an object" |}
     = "(no response body)".
Proof.
  split.
  - apply (proj2 (error_excerpt_bounded (throttled ∅))).
    + discriminate.
    + simpl. lia.
  - apply (proj1 (error_excerpt_bounded _)). reflexivity.
Defined.

End FurtherClientExamples.

(** ** The order of the keys *)

Section KeyOrder.
Import Py Table.

Lemma key_leb_cases (a b : string * Z) :
  key_leb a b = true
  <-> (a.1 <> b.1 /\ String.le a.1 b.1) \/ (a.1 = b.1 /\ a.2 <= b.2).
Proof.
  unfold key_leb, String.le, String.leb.
  destruct (String.compare a.1 b.1) eqn:E.
  - apply String.compare_eq_iff in E. rewrite Z.leb_le. split.
    + intros Hle. right. done.
    + intros [[Hne _]|[_ Hle]]; [done | exact Hle].
  - split; [|done]. intros _. left. split; [|done].
    intros Heq. rewrite Heq in E.
    assert (String.compare b.1 b.1 = Eq) as Hrefl.
    { generalize (b.1). intros s. induction s as [|c s IH]; [done|]. simpl.
      unfold Ascii.compare. by rewrite N.compare_refl. }
    congruence.
  - split; [done|]. intros [[_ Hle]|[Heq _]]; [done|].
    rewrite Heq in E.
    assert (String.compare b.1 b.1 = Eq) as Hrefl.
    { generalize (b.1). intros s. induction s as [|c s IH]; [done|]. simpl.
      unfold Ascii.compare. by rewrite N.compare_refl. }
    congruence.
Qed.

Lemma key_leb_trans (a b c : string * Z) :
  key_leb a b = true -> key_leb b c = true -> key_leb a c = true.
Proof.
  rewrite !key_leb_cases.
  intros [[Hab Lab]|[Hab Lab]] [[Hbc Lbc]|[Hbc Lbc]].
  - left. split.
    + intros Hac. rewrite <- Hac in Lbc. apply Hab.
      by apply (anti_symm String.le).
    + by trans b.1.
  - left. rewrite <- Hbc. done.
  - left. rewrite Hab. done.
  - right. split; [congruence | lia].
Qed.

Lemma key_leb_total (a b : string * Z) : key_leb a b = true \/ key_leb b a = true.
Proof.
  rewrite !key_leb_cases.
  destruct (decide (a.1 = b.1)) as [Heq|Hne].
  - destruct (Z.le_ge_cases a.2 b.2); [left | right]; right; split; done || lia.
  - destruct (total String.le a.1 b.1); [left | right]; left; split; done || congruence.
Qed.

Lemma key_leb_antisym (a b : string * Z) :
  key_leb a b = true -> key_leb b a = true -> a = b.
Proof.
  rewrite !key_leb_cases.
  intros [[Hab Lab]|[Hab Lab]] [[Hba Lba]|[Hba Lba]]; try congruence.
  - destruct Hab. by apply (anti_symm String.le).
  - destruct a, b; simpl in *. f_equal; [done | lia].
Qed.

End KeyOrder.

(** ** Counting the rows of a key *)

Section Counting.
Context {A K : Type} `{EqDecision K} (f : A -> K).

Lemma count_none (k : K) (l : list A) :
  filter (fun y => f y = k) l = [] <-> k ∉ f <$> l.
Proof.
  induction l as [|x l IH]; [set_solver|].
  rewrite filter_cons, fmap_cons, not_elem_of_cons.
  destruct (decide (f x = k)) as [Heq|Hne].
  - split; [done|]. intros [Hk _]. by destruct Hk.
  - rewrite IH. split; [intros ?; split; congruence | by intros [_ ?]].
Qed.

Lemma NoDup_fmap_count (l : list A) :
  NoDup (f <$> l) <-> forall k, (length (filter (fun y => f y = k) l) <= 1)%nat.
Proof.
  induction l as [|x l IH]; [split; [simpl; lia | constructor]|].
  rewrite fmap_cons, NoDup_cons, IH. split.
  - intros [Hx Hl] k. rewrite filter_cons.
    destruct (decide (f x = k)) as [<-|Hne]; [|apply Hl].
    apply count_none in Hx. rewrite Hx. simpl. lia.
  - intros Hall. split.
    + apply count_none. specialize (Hall (f x)). rewrite filter_cons in Hall.
      rewrite decide_True in Hall by done.
      destruct (filter _ l); [done | simpl in Hall; lia].
    + intros k. specialize (Hall k). rewrite filter_cons in Hall.
      destruct (decide (f x = k)); simpl in Hall; lia.
Qed.

End Counting.

(** ** The validator: duplicates *)

Section Duplicates.
Import Py Table Validate Spec Checks.

Lemma dup_key_entry (k : string * Z) (n : nat) :
  dup_key {| dup_symbol := k.1; dup_ts := k.2; dup_count := n |} = k.
Proof. by destruct k. Qed.

Lemma find_duplicates_keys (table : list Row) :
  dup_key <$> find_duplicates table
  = sort_by key_leb
      (unique (key <$> filter (fun r => (1 < rows_with (key r) table)%nat) table)).
Proof.
  unfold find_duplicates. rewrite <- list_fmap_compose.
  etrans; [|apply list_fmap_id]. apply list_fmap_ext. intros i k _. apply dup_key_entry.
Qed.

Lemma duplicated_rows_with (table : list Row) (k : string * Z) :
  k ∈ key <$> filter (fun r => (1 < rows_with (key r) table)%nat) table ->
  length (filter (fun r => key r = k)
            (filter (fun r => (1 < rows_with (key r) table)%nat) table))
  = rows_with k table
  /\ (2 <= rows_with k table)%nat.
Proof.
  intros (r & -> & Hr)%list_elem_of_fmap. apply list_elem_of_filter in Hr as [Hcount Hr].
  split; [|lia]. rewrite list_filter_filter.
  change (rows_with (key r) table)
    with (length (filter (fun r' => key r' = key r) table)).
  f_equal. apply list_filter_iff. intros r'. split; [by intros [? _]|].
  intros Heq. split; [done|]. by rewrite Heq.
Qed.

Lemma find_duplicates_spec (table : list Row) :
  let dups := find_duplicates table in
  (forall d, d ∈ dups ->
     dup_count d = rows_with (dup_key d) table /\ (2 <= dup_count d)%nat)
  /\ (forall r, r ∈ table -> (2 <= rows_with (key r) table)%nat ->
        exists d, d ∈ dups /\ dup_key d = key r)
  /\ StronglySorted (fun a b => key_leb a b = true) (dup_key <$> dups)
  /\ NoDup (dup_key <$> dups)
  /\ (dups = [] <-> NoDup (key <$> table)).
Proof.
  intros dups.
  set (duplicated := filter (fun r => (1 < rows_with (key r) table)%nat) table).
  assert (forall k, k ∈ dup_key <$> dups <-> k ∈ key <$> duplicated) as Hkeys.
  { intros k. subst dups. rewrite find_duplicates_keys, sort_by_Permutation.
    apply elem_of_unique. }
  split; [|split; [|split; [|split]]].
  - intros d Hd. subst dups. unfold find_duplicates in Hd.
    apply list_elem_of_fmap in Hd as (k & -> & Hk).
    rewrite sort_by_Permutation, elem_of_unique in Hk.
    rewrite dup_key_entry. cbn [dup_count].
    destruct (duplicated_rows_with table k Hk) as [Hlen Htwo].
    split; [exact Hlen|]. etrans; [exact Htwo|].
    apply Nat.eq_le_incl. symmetry. exact Hlen.
  - intros r Hr Htwo.
    assert (key r ∈ dup_key <$> dups) as Hin.
    { apply Hkeys, list_elem_of_fmap. exists r. split; [done|].
      apply list_elem_of_filter. split; [lia | done]. }
    apply list_elem_of_fmap in Hin as (d & Hd & Hin). by exists d.
  - subst dups. rewrite find_duplicates_keys.
    apply sort_by_sorted; [apply key_leb_trans | apply key_leb_total].
  - subst dups. rewrite find_duplicates_keys, sort_by_Permutation. apply NoDup_unique.
  - rewrite (NoDup_fmap_count key). split.
    + intros Hnil k.
      destruct (decide (2 <= rows_with k table)%nat) as [Htwo|]; [|unfold rows_with in *; lia].
      exfalso.
      destruct (filter (fun r => key r = k) table) as [|r rest] eqn:Ef;
        [unfold rows_with in Htwo; rewrite Ef in Htwo; simpl in Htwo; lia|].
      assert (r ∈ filter (fun r => key r = k) table) as Hr by (rewrite Ef; left).
      apply list_elem_of_filter in Hr as [<- Hr].
      assert (key r ∈ dup_key <$> dups) as Hin.
      { apply Hkeys, list_elem_of_fmap. exists r. split; [done|].
        apply list_elem_of_filter. split; [lia | done]. }
      rewrite Hnil in Hin. by apply elem_of_nil in Hin.
    + intros Hone. destruct dups as [|d rest] eqn:Ed; [done|]. exfalso.
      assert (dup_key d ∈ key <$> duplicated) as Hin by (apply Hkeys; left).
      destruct (duplicated_rows_with table _ Hin) as [_ Htwo].
      specialize (Hone (dup_key d)). unfold rows_with in Htwo. lia.
Qed.

Lemma duplicates_of_report (df : list Line) (start end_ : date) :
  duplicates (issues (_validate_bars_issues df start end_).1)
  = find_duplicates (row <$> df).
Proof. unfold _validate_bars_issues. by destruct (row <$> df). Qed.

(** X12. The duplicates of the report have one entry for each key (symbol,
    ts) that more than one row has, in the order of the keys; the count of
    an entry is the number of rows with its key, two at least. The list is
    empty exactly when no two rows have the same key. *)
Theorem duplicates_listed_with_counts (df : list Line) (start end_ : date) :
  let table := row <$> df in
  let dups := duplicates (issues (_validate_bars_issues df start end_).1) in
  (forall d, d ∈ dups ->
     dup_count d = rows_with (dup_key d) table /\ (2 <= dup_count d)%nat)
  /\ (forall r, r ∈ table -> (2 <= rows_with (key r) table)%nat ->
        exists d, d ∈ dups /\ dup_key d = key r)
  /\ StronglySorted (fun a b => key_leb a b = true) (dup_key <$> dups)
  /\ NoDup (dup_key <$> dups)
  /\ (dups = [] <-> NoDup (key <$> table)).
Proof.
  intros table dups. subst dups. rewrite duplicates_of_report.
  apply find_duplicates_spec.
Qed.

End Duplicates.

(** ** The validator: the checks of the rows and the flag *)

Section RowChecks.
Import Py Table Validate Spec Checks.

Lemma ohlc_issue_cases (r : Row) :
  match ohlc_issue r with
  | None => prices_in_order r
  | Some issue =>
      (issue = "high < max(open, close)"
       /\ ((high r < open r)%Q \/ (high r < close r)%Q))
      \/ (issue = "low > min(open, close)"
          /\ ((open r < low r)%Q \/ (close r < low r)%Q))
  end.
Proof.
  unfold ohlc_issue, prices_in_order, qmax, qmin.
  destruct (Qltb (open r) (close r)) eqn:Eoc;
    destruct (Qltb (close r) (open r)) eqn:Eco;
    repeat match goal with
      | |- context [if Qltb ?a ?b then _ else _] =>
          let E := fresh "E" in destruct (Qltb a b) eqn:E
      end;
    repeat match goal with
      | H : Qltb _ _ = true |- _ => apply Qltb_lt in H
      | H : Qltb _ _ = false |- _ => apply Qltb_ge in H
      end;
    first [ left; split; [reflexivity|]; first [left; lra | right; lra]
          | right; split; [reflexivity|]; first [left; lra | right; lra]
          | repeat split; lra
          | exfalso; lra ].
Qed.

Lemma ohlc_issue_None (r : Row) : ohlc_issue r = None <-> prices_in_order r.
Proof.
  pose proof (ohlc_issue_cases r) as Hc. destruct (ohlc_issue r) as [issue|].
  - split; [done|]. intros (? & ? & ? & ?).
    destruct Hc as [[_ [?|?]]|[_ [?|?]]]; exfalso; lra.
  - done.
Qed.

Lemma omap_nil_iff {A B : Type} (f : A -> option B) (l : list A) :
  omap f l = [] <-> Forall (fun x => f x = None) l.
Proof.
  induction l as [|x l IH]; [done|]. cbn [omap list_omap].
  rewrite Forall_cons. destruct (f x) eqn:E.
  - split; [done | by intros [? _]].
  - rewrite IH. split; [done | by intros [_ ?]].
Qed.

Lemma fmap_nil_iff {A B : Type} (f : A -> B) (l : list A) : f <$> l = [] <-> l = [].
Proof. split; [apply fmap_nil_inv | by intros ->]. Qed.

Lemma filter_nil_iff {A : Type} (P : A -> Prop) `{!forall a, Decision (P a)}
    (l : list A) :
  filter P l = [] <-> Forall (fun x => ~ P x) l.
Proof.
  induction l as [|x l IH]; [done|]. rewrite filter_cons, Forall_cons.
  destruct (decide (P x)).
  - split; [done | by intros [? _]].
  - rewrite IH. split; [done | by intros [_ ?]].
Qed.

Lemma times_of_key (df : list Row) (sym : string) (t : Z) :
  filter (fun t' => t' = t) (ts <$> filter (fun r => symbol r = sym) df)
  = ts <$> filter (fun r => key r = (sym, t)) df.
Proof.
  induction df as [|r df IH]; [done|]. rewrite !filter_cons.
  destruct (decide (symbol r = sym)) as [Hs|Hs].
  - rewrite fmap_cons, filter_cons. destruct (decide (ts r = t)) as [Ht|Ht].
    + rewrite decide_True by (unfold key; congruence). by rewrite fmap_cons, IH.
    + rewrite decide_False by (unfold key; congruence). exact IH.
  - rewrite decide_False by (unfold key; congruence). exact IH.
Qed.

Lemma times_distinct (df : list Row) (sym : string) :
  NoDup (key <$> df) -> NoDup (ts <$> filter (fun r => symbol r = sym) df).
Proof.
  intros Hkeys.
  assert (ts <$> filter (fun r => symbol r = sym) df
          = id <$> (ts <$> filter (fun r => symbol r = sym) df)) as ->
    by (by rewrite list_fmap_id).
  apply (NoDup_fmap_count id). intros t. unfold id. rewrite times_of_key, length_fmap.
  by apply (NoDup_fmap_count key).
Qed.

Lemma first_step_adjacent (l : list Z) (a b : Z) :
  first_nonpositive_step l = Some (a, b) -> exists l1 l2, l = l1 ++ a :: b :: l2.
Proof.
  induction l as [|x l IH]; [done|]. cbn [first_nonpositive_step].
  destruct l as [|y l]; [done|]. destruct (y - x <=? 0).
  - intros [= <- <-]. by exists [], l.
  - intros Hl. destruct (IH Hl) as (l1 & l2 & ->). by exists (x :: l1), l2.
Qed.

Lemma examples_of_report (df : list Row) (start end_ : date) (e : NonMonotonic) :
  e ∈ non_monotonic (issues (_validate_bars_issues (frame_of df) start end_).1)
  <-> exists a b,
        e = {| nm_symbol := nm_symbol e; example_ts_prev := a; example_ts_next := b |}
        /\ nm_symbol e ∈ symbol <$> df
        /\ first_nonpositive_step
             (sort_by Z.leb (ts <$> filter (fun r => symbol r = nm_symbol e) df))
           = Some (a, b).
Proof.
  unfold _validate_bars_issues. rewrite row_frame_of.
  destruct df as [|r df].
  { cbn [fst issues non_monotonic]. split; [by intros ?%elem_of_nil|].
    by intros (a & b & _ & ?%elem_of_nil & _). }
  set (table := r :: df). cbn [fst issues non_monotonic].
  rewrite list_elem_of_omap. split.
  - intros (sym & Hsym & He). rewrite elem_of_unique in Hsym.
    rewrite non_monotonic_of_first_step in He by apply labels_increasing_frame_of.
    rewrite times_of_symbol in He.
    destruct (first_nonpositive_step _) as [[a b]|] eqn:E; [|done].
    injection He as <-. cbn [nm_symbol]. by exists a, b.
  - intros (a & b & He & Hsym & Hstep). exists (nm_symbol e).
    split; [by apply elem_of_unique|].
    rewrite non_monotonic_of_first_step by apply labels_increasing_frame_of.
    rewrite times_of_symbol, Hstep. cbn. f_equal. symmetry. exact He.
Qed.

Lemma examples_repeat_a_key (df : list Row) (start end_ : date) (e : NonMonotonic) :
  e ∈ non_monotonic (issues (_validate_bars_issues (frame_of df) start end_).1) ->
  example_ts_prev e = example_ts_next e
  /\ exists d, d ∈ find_duplicates df /\ dup_key d = (nm_symbol e, example_ts_next e).
Proof.
  intros (a & b & He & Hsym & Hstep)%examples_of_report.
  set (times := ts <$> filter (fun r => symbol r = nm_symbol e) df) in *.
  assert (a = b) as <- by (by apply (first_step_equal _ _ _ (Zleb_sorted times))).
  rewrite He. cbn [example_ts_prev example_ts_next nm_symbol]. split; [done|].
  apply first_step_adjacent in Hstep as (l1 & l2 & Hsplit).
  assert (2 <= length (filter (fun t' => t' = a) times))%nat as Htwo.
  { rewrite <- (sort_by_Permutation Z.leb times), Hsplit, filter_app, !filter_cons.
    rewrite !decide_True by done. rewrite length_app. simpl. lia. }
  subst times. rewrite times_of_key, length_fmap in Htwo.
  destruct (filter (fun r => key r = (nm_symbol e, a)) df) as [|r rest] eqn:Ef;
    [simpl in Htwo; lia|].
  assert (r ∈ filter (fun r => key r = (nm_symbol e, a)) df) as Hr
    by (rewrite Ef; left).
  apply list_elem_of_filter in Hr as [Hkey Hr].
  destruct (find_duplicates_spec df) as (_ & Hlisted & _).
  destruct (Hlisted r Hr) as (d & Hd & Hdk).
  - unfold rows_with. rewrite Hkey, Ef. exact Htwo.
  - exists d. split; [exact Hd | congruence].
Qed.

Lemma no_examples_without_duplicates (df : list Row) (start end_ : date) :
  find_duplicates df = [] ->
  non_monotonic (issues (_validate_bars_issues (frame_of df) start end_).1) = [].
Proof.
  intros Hnil.
  destruct (non_monotonic (issues (_validate_bars_issues (frame_of df) start end_).1))
    as [|e rest] eqn:E; [done|].
  destruct (examples_repeat_a_key df start end_ e) as (_ & d & Hd & _);
    [rewrite E; left|].
  rewrite Hnil in Hd. by apply elem_of_nil in Hd.
Qed.

(** X13. Every non-monotonic example of the report is a repeated
    timestamp: its two timestamps are equal, and the key (symbol, ts) of
    the example is an entry of the duplicates. A report without duplicates
    has no non-monotonic example. *)
Theorem non_monotonic_examples_are_duplicates (df : list Row) (start end_ : date) :
  let report := (_validate_bars_issues (frame_of df) start end_).1 in
  (forall e, e ∈ non_monotonic (issues report) ->
     example_ts_prev e = example_ts_next e
     /\ exists d, d ∈ duplicates (issues report)
                  /\ dup_key d = (nm_symbol e, example_ts_next e))
  /\ (duplicates (issues report) = [] -> non_monotonic (issues report) = []).
Proof.
  intros report. subst report. rewrite duplicates_of_report, row_frame_of. split.
  - apply examples_repeat_a_key.
  - apply no_examples_without_duplicates.
Qed.

Lemma checks_flag (df : list Row) (start end_ : date) :
  (_validate_bars_issues (frame_of df) start end_).2 = true
  <-> NoDup (key <$> df) /\ Forall sane df.
Proof.
  pose proof (no_examples_without_duplicates df start end_) as Hmono.
  destruct (find_duplicates_spec df) as (_ & _ & _ & _ & Hnil).
  rewrite <- Hnil. clear Hnil. revert Hmono.
  unfold _validate_bars_issues. rewrite row_frame_of.
  destruct df as [|r df]; [intros _; split; [by split | done]|].
  set (table := r :: df). cbn [fst snd issues non_monotonic duplicates].
  intros Hmono.
  rewrite !andb_true_iff, !bool_decide_eq_true, !length_zero_iff_nil.
  rewrite (omap_nil_iff ohlc_sample), fmap_nil_iff, filter_nil_iff.
  split.
  - intros [[[Hd Hm] Ho] Hv]. split; [exact Hd|].
    apply Forall_forall. intros x Hx. rewrite Forall_forall in Ho, Hv.
    specialize (Ho x Hx). specialize (Hv x Hx). split; [|lia].
    apply ohlc_issue_None. unfold ohlc_sample in Ho.
    by destruct (ohlc_issue x).
  - intros [Hd Hs]. split; [split; [split; [exact Hd | by apply Hmono]|]|].
    + eapply Forall_impl; [exact Hs|]. intros x [Hp _].
      apply ohlc_issue_None in Hp. unfold ohlc_sample. by rewrite Hp.
    + eapply Forall_impl; [exact Hs|]. intros x [_ Hv]. lia.
Qed.

(** X14. The flag of the checks is true exactly when no two rows have the
    same key (symbol, ts) and every row has its prices in order (low <=
    open, close <= high) and a volume that is not negative. *)
Theorem ok_iff_rows_distinct_and_sane (df : list Row) (start end_ : date) :
  (_validate_bars_issues (frame_of df) start end_).2 = true
  <-> NoDup (key <$> df) /\ Forall sane df.
Proof. apply checks_flag. Qed.

End RowChecks.

(** ** The validator: samples, and the two entry points *)

Section Reports.
Import Py Table Validate Spec Checks.

Lemma out_of_order_false (r : Row) : out_of_order r = false <-> prices_in_order r.
Proof.
  unfold out_of_order, prices_in_order.
  rewrite negb_false_iff, !andb_true_iff, !Qle_bool_iff. tauto.
Qed.

Lemma out_of_order_issue (r : Row) :
  out_of_order r = true <-> ohlc_issue r <> None.
Proof.
  rewrite ohlc_issue_None, <- out_of_order_false. by destruct (out_of_order r).
Qed.

Lemma ohlc_samples_count (table : list Row) :
  length (omap ohlc_sample table)
  = length (filter (fun r => out_of_order r = true) table).
Proof.
  induction table as [|r table IH]; [done|]. cbn [omap list_omap].
  rewrite filter_cons. unfold ohlc_sample at 1.
  destruct (ohlc_issue r) as [issue|] eqn:E; cbn.
  - rewrite decide_True by (apply out_of_order_issue; congruence). simpl. by rewrite IH.
  - rewrite decide_False; [exact IH|].
    intros Ho%out_of_order_issue. congruence.
Qed.

Lemma violations_of_report (df : list Line) (start end_ : date) :
  let table := row <$> df in
  let report := (_validate_bars_issues df start end_).1 in
  ohlc_violations (issues report)
  = {| count := length (omap ohlc_sample table);
       samples := take 20 (omap ohlc_sample table) |}
  /\ volume_violations (issues report)
     = {| count := length (filter (fun r => volume r < 0) table);
          samples := take 20 (volume_sample <$> filter (fun r => volume r < 0) table) |}
  /\ bars_count (summary report) = length table.
Proof.
  intros table report. subst table report. unfold _validate_bars_issues.
  destruct (row <$> df) as [|r table]; [done|].
  cbn [fst issues ohlc_violations volume_violations summary bars_count].
  by rewrite length_fmap.
Qed.

Lemma elem_of_take_1 {A : Type} (n : nat) (l : list A) (x : A) :
  x ∈ take n l -> x ∈ l.
Proof.
  rewrite <- (take_drop n l) at 2. intros Hx. apply elem_of_app. by left.
Qed.

(** X15. The count of the OHLC violations is the number of rows whose
    prices are not in order, and the count of the volume violations the
    number of rows with a negative volume; neither exceeds the number of
    rows. The samples are the first of them, 20 at most. An OHLC sample
    copies the prices of a row of the table and names one of the first two
    tests; the test "high < low" is never the one named. A volume sample
    copies a negative volume of a row of the table. *)
Theorem violation_samples_come_from_rows (df : list Line) (start end_ : date) :
  let table := row <$> df in
  let report := (_validate_bars_issues df start end_).1 in
  let ohlc := ohlc_violations (issues report) in
  let vol := volume_violations (issues report) in
  count ohlc = length (filter (fun r => out_of_order r = true) table)
  /\ count vol = length (filter (fun r => volume r < 0) table)
  /\ (count ohlc <= bars_count (summary report))%nat
  /\ (count vol <= bars_count (summary report))%nat
  /\ length (samples ohlc) = Nat.min 20 (count ohlc)
  /\ length (samples vol) = Nat.min 20 (count vol)
  /\ (forall s, s ∈ samples ohlc ->
        os_issue s <> "high < low"
        /\ exists r, r ∈ table
             /\ ~ prices_in_order r
             /\ (os_symbol s, os_ts s) = key r
             /\ (os_open s, os_high s, os_low s, os_close s)
                = (open r, high r, low r, close r)
             /\ ((os_issue s = "high < max(open, close)"
                  /\ ((high r < open r)%Q \/ (high r < close r)%Q))
                 \/ (os_issue s = "low > min(open, close)"
                     /\ (open r <= high r)%Q /\ (close r <= high r)%Q
                     /\ ((open r < low r)%Q \/ (close r < low r)%Q))))
  /\ (forall s, s ∈ samples vol ->
        vs_volume s < 0
        /\ exists r, r ∈ table /\ (vs_symbol s, vs_ts s) = key r
                     /\ vs_volume s = volume r).
Proof.
  intros table report ohlc vol.
  destruct (violations_of_report df start end_) as (Ho & Hv & Hb).
  fold table report in Ho, Hv, Hb. fold ohlc in Ho. fold vol in Hv.
  rewrite Ho, Hv, Hb. cbn [count samples].
  rewrite ohlc_samples_count, !length_take, !length_fmap, ohlc_samples_count.
  split; [done|]. split; [done|]. split; [apply length_filter|].
  split; [apply length_filter|]. split; [done|]. split; [done|]. split.
  - intros s (r & Hr & Hs)%elem_of_take_1%list_elem_of_omap.
    unfold ohlc_sample in Hs. pose proof (ohlc_issue_cases r) as Hc.
    assert (Qltb (high r) (qmax (open r) (close r)) = false ->
            (open r <= high r)%Q /\ (close r <= high r)%Q) as Hmax.
    { unfold qmax. destruct (Qltb (open r) (close r)) eqn:E.
      - apply Qltb_lt in E. intros Hh%Qltb_ge. split; lra.
      - apply Qltb_ge in E. intros Hh%Qltb_ge. split; lra. }
    unfold ohlc_issue in Hs, Hc.
    destruct (Qltb (high r) (qmax (open r) (close r))) eqn:E1.
    + injection Hs as <-. cbn.
      destruct Hc as [[_ Hc]|[Hc _]]; [|done]. split; [done|].
      exists r. split; [done|]. split; [|split; [done|split; [done|]]].
      * intros (? & ? & ? & ?). destruct Hc; lra.
      * left. done.
    + destruct (Hmax eq_refl) as [Hoh Hch].
      destruct (Qltb (qmin (open r) (close r)) (low r)) eqn:E2.
      * injection Hs as <-. cbn.
        destruct Hc as [[Hc _]|[_ Hc]]; [done|]. split; [done|].
        exists r. split; [done|]. split; [|split; [done|split; [done|]]].
        -- intros (? & ? & ? & ?). destruct Hc; lra.
        -- right. done.
      * destruct (Qltb (high r) (low r)) eqn:E3; [|done].
        exfalso. destruct Hc as [[Hc _]|[Hc _]]; done.
  - intros s (r & -> & Hr)%elem_of_take_1%list_elem_of_fmap.
    apply list_elem_of_filter in Hr as [Hneg Hr]. cbn. split; [done|].
    by exists r.
Qed.

(** X16. The weekly and the daily validation of a table give the same
    flag, the same summary and the same issues, whatever the calendar
    does: the flag does not depend on missing days. The weekly report has
    a total of zero missing days and nothing else under "missing_days";
    the daily report always has a total. *)
Theorem weekly_checks_are_daily_checks (cal : Calendar) (df : nat)
    (start end_ : date) (h : gmap nat (list Line)) :
  let checks := _validate_bars_issues (deref h df) start end_ in
  let daily := (validate_daily_bars cal df start end_ h).1 in
  let weekly := (validate_weekly_bars df start end_ h).1 in
  daily.1 = checks.2 /\ weekly.1 = checks.2
  /\ summary daily.2 = summary checks.1 /\ summary weekly.2 = summary checks.1
  /\ issues daily.2 = issues checks.1 /\ issues weekly.2 = issues checks.1
  /\ missing_days weekly.2 = Some {[ "totals" := Totals 0 ]}
  /\ exists m n, missing_days daily.2 = Some m /\ m !! "totals" = Some (Totals n).
Proof.
  intros checks daily weekly. subst checks daily weekly.
  unfold validate_daily_bars, validate_weekly_bars.
  destruct (_validate_bars_issues (deref h df) start end_) as [report ok] eqn:Ec.
  destruct (deref h df) as [|line lines] eqn:Ed.
  { injection Ec as <- <-. cbn. repeat split; try done.
    eexists _, _. split; [done|]. apply lookup_singleton_eq. }
  destruct (sessions cal "XNYS" start end_) as [e|sessions_in_range].
  - cbn. repeat split; try done. eexists _, _. split; [done|]. apply lookup_insert_eq.
  - destruct (foldl _ _ _) as [m h']. cbn. repeat split; try done.
    eexists _, _. split; [done|]. apply lookup_insert_eq.
Qed.

(** X17. On an empty table both validations return true with zero
    symbols, zero bars, no issue and a total of zero missing days; the
    calendar is not asked, so that a failing calendar leaves no "error"
    entry, and the store is untouched. *)
Theorem empty_table_passes (cal : Calendar) (df : nat) (start end_ : date)
    (h : gmap nat (list Line)) :
  deref h df = [] ->
  let clean :=
    {| summary := {| symbols_count := 0; bars_count := 0; date_range := (start, end_) |};
       issues := {| duplicates := []; non_monotonic := [];
                    ohlc_violations := {| count := 0; samples := [] |};
                    volume_violations := {| count := 0; samples := [] |} |};
       missing_days := Some {[ "totals" := Totals 0 ]} |} in
  validate_daily_bars cal df start end_ h = ((true, clean), h)
  /\ validate_weekly_bars df start end_ h = ((true, clean), h).
Proof.
  intros Hempty clean. unfold validate_daily_bars, validate_weekly_bars.
  rewrite Hempty. done.
Qed.

End Reports.

(** ** The validator: missing trading days *)

Section MissingDays.
Import Py Table Validate Spec Checks.

Context (cal : Calendar) (sessions_in_range : list date) (table : list Line).

Local Abbreviation missing sym :=
  (missing_dates cal sessions_in_range sym (row <$> table)).

Local Abbreviation record :=
  (fun (m : gmap string (list date)) (sym : string) =>
     if decide (missing sym = []) then m else <[sym := missing sym]> m).

Lemma omap_bar_date (l : list Line) :
  omap bar_date
    ((fun p => {| label := label p; row := row p;
                  bar_date := Some (local_date cal (ts (row p))) |}) <$> l)
  = (fun p => local_date cal (ts (row p))) <$> l.
Proof. induction l as [|p l IH]; [done|]. cbn. by f_equal. Qed.

Lemma missing_of_symbol_value (df : nat) (sym : string)
    (m : gmap string (list date)) (h : gmap nat (list Line)) :
  h !! df = Some table ->
  (missing_of_symbol cal (list_to_set sessions_in_range) df sym (m, h)).1
  = record m sym.
Proof.
  intros Hdf. unfold missing_of_symbol, select_symbol, copy.
  assert (deref h df = table) as -> by (unfold deref; by rewrite Hdf).
  set (f1 := filter (fun p => symbol (row p) = sym) table).
  pose proof (alloc_deref f1 h) as D1.
  destruct (alloc f1 h) as [l1 h1] eqn:E1. cbn [fst snd] in D1. rewrite D1.
  pose proof (alloc_deref f1 h1) as D2.
  destruct (alloc f1 h1) as [l2 h2] eqn:E2. cbn [fst snd] in D2.
  assert (deref (set_bar_date cal l2 h2) l2
          = (fun p => {| label := label p; row := row p;
                         bar_date := Some (local_date cal (ts (row p))) |}) <$> f1)
    as ->.
  { unfold set_bar_date. unfold deref at 1. rewrite lookup_insert_eq. simpl.
    by rewrite D2. }
  rewrite omap_bar_date.
  assert ((fun p => local_date cal (ts (row p))) <$> f1
          = dates_of cal sym (row <$> table)) as ->.
  { unfold dates_of. subst f1. rewrite <- rows_of_symbol, <- list_fmap_compose. done. }
  change (sort_by Z.leb (elements (list_to_set sessions_in_range
                                     ∖ list_to_set (dates_of cal sym (row <$> table)))))
    with (missing sym).
  assert (forall (l : list date) (h' : gmap nat (list Line)),
            (match l with
             | [] => (m, h')
             | _ :: _ => (<[sym := l]> m, h')
             end).1
            = if decide (l = []) then m else <[sym := l]> m) as Hcase
    by (by intros [|d l] h').
  apply Hcase.
Qed.

Lemma missing_loop_value (df : nat) (symbols : list string) :
  forall (m : gmap string (list date)) (h : gmap nat (list Line)),
    h !! df = Some table ->
    (foldl (fun acc sym => missing_of_symbol cal (list_to_set sessions_in_range) df sym acc)
       (m, h) symbols).1
    = foldl record m symbols.
Proof.
  induction symbols as [|sym symbols IH]; intros m h Hdf; cbn [foldl]; [done|].
  pose proof (missing_of_symbol_value df sym m h Hdf) as Hv.
  pose proof (missing_of_symbol_preserved cal (list_to_set sessions_in_range) df sym m h)
    as Hp.
  destruct (missing_of_symbol _ _ _ _ _) as [m1 h1]. cbn [fst snd] in Hv, Hp.
  rewrite Hv. apply IH. by apply Hp.
Qed.

Lemma record_lookup (symbols : list string) :
  forall (m : gmap string (list date)) (sym : string),
    foldl record m symbols !! sym
    = if decide (sym ∈ symbols /\ missing sym <> [])
      then Some (missing sym) else m !! sym.
Proof.
  induction symbols as [|s symbols IH]; intros m sym; cbn [foldl].
  - rewrite decide_False; [done|]. by intros [?%elem_of_nil _].
  - rewrite IH. destruct (decide (sym ∈ symbols /\ missing sym <> [])) as [[Hin Hne]|Hno].
    + rewrite decide_True; [done|]. split; [by right | done].
    + destruct (decide (missing s = [])) as [Hs|Hs].
      * destruct (decide (sym ∈ s :: symbols /\ missing sym <> [])) as [[Hin Hne]|_];
          [|done].
        apply elem_of_cons in Hin as [->|Hin]; [done|]. by destruct Hno.
      * destruct (decide (sym = s)) as [->|Hneq].
        -- rewrite lookup_insert_eq. rewrite decide_True; [done|]. split; [left | done].
        -- rewrite lookup_insert_ne by done. rewrite decide_False; [done|].
           intros [Hin Hne]. apply elem_of_cons in Hin as [->|Hin]; [done|].
           by destruct Hno.
Qed.

Lemma record_total (symbols : list string) :
  forall m : gmap string (list date),
    NoDup symbols ->
    (forall s, s ∈ symbols -> m !! s = None) ->
    map_fold (fun _ dates n => (length dates + n)%nat) 0%nat (foldl record m symbols)
    = (map_fold (fun _ dates n => (length dates + n)%nat) 0%nat m
       + missing_total cal sessions_in_range symbols (row <$> table))%nat.
Proof.
  induction symbols as [|s symbols IH]; intros m Hnd Hnew; cbn [foldl].
  - simpl. lia.
  - apply NoDup_cons in Hnd as [Hs Hnd]. rewrite IH; [|done|].
    + cbn [missing_total foldr]. fold (missing_total cal sessions_in_range symbols (row <$> table)).
      destruct (decide (missing s = [])) as [He|He].
      * rewrite He. simpl. lia.
      * rewrite map_fold_insert_L; [lia | intros; lia |]. apply Hnew. left.
    + intros s' Hs'. destruct (decide (missing s = [])); [apply Hnew; by right|].
      rewrite lookup_insert_ne by (intros ->; done). apply Hnew. by right.
Qed.

Lemma increasing_of_sorted (l : list Z) :
  StronglySorted (fun a b => (a <=? b) = true) l -> NoDup l -> StronglySorted Z.lt l.
Proof.
  induction 1 as [|a l Hl IH Ha]; intros Hnd; constructor.
  - apply IH. by apply NoDup_cons in Hnd as [_ ?].
  - apply NoDup_cons in Hnd as [Hnot _]. rewrite Forall_forall in Ha |- *.
    intros b Hb. specialize (Ha b Hb). apply Z.leb_le in Ha.
    assert (a <> b) by (intros ->; done). lia.
Qed.

Lemma missing_dates_spec (sym : string) :
  StronglySorted Z.lt (missing sym)
  /\ forall d, d ∈ missing sym
       <-> d ∈ sessions_in_range
           /\ forall r, r ∈ row <$> table -> symbol r = sym -> local_date cal (ts r) <> d.
Proof.
  split.
  - apply increasing_of_sorted; [apply Zleb_sorted|].
    unfold missing_dates. rewrite sort_by_Permutation. apply NoDup_elements.
  - intros d. unfold missing_dates. rewrite sort_by_Permutation, elem_of_elements.
    rewrite elem_of_difference, !elem_of_list_to_set. unfold dates_of.
    rewrite list_elem_of_fmap. split.
    + intros [Hd Hno]. split; [done|]. intros r Hr Hs Hdate. apply Hno.
      exists r. split; [done|]. apply list_elem_of_filter. done.
    + intros [Hd Hno]. split; [done|]. intros (r & -> & [Hs Hr]%list_elem_of_filter).
      by apply (Hno r).
Qed.

End MissingDays.

Section MissingDaysReport.
Import Py Table Validate Spec Checks.

(** X18. When the calendar answers, the daily report lists under each
    symbol of a table that is not empty the sessions of the range on which
    the symbol has no row (by New York date), in ascending order without
    repeats; a symbol that misses none has no entry. The total is the
    number of the missing dates of all the symbols. The entry of a symbol
    named "totals" is replaced by the total. *)
Theorem missing_days_listed_per_symbol (cal : Calendar) (df : nat)
    (start end_ : date) (h : gmap nat (list Line)) (sessions_in_range : list date) :
  deref h df <> [] ->
  sessions cal "XNYS" start end_ = inr sessions_in_range ->
  let table := row <$> deref h df in
  let missing := fun sym => missing_dates cal sessions_in_range sym table in
  exists m,
    missing_days (validate_daily_bars cal df start end_ h).1.2 = Some m
    /\ m !! "totals"
       = Some (Totals (missing_total cal sessions_in_range (unique (symbol <$> table))
                         table))
    /\ (forall sym, sym <> "totals" ->
          m !! sym = if decide (sym ∈ symbol <$> table /\ missing sym <> [])
                     then Some (Dates (missing sym)) else None)
    /\ (forall sym,
          StronglySorted Z.lt (missing sym)
          /\ forall d, d ∈ missing sym
               <-> d ∈ sessions_in_range
                   /\ forall r, r ∈ table -> symbol r = sym ->
                        local_date cal (ts r) <> d).
Proof.
  intros Hne Hcal table missing.
  assert (h !! df = Some (deref h df)) as Hdf.
  { unfold deref in *. by destruct (h !! df). }
  unfold validate_daily_bars.
  destruct (_validate_bars_issues (deref h df) start end_) as [report ok].
  destruct (deref h df) as [|line lines] eqn:Ed; [done|].
  rewrite Hcal.
  pose proof (missing_loop_value cal sessions_in_range (line :: lines) df
                (unique ((fun p => symbol (row p)) <$> line :: lines)) ∅ h Hdf) as Hloop.
  destruct (foldl _ _ _) as [m h']. cbn [fst snd] in Hloop. subst m.
  assert ((fun p => symbol (row p)) <$> line :: lines = symbol <$> table) as Hsyms
    by (subst table; by rewrite <- list_fmap_compose).
  rewrite Hsyms. cbn [fst snd missing_days set_missing_days].
  eexists. split; [reflexivity|]. split; [|split].
  - rewrite lookup_insert_eq. do 2 f_equal.
    rewrite record_total; [by rewrite map_fold_empty | apply NoDup_unique | done].
  - intros sym Hsym. rewrite lookup_insert_ne by done.
    rewrite lookup_fmap, record_lookup, lookup_empty.
    destruct (decide (sym ∈ unique (symbol <$> table) /\ _)) as [[Hin Hm]|Hno].
    + rewrite decide_True; [done|]. split; [by apply elem_of_unique | done].
    + rewrite decide_False; [done|]. intros [Hin Hm]. apply Hno.
      split; [by apply elem_of_unique | done].
  - intros sym. apply missing_dates_spec.
Qed.

End MissingDaysReport.

(** ** The resampler: the weekly table as a whole *)

Section WeeklyTable.
Import Py Table Validate Resample Spec Checks.

Local Abbreviation chronological := (fun a b : Row => ts a <=? ts b).

(** The rows of one symbol and one week in the weekly table. *)
Lemma to_weekly_week (df : list Row) (sym : string) (m : Z) :
  filter (fun r => symbol r = sym /\ ts r = m) (to_weekly df)
  ≡ₚ match sort_by chronological (filter (fun r => symbol r = sym) df) with
     | [] => []
     | first_row :: _ =>
         option_list
           (weekly_row sym first_row
              <$> aggregate m
                    (sort_by chronological
                       (filter (fun r => symbol r = sym /\ week_start (ts r) = m) df)))
     end.
Proof.
  unfold to_weekly. destruct df as [|r0 df0]; [done|].
  rewrite sort_by_Permutation.
  rewrite filter_parts by apply NoDup_unique.
  destruct (decide (sym ∈ _)) as [Hin|Hin].
  - by rewrite weekly_part_week, week_of_sorted.
  - rewrite elem_of_unique in Hin.
    assert (filter (fun r => symbol r = sym) (r0 :: df0) = []) as ->; [|done].
    apply filter_nil_iff, Forall_forall. intros r Hr Hs. apply Hin.
    apply list_elem_of_fmap. eauto.
Qed.

(** Where a row of the weekly table comes from. *)
Lemma weekly_row_origin (df : list Row) (w : Row) :
  w ∈ to_weekly df ->
  exists first_row c cs,
    head (sort_by chronological (filter (fun r => symbol r = symbol w) df))
    = Some first_row
    /\ sort_by chronological
         (filter (fun r => symbol r = symbol w /\ week_start (ts r) = ts w) df)
       = c :: cs
    /\ w = weekly_row (symbol w) first_row
             {| w_ts := ts w;
                w_open := open c;
                w_high := foldl qmax (high c) (high <$> cs);
                w_low := foldl qmin (low c) (low <$> cs);
                w_close := close (List.last cs c);
                w_volume := wrap64 (foldl Z.add 0 (volume <$> c :: cs)) |}.
Proof.
  intros Hw.
  assert (w ∈ filter (fun r => symbol r = symbol w /\ ts r = ts w) (to_weekly df)) as Hin
    by (by apply list_elem_of_filter).
  rewrite to_weekly_week in Hin.
  destruct (sort_by chronological (filter (fun r => symbol r = symbol w) df))
    as [|first_row rest]; [by apply elem_of_nil in Hin|].
  destruct (sort_by chronological
              (filter (fun r => symbol r = symbol w /\ week_start (ts r) = ts w) df))
    as [|c cs]; [by apply elem_of_nil in Hin|].
  cbn in Hin. apply list_elem_of_singleton in Hin.
  by exists first_row, c, cs.
Qed.

Lemma bucket_nonempty (df : list Row) (sym : string) (m : Z) :
  sort_by chronological
    (filter (fun r => symbol r = sym /\ week_start (ts r) = m) df) <> []
  <-> exists r, r ∈ df /\ symbol r = sym /\ week_start (ts r) = m.
Proof.
  split.
  - intros Hne. destruct (sort_by _ _) as [|c cs] eqn:E; [done|].
    assert (c ∈ sort_by chronological
                  (filter (fun r => symbol r = sym /\ week_start (ts r) = m) df)) as Hc
      by (rewrite E; left).
    rewrite sort_by_Permutation in Hc. apply list_elem_of_filter in Hc as [[Hs Hm] Hc].
    by exists c.
  - intros (r & Hr & Hs & Hm) Hnil.
    assert (r ∈ sort_by chronological
                  (filter (fun r => symbol r = sym /\ week_start (ts r) = m) df)) as Hin.
    { rewrite sort_by_Permutation. by apply list_elem_of_filter. }
    rewrite Hnil in Hin. by apply elem_of_nil in Hin.
Qed.

Lemma weekly_keys (df : list Row) (k : string * Z) :
  k ∈ key <$> to_weekly df
  <-> exists r, r ∈ df /\ k = (symbol r, week_start (ts r)).
Proof.
  split.
  - intros (w & -> & Hw)%list_elem_of_fmap.
    destruct (weekly_row_origin df w Hw) as (first_row & c & cs & _ & Hb & _).
    destruct (proj1 (bucket_nonempty df (symbol w) (ts w))) as (r & Hr & Hs & Hm).
    + by rewrite Hb.
    + exists r. split; [done|]. unfold key. congruence.
  - intros (r & Hr & ->).
    assert (filter (fun r' => symbol r' = symbol r /\ ts r' = week_start (ts r))
              (to_weekly df) <> []) as Hne.
    { intros Hnil. pose proof (to_weekly_week df (symbol r) (week_start (ts r))) as Hp.
      rewrite Hnil in Hp. symmetry in Hp. apply Permutation_nil_r in Hp.
      destruct (sort_by chronological (filter (fun r' => symbol r' = symbol r) df))
        as [|first_row rest] eqn:Es.
      - assert (r ∈ sort_by chronological (filter (fun r' => symbol r' = symbol r) df))
          as Hin by (rewrite sort_by_Permutation; by apply list_elem_of_filter).
        rewrite Es in Hin. by apply elem_of_nil in Hin.
      - destruct (sort_by chronological
                    (filter (fun r' => symbol r' = symbol r
                                       /\ week_start (ts r') = week_start (ts r)) df))
          as [|c cs] eqn:Eb; [|done].
        apply (proj2 (bucket_nonempty df (symbol r) (week_start (ts r)))); [|done].
        by exists r. }
    destruct (filter _ (to_weekly df)) as [|w ws] eqn:Ef; [done|].
    assert (w ∈ filter (fun r' => symbol r' = symbol r /\ ts r' = week_start (ts r))
                  (to_weekly df)) as Hw by (rewrite Ef; left).
    apply list_elem_of_filter in Hw as [[Hs Hm] Hw].
    apply list_elem_of_fmap. exists w. split; [|done]. unfold key. congruence.
Qed.

Lemma weekly_keys_distinct (df : list Row) : NoDup (key <$> to_weekly df).
Proof.
  apply (NoDup_fmap_count key). intros [sym m].
  assert (filter (fun r => key r = (sym, m)) (to_weekly df)
          = filter (fun r => symbol r = sym /\ ts r = m) (to_weekly df)) as ->.
  { apply list_filter_iff. intros r. unfold key. split; [by intros [= -> ->] |].
    by intros [-> ->]. }
  rewrite to_weekly_week. destruct (sort_by _ _); [simpl; lia|].
  destruct (aggregate _ _); simpl; lia.
Qed.

Lemma weekly_keys_sorted (df : list Row) :
  StronglySorted (fun a b => key_leb a b = true) (key <$> to_weekly df).
Proof.
  apply (StronglySorted_fmap key (fun a b => key_leb (key a) (key b) = true)); [done|].
  unfold to_weekly. destruct df as [|r df]; [constructor|].
  apply (sort_by_sorted (fun a b : Row => key_leb (key a) (key b))).
  - intros a b c. apply key_leb_trans.
  - intros a b. apply key_leb_total.
Qed.

(** X19. The weekly table is in ascending order of the keys (symbol, ts)
    and no two of its rows have the same key; its keys are the pairs of a
    symbol and the Monday of a week in which the symbol has a daily row. It
    has no more rows than the daily table, and it is empty only when the
    daily table is. *)
Theorem weekly_table_sorted_one_row_per_week (df : list Row) :
  StronglySorted (fun a b => key_leb a b = true) (key <$> to_weekly df)
  /\ NoDup (key <$> to_weekly df)
  /\ (forall k, k ∈ key <$> to_weekly df
        <-> exists r, r ∈ df /\ k = (symbol r, week_start (ts r)))
  /\ (length (to_weekly df) <= length df)%nat
  /\ (to_weekly df = [] <-> df = []).
Proof.
  split; [apply weekly_keys_sorted|]. split; [apply weekly_keys_distinct|].
  split; [apply weekly_keys|]. split.
  - rewrite <- (length_fmap key (to_weekly df)).
    rewrite <- (length_fmap (fun r => (symbol r, week_start (ts r))) df).
    apply submseteq_length, NoDup_submseteq; [apply weekly_keys_distinct|].
    intros k (r & Hr & ->)%weekly_keys. apply list_elem_of_fmap. eauto.
  - split; [|by intros ->].
    intros Hnil. destruct df as [|r df]; [done|]. exfalso.
    assert ((symbol r, week_start (ts r)) ∈ key <$> to_weekly (r :: df)) as Hin.
    { apply weekly_keys. exists r. split; [left | done]. }
    rewrite Hnil in Hin. by apply elem_of_nil in Hin.
Qed.


End WeeklyTable.

(** ** The resampler followed by the validator *)

Section WeeklyChecks.
Import Py Table Validate Resample Spec Checks.

Local Abbreviation chronological := (fun a b : Row => ts a <=? ts b).

Lemma last_elem_of {A : Type} (x : A) (l : list A) : List.last l x ∈ x :: l.
Proof.
  assert (forall (k : list A) (y : A), List.last (y :: k) x ∈ y :: k) as Hin.
  { induction k as [|z k IH]; intros y; [left|]. right. apply (IH z). }
  destruct l as [|y l]; [left|]. right. apply Hin.
Qed.

Lemma total_nonnegative (l : list Z) : Forall (fun v => 0 <= v) l -> 0 <= total l.
Proof. induction 1 as [|v l Hv _ IH]; unfold total in *; simpl; lia. Qed.

Lemma weekly_prices_in_order (df : list Row) :
  Forall prices_in_order df -> Forall prices_in_order (to_weekly df).
Proof.
  intros Hdf. apply Forall_forall. intros w Hw.
  destruct (weekly_row_origin df w Hw) as (first_row & c & cs & _ & Hb & Heq).
  assert (forall r, r ∈ c :: cs -> prices_in_order r) as Hrows.
  { intros r Hr. rewrite <- Hb, sort_by_Permutation in Hr.
    apply list_elem_of_filter in Hr as [_ Hr]. rewrite Forall_forall in Hdf. by apply Hdf. }
  destruct (foldl_qmax (high c) (high <$> cs)) as [_ Hmax].
  destruct (foldl_qmin (low c) (low <$> cs)) as [_ Hmin].
  assert (forall r, r ∈ c :: cs ->
            (high r <= foldl qmax (high c) (high <$> cs))%Q
            /\ (foldl qmin (low c) (low <$> cs) <= low r)%Q) as Hbounds.
  { intros r Hr. split.
    - apply Hmax. rewrite <- fmap_cons. by apply list_elem_of_fmap_2.
    - apply Hmin. rewrite <- fmap_cons. by apply list_elem_of_fmap_2. }
  pose proof (last_elem_of c cs) as Hlast.
  destruct (Hbounds c) as [Hc1 Hc2]; [left|].
  destruct (Hbounds _ Hlast) as [Hl1 Hl2].
  destruct (Hrows c) as (? & ? & ? & ?); [left|].
  destruct (Hrows _ Hlast) as (? & ? & ? & ?).
  rewrite Heq. unfold prices_in_order.
  cbn [weekly_row open high low close w_open w_high w_low w_close].
  repeat split; lra.
Qed.

Lemma weekly_volume (df : list Row) (w : Row) :
  w ∈ to_weekly df ->
  volume w
  = wrap64 (total (volume <$> filter (fun r => symbol r = symbol w
                                               /\ week_start (ts r) = ts w) df)).
Proof.
  intros Hw.
  destruct (weekly_row_origin df w Hw) as (first_row & c & cs & _ & Hb & Heq).
  rewrite Heq at 1. cbn [weekly_row volume w_volume].
  rewrite foldl_add_total, Z.add_0_l, <- Hb. f_equal.
  apply total_Permutation. by rewrite sort_by_Permutation.
Qed.

(** X21. The weekly table never has a duplicate or a non-monotonic
    example. When the prices of every daily row are in order, so are those
    of every weekly row; when moreover no daily volume is negative and the
    volumes of each symbol and week add up to less than 2^63, the weekly
    table passes all the checks. *)
Theorem weekly_table_passes_checks (df : list Row) (start end_ : date) :
  let checks := _validate_bars_issues (frame_of (to_weekly df)) start end_ in
  duplicates (issues checks.1) = []
  /\ non_monotonic (issues checks.1) = []
  /\ (Forall prices_in_order df ->
      Forall prices_in_order (to_weekly df)
      /\ count (ohlc_violations (issues checks.1)) = 0%nat)
  /\ (Forall sane df ->
      (forall sym m,
         total (volume <$> filter (fun r => symbol r = sym /\ week_start (ts r) = m) df)
         < 2 ^ 63) ->
      checks.2 = true).
Proof.
  intros checks. subst checks.
  assert (find_duplicates (to_weekly df) = []) as Hdups.
  { destruct (find_duplicates_spec (to_weekly df)) as (_ & _ & _ & _ & Hnil).
    apply Hnil, weekly_keys_distinct. }
  split; [by rewrite duplicates_of_report, row_frame_of|].
  split; [by apply no_examples_without_duplicates|]. split.
  - intros Hdf. pose proof (weekly_prices_in_order df Hdf) as Hw. split; [exact Hw|].
    destruct (violations_of_report (frame_of (to_weekly df)) start end_) as (-> & _).
    cbn [count]. rewrite ohlc_samples_count, row_frame_of.
    apply length_zero_iff_nil, filter_nil_iff.
    eapply Forall_impl; [exact Hw|]. intros r Hr%out_of_order_false. congruence.
  - intros Hdf Hfit. apply checks_flag. split; [apply weekly_keys_distinct|].
    assert (Forall prices_in_order (to_weekly df)) as Hp.
    { apply weekly_prices_in_order. eapply Forall_impl; [exact Hdf|]. by intros r [? _]. }
    apply Forall_forall. intros w Hw. split; [by apply (proj1 (Forall_forall _ _) Hp)|].
    rewrite (weekly_volume df w Hw).
    assert (0 <= total (volume <$> filter (fun r => symbol r = symbol w
                                                     /\ week_start (ts r) = ts w) df))
      as Hpos.
    { apply total_nonnegative, Forall_fmap, Forall_forall.
      intros r [_ Hr]%list_elem_of_filter. rewrite Forall_forall in Hdf.
      by destruct (Hdf r Hr). }
    specialize (Hfit (symbol w) (ts w)). rewrite wrap64_id; lia.
Qed.

End WeeklyChecks.

Section VolumeBounds.
Import Py Table Spec.

Lemma total_filter_le {A : Type} (f : A -> Z) (P : A -> Prop)
    `{!forall a, Decision (P a)} (l : list A) :
  Forall (fun a => 0 <= f a) l -> total (f <$> filter P l) <= total (f <$> l).
Proof.
  induction 1 as [|a l Ha _ IH]; [done|]. rewrite filter_cons, fmap_cons.
  change (total (f a :: (f <$> l))) with (f a + total (f <$> l)).
  destruct (decide (P a)); [|lia]. rewrite fmap_cons.
  change (total (f a :: (f <$> filter P l))) with (f a + total (f <$> filter P l)).
  lia.
Qed.

End VolumeBounds.

(** ** The further properties on sample tables *)

Section FurtherTableExamples.
Import Py Table Validate Resample Spec Checks Samples.

Lemma non_monotonic_examples_are_duplicates_witness :
  let report := (_validate_bars_issues (frame_of repeated) 19723 19725).1 in
  let e := {| nm_symbol := "AAPL"; example_ts_prev := at_day 19724;
              example_ts_next := at_day 19724 |} in
  e ∈ non_monotonic (issues report)
  /\ exists d, d ∈ duplicates (issues report) /\ dup_key d = ("AAPL", at_day 19724).
Proof.
  intros report e.
  assert (e ∈ non_monotonic (issues report)) as Hin by (vm_compute; left).
  split; [exact Hin|].
  exact (proj2 (proj1 (non_monotonic_examples_are_duplicates repeated 19723 19725) e Hin)).
Defined.

(** The repeated day is listed once among the duplicates, with its two
    rows. *)
Example repeated_day_counted :
  duplicates (issues (_validate_bars_issues (frame_of repeated) 19723 19725).1)
  = [{| dup_symbol := "AAPL"; dup_ts := at_day 19724; dup_count := 2 |}].
Proof. vm_compute. reflexivity. Qed.

Lemma empty_table_passes_witness :
  (validate_daily_bars no_calendar 0 19723 19725 (store_of [])).1.1 = true
  /\ missing_days (validate_daily_bars no_calendar 0 19723 19725 (store_of [])).1.2
     = Some {[ "totals" := Totals 0 ]}
  /\ (validate_weekly_bars 0 19723 19725 (store_of [])).1.1 = true.
Proof.
  destruct (empty_table_passes no_calendar 0 19723 19725 (store_of []) eq_refl)
    as [Hdaily Hweekly].
  rewrite Hdaily, Hweekly. done.
Defined.

Lemma missing_days_listed_per_symbol_witness :
  exists m,
    missing_days (validate_daily_bars every_day 0 19722 19725 (store_of descending)).1.2
    = Some m
    /\ m !! "AAPL" = Some (Dates [19725])
    /\ m !! "totals" = Some (Totals 1).
Proof.
  destruct (missing_days_listed_per_symbol every_day 0 19722 19725 (store_of descending)
              (seqZ 19722 4))
    as (m & Hm & Htotal & Hsym & _).
  - vm_compute. discriminate.
  - reflexivity.
  - exists m. split; [exact Hm|]. split.
    + rewrite (Hsym "AAPL") by discriminate. vm_compute. reflexivity.
    + rewrite Htotal. vm_compute. reflexivity.
Defined.


Lemma two_weeks_sane : Forall sane two_weeks.
Proof.
  repeat constructor; unfold Qle; simpl; lia.
Qed.

Lemma weekly_table_passes_checks_witness :
  Forall sane two_weeks
  /\ (_validate_bars_issues (frame_of (to_weekly two_weeks)) 19723 19733).2 = true.
Proof.
  split; [exact two_weeks_sane|].
  apply (proj2 (proj2 (proj2 (weekly_table_passes_checks two_weeks 19723 19733))));
    [exact two_weeks_sane|].
  intros sym m.
  eapply Z.le_lt_trans;
    [apply total_filter_le; eapply Forall_impl; [exact two_weeks_sane|]; by intros r [_ ?]|].
  vm_compute. reflexivity.
Defined.

(** A weekly row can break the volume check though no daily row does, when
    the sum of a week leaves the int64 range. *)
Example weekly_volume_can_wrap :
  let df := [daily "AAPL" 19723 100 102 99 101 (2 ^ 62);
             daily "AAPL" 19724 101 103 100 102 (2 ^ 62)] in
  Forall sane df
  /\ (_validate_bars_issues (frame_of df) 19723 19725).2 = true
  /\ volume <$> to_weekly df = [- 2 ^ 63]
  /\ (_validate_bars_issues (frame_of (to_weekly df)) 19723 19725).2 = false.
Proof.
  intros df. split; [|split; [|split]].
  - repeat constructor; unfold Qle; simpl; lia.
  - vm_compute. reflexivity.
  - vm_compute. reflexivity.
  - vm_compute. reflexivity.
Qed.

End FurtherTableExamples.
